(** * uw-openhsi: capture orchestration, reconnect recovery and pose export

    A shallow embedding of the Python scripts of the repository

    - [ids/record_frames.py]  (module [RecordFrames]),
    - [main.py]               (modules [Orchestrator] and [ConfigPatch]),
    - [zed/position_post.py]  (module [PositionPost]),
    - [zed/record_svo.py]     (module [RecordSvo]),

    together with the properties the specification states about them, and
    further properties of the code.

    The scripts are glue around vendor libraries (the IDS peak SDK,
    [subprocess], pandas, the ZED SDK).  The libraries are modelled by the
    part of their documented behaviour the scripts rely on; everything the
    scripts themselves do (control flow, exception handlers, the order of
    the calls) is translated statement by statement. *)

From Stdlib Require Import ZArith List String Bool Arith Lia DecimalString.
Import ListNotations.
Open Scope string_scope.
Open Scope list_scope.

(* ===================================================================== *)
(** * Python: exceptions, outcomes, and a state monad that keeps the state
      when an exception is raised *)
(* ===================================================================== *)

Module Py.

(** The exception classes that occur in the three scripts.  The first
    three derive from [BaseException] only. *)
Inductive pyclass : Type :=
| BaseException
| KeyboardInterrupt
| SystemExit
| Exception_
| IndexError
| AttributeError
| NameError
| UnboundLocalError
| OSError
| CalledProcessError
| PeakException          (* ids_peak.Exception *)
| AbortedException       (* ids_peak.AbortedException *)
| TimeoutException.      (* ids_peak.TimeoutException *)

Definition pyclass_eqb (c d : pyclass) : bool :=
  match c, d with
  | BaseException, BaseException
  | KeyboardInterrupt, KeyboardInterrupt
  | SystemExit, SystemExit
  | Exception_, Exception_
  | IndexError, IndexError
  | AttributeError, AttributeError
  | NameError, NameError
  | UnboundLocalError, UnboundLocalError
  | OSError, OSError
  | CalledProcessError, CalledProcessError
  | PeakException, PeakException
  | AbortedException, AbortedException
  | TimeoutException, TimeoutException => true
  | _, _ => false
  end.

(** The direct base class. *)
Definition base (c : pyclass) : option pyclass :=
  match c with
  | BaseException => None
  | KeyboardInterrupt | SystemExit | Exception_ => Some BaseException
  | IndexError | AttributeError | NameError | OSError
  | CalledProcessError | PeakException => Some Exception_
  | UnboundLocalError => Some NameError
  | AbortedException | TimeoutException => Some PeakException
  end.

Fixpoint issubclass_fuel (n : nat) (c d : pyclass) : bool :=
  pyclass_eqb c d ||
  match n with
  | O => false
  | S n' => match base c with
            | Some b => issubclass_fuel n' b d
            | None => false
            end
  end.

(** The class hierarchy above has depth 4. *)
Definition issubclass : pyclass -> pyclass -> bool := issubclass_fuel 4.

Record pyexn : Type := mk_exn { exn_class : pyclass; exn_msg : string }.

Definition isinstance (e : pyexn) (c : pyclass) : bool :=
  issubclass (exn_class e) c.

(** [str(e)] *)
Definition str_exn (e : pyexn) : string := exn_msg e.

(** [str(n)] for a Python int. *)
Definition str_Z (z : Z) : string := NilZero.string_of_int (Z.to_int z).

(** What running a piece of Python does: it finishes with a value, it
    raises, or it never comes back (a blocking call that is never
    served). *)
Inductive outcome (A : Type) : Type :=
| Ok (a : A)
| Raise (e : pyexn)
| Hang.
Arguments Ok {A} a.
Arguments Raise {A} e.
Arguments Hang {A}.

Definition M (S A : Type) : Type := S -> outcome A * S.

Section Monad.
Context {S : Type}.

Definition ret {A} (a : A) : M S A := fun s => (Ok a, s).

Definition bind {A B} (m : M S A) (k : A -> M S B) : M S B :=
  fun s => match m s with
           | (Ok a, s') => k a s'
           | (Raise e, s') => (Raise e, s')
           | (Hang, s') => (Hang, s')
           end.

Definition raise {A} (e : pyexn) : M S A := fun s => (Raise e, s).

Definition hang {A} : M S A := fun s => (Hang, s).

Definition gets {A} (f : S -> A) : M S A := fun s => (Ok (f s), s).

Definition modify (f : S -> S) : M S unit := fun s => (Ok tt, f s).

(** One [except] clause: the classes it names and its body. *)
Definition clause (A : Type) : Type := (list pyclass * (pyexn -> M S A))%type.

Fixpoint select {A} (cs : list (clause A)) (e : pyexn) : option (M S A) :=
  match cs with
  | [] => None
  | (classes, h) :: cs' =>
      if existsb (isinstance e) classes then Some (h e) else select cs' e
  end.

(** [try: body  except C1: h1  except C2: h2 ...]: the first clause
    whose class matches handles the exception; an exception no clause
    matches propagates. *)
Definition try_except {A} (body : M S A) (cs : list (clause A)) : M S A :=
  fun s => match body s with
           | (Raise e, s') =>
               match select cs e with
               | Some h => h s'
               | None => (Raise e, s')
               end
           | r => r
           end.

(** [try: body  finally: fin]: [fin] runs however [body] ends (unless it
    never ends); what [body] did (value or exception) then stands,
    unless [fin] itself raises. *)
Definition try_finally {A} (body : M S A) (fin : M S unit) : M S A :=
  fun s => match body s with
           | (Hang, s') => (Hang, s')
           | (r, s') =>
               match fin s' with
               | (Ok _, s'') => (r, s'')
               | (Raise e, s'') => (Raise e, s'')
               | (Hang, s'') => (Hang, s'')
               end
           end.

(** [for x in xs: body x] *)
Fixpoint for_each {A} (xs : list A) (body : A -> M S unit) : M S unit :=
  match xs with
  | [] => ret tt
  | x :: xs' => bind (body x) (fun _ => for_each xs' body)
  end.

(** [if c: body] *)
Definition when (c : bool) (body : M S unit) : M S unit :=
  if c then body else ret tt.

(** *** Outcome-indexed Hoare triples *)

(** From a state satisfying [P], [m] ends in a state satisfying
    [Q a] when it returns [a], and in a state satisfying [E] when it
    raises or never returns. *)
Definition hoare {A} (P : S -> Prop) (m : M S A)
    (Q : A -> S -> Prop) (E : S -> Prop) : Prop :=
  forall s, P s ->
    match m s with
    | (Ok a, s') => Q a s'
    | (Raise _, s') => E s'
    | (Hang, s') => E s'
    end.

(** [m] keeps the invariant [I], however it ends. *)
Definition keeps {A} (I : S -> Prop) (m : M S A) : Prop :=
  hoare I m (fun _ => I) I.
End Monad.

Module Notations.
Notation "x <- m ;; k" := (bind m (fun x => k))
  (at level 61, m at next level, right associativity).
Notation "m ;; k" := (bind m (fun _ => k))
  (at level 61, right associativity).
End Notations.

End Py.

Import Py Py.Notations.

(* ===================================================================== *)
(** * ids/record_frames.py *)
(* ===================================================================== *)

Module RecordFrames.

(** ** The IDS peak SDK, as far as the script uses it *)

(** A buffer announced to the transport layer. *)
Record Buffer : Type := mk_buffer { buf_id : nat; buf_size : Z }.

(** The calls on the data stream that change it.  Each one that is
    served is logged together with the value [IsGrabbing()] had when it
    was made. *)
Inductive stream_op : Type :=
| StartAcquisition
| StopAcquisition
| Flush
| RevokeBuffer (id : nat)
| AllocAndAnnounceBuffer (size : Z)
| QueueBuffer (id : nat).

(** The calls that change the set of announced buffers or its queues. *)
Definition mutates_pool (op : stream_op) : bool :=
  match op with
  | StartAcquisition | StopAcquisition => false
  | Flush | RevokeBuffer _ | AllocAndAnnounceBuffer _ | QueueBuffer _ => true
  end.

Record DataStream : Type := mk_stream {
  announced : list Buffer;          (* AnnouncedBuffers(), in order *)
  queued : list nat;                (* ids in the input queue *)
  grabbing : bool;                  (* IsGrabbing() *)
  min_required : nat;               (* NumBuffersAnnouncedMinRequired() *)
  next_buffer : nat;                (* id of the next buffer the TL allocates *)
  call_log : list (stream_op * bool)
}.

(** The nodes of the remote device the script touches. *)
Record NodeMap : Type := mk_nodemap {
  payload_size : Z;                 (* PayloadSize *)
  tl_params_locked : Z;             (* TLParamsLocked *)
  exposure_time : Z;                (* ExposureTime *)
  user_set_selector : string;       (* UserSetSelector *)
  executed : list string            (* commands executed, oldest first *)
}.

Inductive access_status : Type := ReadWrite | ReadOnly | NoAccess.

Record DeviceDescriptor : Type := mk_descriptor {
  dev_key : string;
  dev_display_name : string;
  dev_openable : bool
}.

Inductive cb_kind : Type := CbFound | CbLost | CbReconnected | CbDisconnected.

Definition cb_kind_eqb (a b : cb_kind) : bool :=
  match a, b with
  | CbFound, CbFound | CbLost, CbLost
  | CbReconnected, CbReconnected | CbDisconnected, CbDisconnected => true
  | _, _ => false
  end.

Record DeviceManager : Type := mk_manager {
  registry : list (cb_kind * nat);  (* registered callbacks, by handle *)
  next_handle : nat;
  devices : list DeviceDescriptor
}.

(** [ids_peak.DeviceReconnectInformation] *)
Record DeviceReconnectInformation : Type := mk_info {
  IsSuccessful : bool;
  IsRemoteDeviceAcquisitionRunning : bool;
  IsRemoteDeviceConfigurationRestored : bool
}.

(** What an SDK call can raise: one of the SDK's own exceptions (all of
    them derive from [Exception]), or the [KeyboardInterrupt] Python
    delivers when the user presses Ctrl+C during the call. *)
Inductive peak_class : Type := PkAborted | PkTimeout | PkOther.

Inductive sdk_raise : Type :=
| SdkError (c : peak_class) (msg : string)
| UserInterrupt.

Definition class_of_peak (c : peak_class) : pyclass :=
  match c with
  | PkAborted => AbortedException
  | PkTimeout => TimeoutException
  | PkOther => PeakException
  end.

Definition exn_of (r : sdk_raise) : pyexn :=
  match r with
  | SdkError c msg => mk_exn (class_of_peak c) msg
  | UserInterrupt => mk_exn KeyboardInterrupt ""
  end.

(** What [WaitForFinishedBuffer(INFINITE_TIMEOUT)] does on one call. *)
Inductive wait_outcome : Type :=
| Finished (buffer : nat) (frame_id : Z)
| WaitRaises (r : sdk_raise).

(** ** The object [IDSCam] *)

Record IDSCam : Type := mk_cam {
  acquisition_running : bool;
  device : option DeviceDescriptor;
  remote_nodemap : bool;            (* is not None *)
  data_stream : bool;               (* is not None *)
  device_found_callback_handle : option nat;
  device_lost_callback_handle : option nat;
  device_reconnected_callback_handle : option nat;
  device_disconnected_callback_handle : option nat
}.

(** ** The world the script runs in *)

Record World : Type := mk_world {
  cam : IDSCam;
  library_open : bool;
  manager : DeviceManager;
  reconnect_enable : option (access_status * bool);  (* system node *)
  nodemap : NodeMap;
  stream : DataStream;
  (* the environment: what the next SDK calls and the next waits do *)
  sdk_faults : list (option sdk_raise);
  waits : list wait_outcome;
  (* what was printed, oldest first *)
  stdout : list string
}.

Definition with_cam (f : IDSCam -> IDSCam) (w : World) : World :=
  mk_world (f (cam w)) (library_open w) (manager w) (reconnect_enable w)
           (nodemap w) (stream w) (sdk_faults w) (waits w) (stdout w).
Definition with_library (b : bool) (w : World) : World :=
  mk_world (cam w) b (manager w) (reconnect_enable w)
           (nodemap w) (stream w) (sdk_faults w) (waits w) (stdout w).
Definition with_manager (f : DeviceManager -> DeviceManager) (w : World) : World :=
  mk_world (cam w) (library_open w) (f (manager w)) (reconnect_enable w)
           (nodemap w) (stream w) (sdk_faults w) (waits w) (stdout w).
Definition with_reconnect_enable (v : option (access_status * bool)) (w : World) : World :=
  mk_world (cam w) (library_open w) (manager w) v
           (nodemap w) (stream w) (sdk_faults w) (waits w) (stdout w).
Definition with_nodemap (f : NodeMap -> NodeMap) (w : World) : World :=
  mk_world (cam w) (library_open w) (manager w) (reconnect_enable w)
           (f (nodemap w)) (stream w) (sdk_faults w) (waits w) (stdout w).
Definition with_stream (f : DataStream -> DataStream) (w : World) : World :=
  mk_world (cam w) (library_open w) (manager w) (reconnect_enable w)
           (nodemap w) (f (stream w)) (sdk_faults w) (waits w) (stdout w).
Definition with_faults (fs : list (option sdk_raise)) (w : World) : World :=
  mk_world (cam w) (library_open w) (manager w) (reconnect_enable w)
           (nodemap w) (stream w) fs (waits w) (stdout w).
Definition with_waits (ws : list wait_outcome) (w : World) : World :=
  mk_world (cam w) (library_open w) (manager w) (reconnect_enable w)
           (nodemap w) (stream w) (sdk_faults w) ws (stdout w).
Definition with_stdout (f : list string -> list string) (w : World) : World :=
  mk_world (cam w) (library_open w) (manager w) (reconnect_enable w)
           (nodemap w) (stream w) (sdk_faults w) (waits w) (f (stdout w)).

Definition IDS : Type -> Type := M World.

(** [print(line)] *)
Definition print (line : string) : IDS unit :=
  modify (with_stdout (fun out => out ++ [line])).

(** An SDK call on a device, node or stream: the environment decides
    whether it is served or raises; a call that raises changes nothing. *)
Definition sdk {A} (serve : World -> A * World) : IDS A :=
  fun w =>
    match sdk_faults w with
    | Some r :: fs => (Raise (exn_of r), with_faults fs w)
    | None :: fs => let (a, w') := serve (with_faults fs w) in (Ok a, w')
    | [] => let (a, w') := serve w in (Ok a, w')
    end.

Definition sdk_read {A} (f : World -> A) : IDS A := sdk (fun w => (f w, w)).
Definition sdk_write (f : World -> World) : IDS unit := sdk (fun w => (tt, f w)).

(** [self.remote_nodemap.<...>] and [self.data_stream.<...>] on an object
    whose attribute is still [None]. *)
Definition attribute_error (attr : string) : pyexn :=
  mk_exn AttributeError ("'NoneType' object has no attribute '" ++ attr ++ "'")%string.

Definition the_nodemap (attr : string) : IDS unit :=
  w <- gets cam ;;
  if remote_nodemap w then ret tt else raise (attribute_error attr).

Definition the_stream (attr : string) : IDS unit :=
  w <- gets cam ;;
  if data_stream w then ret tt else raise (attribute_error attr).

(** *** Data stream *)

Definition log_call (op : stream_op) (s : DataStream) : DataStream :=
  mk_stream (announced s) (queued s) (grabbing s) (min_required s)
            (next_buffer s) (call_log s ++ [(op, grabbing s)]).

Definition set_grabbing (b : bool) (s : DataStream) : DataStream :=
  mk_stream (announced s) (queued s) b (min_required s)
            (next_buffer s) (call_log s).

Definition set_pool (bs : list Buffer) (q : list nat) (s : DataStream) : DataStream :=
  mk_stream bs q (grabbing s) (min_required s) (next_buffer s) (call_log s).

Definition bump_next (s : DataStream) : DataStream :=
  mk_stream (announced s) (queued s) (grabbing s) (min_required s)
            (S (next_buffer s)) (call_log s).

Definition stream_IsGrabbing : IDS bool :=
  the_stream "IsGrabbing" ;; sdk_read (fun w => grabbing (stream w)).

Definition stream_StartAcquisition : IDS unit :=
  the_stream "StartAcquisition" ;;
  sdk_write (with_stream (fun s => set_grabbing true (log_call StartAcquisition s))).

Definition stream_StopAcquisition : IDS unit :=
  the_stream "StopAcquisition" ;;
  sdk_write (with_stream (fun s => set_grabbing false (log_call StopAcquisition s))).

(** A copy of the list of announced buffers. *)
Definition stream_AnnouncedBuffers : IDS (list Buffer) :=
  the_stream "AnnouncedBuffers" ;; sdk_read (fun w => announced (stream w)).

Definition stream_NumBuffersAnnouncedMinRequired : IDS nat :=
  the_stream "NumBuffersAnnouncedMinRequired" ;;
  sdk_read (fun w => min_required (stream w)).

(** [Flush(DataStreamFlushMode_DiscardAll)]: every queue is emptied, the
    buffers stay announced. *)
Definition stream_Flush : IDS unit :=
  the_stream "Flush" ;;
  sdk_write (with_stream (fun s =>
    set_pool (announced s) [] (log_call Flush s))).

Definition stream_RevokeBuffer (b : Buffer) : IDS unit :=
  the_stream "RevokeBuffer" ;;
  sdk_write (with_stream (fun s =>
    let s := log_call (RevokeBuffer (buf_id b)) s in
    set_pool (filter (fun x => negb (Nat.eqb (buf_id x) (buf_id b))) (announced s))
             (filter (fun i => negb (Nat.eqb i (buf_id b))) (queued s)) s)).

Definition stream_AllocAndAnnounceBuffer (size : Z) : IDS Buffer :=
  the_stream "AllocAndAnnounceBuffer" ;;
  sdk (fun w =>
    let b := mk_buffer (next_buffer (stream w)) size in
    (b, with_stream (fun s =>
          let s := log_call (AllocAndAnnounceBuffer size) s in
          bump_next (set_pool (announced s ++ [b]) (queued s) s)) w)).

Definition stream_QueueBuffer (b : nat) : IDS unit :=
  the_stream "QueueBuffer" ;;
  sdk_write (with_stream (fun s =>
    let s := log_call (QueueBuffer b) s in
    set_pool (announced s) (queued s ++ [b]) s)).

(** [WaitForFinishedBuffer(INFINITE_TIMEOUT)]: served from [waits]; with
    nothing left to deliver the call blocks for ever. *)
Definition stream_WaitForFinishedBuffer : IDS (nat * Z) :=
  the_stream "WaitForFinishedBuffer" ;;
  fun w =>
    match waits w with
    | [] => (Hang, w)
    | Finished b fid :: ws =>
        (Ok (b, fid),
         with_stream (fun s =>
           set_pool (announced s) (filter (fun i => negb (Nat.eqb i b)) (queued s)) s)
           (with_waits ws w))
    | WaitRaises r :: ws => (Raise (exn_of r), with_waits ws w)
    end.

(** *** Remote node map *)

Definition set_payload_size (v : Z) (n : NodeMap) : NodeMap :=
  mk_nodemap v (tl_params_locked n) (exposure_time n) (user_set_selector n) (executed n).
Definition set_tl_params_locked (v : Z) (n : NodeMap) : NodeMap :=
  mk_nodemap (payload_size n) v (exposure_time n) (user_set_selector n) (executed n).
Definition set_exposure_time (v : Z) (n : NodeMap) : NodeMap :=
  mk_nodemap (payload_size n) (tl_params_locked n) v (user_set_selector n) (executed n).
Definition set_user_set_selector (v : string) (n : NodeMap) : NodeMap :=
  mk_nodemap (payload_size n) (tl_params_locked n) (exposure_time n) v (executed n).
Definition add_executed (c : string) (n : NodeMap) : NodeMap :=
  mk_nodemap (payload_size n) (tl_params_locked n) (exposure_time n)
             (user_set_selector n) (executed n ++ [c]).

(** [FindNode("PayloadSize").Value()] *)
Definition node_PayloadSize : IDS Z :=
  the_nodemap "FindNode" ;; sdk_read (fun w => payload_size (nodemap w)).

(** [FindNode("TLParamsLocked").SetValue(v)] *)
Definition node_set_TLParamsLocked (v : Z) : IDS unit :=
  the_nodemap "FindNode" ;; sdk_write (with_nodemap (set_tl_params_locked v)).

(** [FindNode("ExposureTime").SetValue(v)] *)
Definition node_set_ExposureTime (v : Z) : IDS unit :=
  the_nodemap "FindNode" ;; sdk_write (with_nodemap (set_exposure_time v)).

(** [FindNode("UserSetSelector").SetCurrentEntry(v)] *)
Definition node_set_UserSetSelector (v : string) : IDS unit :=
  the_nodemap "FindNode" ;; sdk_write (with_nodemap (set_user_set_selector v)).

(** [FindNode(command).Execute()] *)
Definition node_Execute (command : string) : IDS unit :=
  the_nodemap "FindNode" ;; sdk_write (with_nodemap (add_executed command)).

(** [FindNode(command).WaitUntilDone()] *)
Definition node_WaitUntilDone (command : string) : IDS unit :=
  the_nodemap "FindNode" ;; sdk_write (fun w => w).

(** *** Device manager and library: these calls are always served *)

Definition register (k : cb_kind) : IDS nat :=
  fun w =>
    let h := next_handle (manager w) in
    (Ok h, with_manager (fun m =>
             mk_manager (registry m ++ [(k, h)]) (S (next_handle m)) (devices m)) w).

Definition unregister (k : cb_kind) (h : nat) : IDS unit :=
  modify (with_manager (fun m =>
    mk_manager
      (filter (fun e => negb (cb_kind_eqb (fst e) k && Nat.eqb (snd e) h)) (registry m))
      (next_handle m) (devices m))).

Definition Library_Initialize : IDS unit := modify (with_library true).
Definition Library_Close : IDS unit := modify (with_library false).

(** ** The methods of [IDSCam] *)

Definition nl : string := String (Ascii.ascii_of_nat 10) "".

Definition str_bool (b : bool) : string := if b then "True" else "False".

Definition set_acquisition_running (b : bool) (c : IDSCam) : IDSCam :=
  mk_cam b (device c) (remote_nodemap c) (data_stream c)
         (device_found_callback_handle c) (device_lost_callback_handle c)
         (device_reconnected_callback_handle c)
         (device_disconnected_callback_handle c).

Definition set_device (d : option DeviceDescriptor) (c : IDSCam) : IDSCam :=
  mk_cam (acquisition_running c) d (remote_nodemap c) (data_stream c)
         (device_found_callback_handle c) (device_lost_callback_handle c)
         (device_reconnected_callback_handle c)
         (device_disconnected_callback_handle c).

Definition set_remote_nodemap (b : bool) (c : IDSCam) : IDSCam :=
  mk_cam (acquisition_running c) (device c) b (data_stream c)
         (device_found_callback_handle c) (device_lost_callback_handle c)
         (device_reconnected_callback_handle c)
         (device_disconnected_callback_handle c).

Definition set_data_stream (b : bool) (c : IDSCam) : IDSCam :=
  mk_cam (acquisition_running c) (device c) (remote_nodemap c) b
         (device_found_callback_handle c) (device_lost_callback_handle c)
         (device_reconnected_callback_handle c)
         (device_disconnected_callback_handle c).

Definition set_handle (k : cb_kind) (h : nat) (c : IDSCam) : IDSCam :=
  mk_cam (acquisition_running c) (device c) (remote_nodemap c) (data_stream c)
         (match k with CbFound => Some h | _ => device_found_callback_handle c end)
         (match k with CbLost => Some h | _ => device_lost_callback_handle c end)
         (match k with CbReconnected => Some h
                     | _ => device_reconnected_callback_handle c end)
         (match k with CbDisconnected => Some h
                     | _ => device_disconnected_callback_handle c end).

Definition handle_of (k : cb_kind) (c : IDSCam) : option nat :=
  match k with
  | CbFound => device_found_callback_handle c
  | CbLost => device_lost_callback_handle c
  | CbReconnected => device_reconnected_callback_handle c
  | CbDisconnected => device_disconnected_callback_handle c
  end.

(** [device_found] *)
Definition device_found (d : DeviceDescriptor) : IDS unit :=
  print ("Found-Device-Callback: Key=" ++ dev_key d)%string.

(** [device_lost] *)
Definition device_lost (key : string) : IDS unit :=
  print ("Lost-Device-Callback: Key=" ++ key)%string.

(** [device_disconnected] *)
Definition device_disconnected (d : DeviceDescriptor) : IDS unit :=
  print ("Disconnected-Callback: Key=" ++ dev_key d)%string.

(** [xs[0]] *)
Definition first_of {A} (xs : list A) : IDS A :=
  match xs with
  | x :: _ => ret x
  | [] => raise (mk_exn IndexError "list index out of range")
  end.

(** [revoke_buffers] *)
Definition revoke_buffers : IDS unit :=
  stream_Flush ;;
  buffers <- stream_AnnouncedBuffers ;;
  for_each buffers (fun buffer => stream_RevokeBuffer buffer).

(** [alloc_buffers] *)
Definition alloc_buffers : IDS unit :=
  payload_size <- node_PayloadSize ;;
  buffer_count_max <- stream_NumBuffersAnnouncedMinRequired ;;
  for_each (seq 0 buffer_count_max) (fun _ =>
    buffer <- stream_AllocAndAnnounceBuffer payload_size ;;
    stream_QueueBuffer (buf_id buffer)).

(** [ensure_compatible_buffers_and_restart_acquisition] *)
Definition ensure_compatible_buffers_and_restart_acquisition
    (reconnect_information : DeviceReconnectInformation) : IDS unit :=
  payload_size <- node_PayloadSize ;;
  buffers <- stream_AnnouncedBuffers ;;
  first <- first_of buffers ;;
  let has_payload_size_mismatch := negb (payload_size =? buf_size first)%Z in
  when has_payload_size_mismatch (
    print "PayloadSize has changed. Reallocating buffers..." ;;
    is_data_stream_running <- stream_IsGrabbing ;;
    when is_data_stream_running stream_StopAcquisition ;;
    revoke_buffers ;;
    alloc_buffers ;;
    when is_data_stream_running stream_StartAcquisition) ;;
  when (negb (IsRemoteDeviceAcquisitionRunning reconnect_information))
    (node_Execute "AcquisitionStart").

(** [device_reconnected] *)
Definition device_reconnected (d : DeviceDescriptor)
    (reconnect_information : DeviceReconnectInformation) : IDS unit :=
  print ("Device-Reconnected-Callback:" ++ nl ++
         "Key=" ++ dev_key d ++ nl ++
         "ReconnectSuccessful: " ++
           str_bool (IsSuccessful reconnect_information) ++ nl ++
         "RemoteDeviceAcquisitionRunning: " ++
           str_bool (IsRemoteDeviceAcquisitionRunning reconnect_information) ++ nl ++
         "RemoteDeviceConfigurationRestored: " ++
           str_bool (IsRemoteDeviceConfigurationRestored reconnect_information))%string ;;
  if IsSuccessful reconnect_information
  then ret tt
  else ensure_compatible_buffers_and_restart_acquisition reconnect_information.

(** [register_callbacks] *)
Definition register_callbacks : IDS unit :=
  h <- register CbFound ;; modify (with_cam (set_handle CbFound h)) ;;
  h <- register CbLost ;; modify (with_cam (set_handle CbLost h)) ;;
  h <- register CbReconnected ;; modify (with_cam (set_handle CbReconnected h)) ;;
  h <- register CbDisconnected ;; modify (with_cam (set_handle CbDisconnected h)).

(** [self.<kind>_callback_handle]; the attribute exists once
    [register_callbacks] has set it. *)
Definition the_handle (k : cb_kind) : IDS nat :=
  c <- gets cam ;;
  match handle_of k c with
  | Some h => ret h
  | None => raise (mk_exn AttributeError
                     "'IDSCam' object has no attribute of this callback handle")
  end.

(** [unregister_callbacks] *)
Definition unregister_callbacks : IDS unit :=
  h <- the_handle CbFound ;; unregister CbFound h ;;
  h <- the_handle CbLost ;; unregister CbLost h ;;
  h <- the_handle CbReconnected ;; unregister CbReconnected h ;;
  h <- the_handle CbDisconnected ;; unregister CbDisconnected h.

(** [__init__] *)
Definition IDSCam_init : IDS unit :=
  Library_Initialize ;;
  modify (with_cam (fun _ => mk_cam false None false false None None None None)) ;;
  register_callbacks.

(** What one turn of the [while] loop tells the loop to do. *)
Inductive ctl : Type := Continue | Break.

(** The [try] statement inside the [while] loop of
    [run_acquisition_loop]. *)
Definition loop_body : IDS ctl :=
  try_except
    (buffer <- stream_WaitForFinishedBuffer ;;
     print ("Received FrameID: " ++ str_Z (snd buffer))%string ;;
     stream_QueueBuffer (fst buffer) ;;
     ret Continue)
    [ ([KeyboardInterrupt],
       fun _ => print "Keyboard interrupt." ;; ret Break);
      ([Exception_],
       fun e => print ("Exception: " ++ str_exn e)%string ;; ret Continue) ].

(** [while self.acquisition_running: ...], for at most [fuel] turns. *)
Fixpoint while_acquisition_running (fuel : nat) : IDS unit :=
  match fuel with
  | O => hang
  | S fuel' =>
      running <- gets (fun w => acquisition_running (cam w)) ;;
      if running
      then c <- loop_body ;;
           match c with
           | Break => ret tt
           | Continue => while_acquisition_running fuel'
           end
      else ret tt
  end.

(** Every turn that gets past the wait uses up one entry of [waits], a
    wait with nothing left to deliver blocks for ever, and a turn that
    does not reach the wait repeats for ever: more turns than
    [S (length waits)] are never needed to know how the loop ends. *)
Definition loop_fuel (w : World) : nat := S (List.length (waits w)).

(** [run_acquisition_loop] *)
Definition run_acquisition_loop : IDS unit :=
  node_set_TLParamsLocked 1 ;;
  stream_StartAcquisition ;;
  node_Execute "AcquisitionStart" ;;
  node_WaitUntilDone "AcquisitionStart" ;;
  modify (with_cam (set_acquisition_running true)) ;;
  print "Starting acquisition..." ;;
  print "Now you can disconnect or reboot the device to trigger a reconnect!" ;;
  (fun w => while_acquisition_running (loop_fuel w) w) ;;
  print "Stopping acquisition..." ;;
  node_Execute "AcquisitionStop" ;;
  node_WaitUntilDone "AcquisitionStop" ;;
  stream_StopAcquisition ;;
  node_set_TLParamsLocked 0.

(** The [for] loop of [open_device]; [device] is the local variable. *)
Fixpoint open_openable (devs : list DeviceDescriptor)
    (device : option DeviceDescriptor) : IDS (option DeviceDescriptor) :=
  match devs with
  | [] => ret device
  | dev :: rest =>
      openable <- sdk_read (fun _ => dev_openable dev) ;;
      if openable
      then opened <- sdk_read (fun _ => dev) ;; open_openable rest (Some opened)
      else open_openable rest device
  end.

(** [open_device] *)
Definition open_device : IDS unit :=
  devs <- sdk_read (fun w => devices (manager w)) ;;
  device <- open_openable devs None ;;
  match device with
  | None => raise (mk_exn Exception_ "No device found. Exiting Program.")
  | Some d =>
      modify (with_cam (set_device (Some d))) ;;
      name <- sdk_read (fun _ => dev_display_name d) ;;
      print ("Using Device " ++ name)%string ;;
      sdk_write (with_cam (set_remote_nodemap true)) ;;
      sdk_write (with_cam (set_data_stream true))
  end.

(** [enable_reconnect]; [reconnect_enable] is the node [ReconnectEnable]
    of the system's node map, when it has one. *)
Definition enable_reconnect : IDS unit :=
  d <- gets (fun w => device (cam w)) ;;
  match d with
  | None => raise (attribute_error "ParentInterface")
  | Some _ =>
      system_node_map <- sdk_read reconnect_enable ;;
      has_node <- sdk_read (fun _ =>
                    match system_node_map with Some _ => true | None => false end) ;;
      if negb has_node
      then raise (mk_exn SystemExit "No ReconnectEnable Node found!")
      else
        reconnect_enable_node <- sdk_read reconnect_enable ;;
        reconnect_enable_access_status <-
          sdk_read (fun _ => match reconnect_enable_node with
                             | Some (status, _) => status
                             | None => NoAccess
                             end) ;;
        match reconnect_enable_access_status with
        | ReadWrite => sdk_write (with_reconnect_enable (Some (ReadWrite, true)))
        | ReadOnly =>
            value <- sdk_read (fun w => match reconnect_enable w with
                                        | Some (_, v) => v
                                        | None => false
                                        end) ;;
            if value then ret tt
            else raise (mk_exn SystemExit
                          "Error: ReconnectEnable cannot be set to true!")
        | NoAccess => raise (mk_exn SystemExit
                               "Error: ReconnectEnable cannot be set to true!")
        end
  end.

(** [load_defaults] *)
Definition load_defaults : IDS unit :=
  node_set_UserSetSelector "Default" ;;
  node_Execute "UserSetLoad" ;;
  node_WaitUntilDone "UserSetLoad".

(** [ids_peak.DeviceManager.Instance().Update()]: the devices present are
    reported to the registered found-callback. *)
Definition manager_Update : IDS unit :=
  devs <- sdk_read (fun w => devices (manager w)) ;;
  found <- gets (fun w => existsb (fun e => cb_kind_eqb (fst e) CbFound)
                                  (registry (manager w))) ;;
  when found (for_each devs device_found).

(** The body of the [try] statement of [run]; falling off its end is
    returning [None]. *)
Definition run_try_body : IDS (option Z) :=
  manager_Update ;;
  open_device ;;
  enable_reconnect ;;
  load_defaults ;;
  let exposure_time := 50%Z in
  node_set_ExposureTime exposure_time ;;
  alloc_buffers ;;
  run_acquisition_loop ;;
  revoke_buffers ;;
  ret None.

(** The two [except] clauses of [run]. *)
Definition run_handlers : list (clause (S:=World) (option Z)) :=
  [ ([AbortedException], fun _ => print "Aborted" ;; ret None);
    ([Exception_],
     fun e => print ("EXCEPTION: " ++ str_exn e)%string ;; ret (Some (-2)%Z)) ].

(** The [finally] block of [run]. *)
Definition run_finally : IDS unit :=
  unregister_callbacks ;; Library_Close.

(** [run]; the value is what the method returns ([None] or [-2]). *)
Definition run : IDS (option Z) :=
  try_finally (try_except run_try_body run_handlers) run_finally.

(** The [if __name__ == '__main__':] block: the value [run] returns is
    dropped. *)
Definition script : IDS unit :=
  IDSCam_init ;;
  _ <- run ;;
  ret tt.

(** How the interpreter process ends after the script. *)
Inductive termination : Type :=
| Exits (code : Z)
| Interrupted
| NeverExits.

(** CPython: falling off the end of the script exits with 0; an uncaught
    [SystemExit] carrying a message, like any other uncaught exception,
    exits with 1 after printing to stderr; an uncaught
    [KeyboardInterrupt] ends the process as interrupted. *)
Definition exit_of {A} (o : outcome A) : termination :=
  match o with
  | Ok _ => Exits 0
  | Raise e => if isinstance e KeyboardInterrupt then Interrupted else Exits 1
  | Hang => NeverExits
  end.

Definition process_exit (w : World) : termination := exit_of (fst (script w)).

(** ** Sample worlds *)

Definition sample_device : DeviceDescriptor := mk_descriptor "1409f4a1b2c3" "U3-3040CP" true.

(** A reconnect that did not fully succeed: the device rebooted. *)
Definition partial_failure : DeviceReconnectInformation := mk_info false false false.

(** A reconnect after which nothing is left to do. *)
Definition full_success : DeviceReconnectInformation := mk_info true true true.

Definition opened_cam : IDSCam :=
  mk_cam true (Some sample_device) true true (Some 0) (Some 1) (Some 2) (Some 3).

(** An open device that is acquiring with three buffers of 100 bytes,
    while the device now reports a payload size of 200 bytes. *)
Definition stale_world : World :=
  mk_world opened_cam true
    (mk_manager [(CbFound, 0); (CbLost, 1); (CbReconnected, 2); (CbDisconnected, 3)]
                4 [sample_device])
    (Some (ReadWrite, true))
    (mk_nodemap 200 1 50 "Default" ["UserSetLoad"; "AcquisitionStart"])
    (mk_stream [mk_buffer 0 100; mk_buffer 1 100; mk_buffer 2 100] [0; 1; 2]
               true 3 3 [])
    [] [] [].

(** A freshly started interpreter: nothing is initialised, one camera is
    attached, and the user interrupts the third wait. *)
Definition fresh_world : World :=
  mk_world (mk_cam false None false false None None None None) false
    (mk_manager [] 0 [sample_device])
    (Some (ReadWrite, false))
    (mk_nodemap 100 0 0 "" [])
    (mk_stream [] [] false 3 0 [])
    []
    [Finished 0 1; WaitRaises (SdkError PkTimeout "timeout"); WaitRaises UserInterrupt]
    [].

(** As [fresh_world], with no camera attached. *)
Definition no_camera_world : World :=
  with_manager (fun m => mk_manager (registry m) (next_handle m) []) fresh_world.

(** The world after [IDSCam()] in [fresh_world]. *)
Definition constructed_world : World := snd (IDSCam_init fresh_world).

(** As [constructed_world]; the sixth SDK call is aborted. *)
Definition aborting_world : World :=
  with_faults [None; None; None; None; None; Some (SdkError PkAborted "aborted")]
              constructed_world.

(** As [constructed_world]; the user interrupts the first SDK call. *)
Definition interrupted_world : World :=
  with_faults [Some UserInterrupt] constructed_world.

(** As [constructed_world], with no camera attached. *)
Definition constructed_no_camera_world : World := snd (IDSCam_init no_camera_world).

(** ** Predicates on worlds used by the properties *)

(** No SDK call still to come is made to raise. *)
Definition quiet (w : World) : Prop :=
  Forall (fun f => f = None) (sdk_faults w).

(** The faults left after a call that was served. *)
Definition rest_of (w : World) (fs : list (option sdk_raise)) : Prop :=
  sdk_faults w = fs \/ sdk_faults w = None :: fs.

(** The device is open (node map and data stream are set) and the SDK
    serves every call. *)
Definition ready (w : World) : Prop :=
  remote_nodemap (cam w) = true /\ data_stream (cam w) = true /\ quiet w.

(** Triples are proved in two readings at once.  In the strict one the
    world is [ready] and the code must return; in the lax one nothing is
    assumed and nothing is said about a run that raises or hangs. *)
Definition guard (strict : bool) (w : World) : Prop := strict = true -> ready w.
Definition exc (strict : bool) (w : World) : Prop := strict = false.

(** The pool, the grabbing flag, the payload size of the device and the
    minimum number of buffers the stream requires. *)
Definition pool_state (pool_ok : list Buffer -> Prop) (g : bool) (p : Z) (n : nat)
    (w : World) : Prop :=
  pool_ok (announced (stream w)) /\ grabbing (stream w) = g /\
  payload_size (nodemap w) = p /\ min_required (stream w) = n.

Definition recov (strict : bool) (pool_ok : list Buffer -> Prop)
    (g : bool) (p : Z) (n : nat) (w : World) : Prop :=
  guard strict w /\ pool_state pool_ok g p n w.

(** A logged call is in order when it did not touch the pool while the
    stream was grabbing. *)
Definition in_order (ev : stream_op * bool) : Prop :=
  mutates_pool (fst ev) = true -> snd ev = false.

(** What a served call does to the grabbing flag. *)
Definition after (op : stream_op) (g : bool) : bool :=
  match op with
  | StartAcquisition => true
  | StopAcquisition => false
  | _ => g
  end.

(** The grabbing flag after the calls [evs], from the flag [g]. *)
Fixpoint replay (g : bool) (evs : list (stream_op * bool)) : bool :=
  match evs with
  | [] => g
  | (op, _) :: evs' => replay (after op g) evs'
  end.

(** Every logged flag is the flag the calls before it left. *)
Fixpoint truthful (g : bool) (evs : list (stream_op * bool)) : Prop :=
  match evs with
  | [] => True
  | (op, b) :: evs' => b = g /\ truthful (after op g) evs'
  end.

(** What is known of the present grabbing flag. *)
Definition holds (now : option bool) (b : bool) : Prop :=
  match now with Some x => b = x | None => True end.

(** Since the log was [log0] and the flag [g0], only calls in order were
    logged, each with the flag it met; [now] is what is known of the
    present flag. *)
Definition logged (log0 : list (stream_op * bool)) (g0 : bool) (now : option bool)
    (w : World) : Prop :=
  exists evs,
    call_log (stream w) = log0 ++ evs /\ Forall in_order evs /\
    truthful g0 evs /\ grabbing (stream w) = replay g0 evs /\
    holds now (grabbing (stream w)).

(** The four callback handles the object stores. *)
Definition handles (c : IDSCam) : option nat * option nat * option nat * option nat :=
  (device_found_callback_handle c, device_lost_callback_handle c,
   device_reconnected_callback_handle c, device_disconnected_callback_handle c).

Definition same_handles (hs : option nat * option nat * option nat * option nat)
    (w : World) : Prop :=
  handles (cam w) = hs.

(** [register_callbacks] has stored its four handles. *)
Definition constructed (w : World) : Prop :=
  forall k, handle_of k (cam w) <> None.

(** A world in which the acquisition is running and the next two waits
    raise: a timeout of the SDK, then the interrupt of the user. *)
Definition waiting_world : World :=
  with_waits [WaitRaises (SdkError PkTimeout "timeout"); WaitRaises UserInterrupt]
             stale_world.

(** None of the four callback handles of the object is registered. *)
Definition unregistered (w : World) : Prop :=
  forall k h, handle_of k (cam w) = Some h -> ~ In (k, h) (registry (manager w)).

End RecordFrames.

(* ===================================================================== *)
(** * main.py: the steps of the capture orchestrator *)
(* ===================================================================== *)

Module Orchestrator.

Definition command : Type := list string.

(** [subprocess.CompletedProcess], with [capture_output=True, text=True]. *)
Record CompletedProcess : Type := mk_completed {
  returncode : Z;
  proc_stdout : string;
  proc_stderr : string
}.

(** What one [subprocess.run(...)] does: the child ran and exited, or the
    call itself raised (the program could not be started, the user
    interrupted it). *)
Inductive run_result : Type :=
| Completed (p : CompletedProcess)
| RunRaises (e : pyexn).

(** What the orchestrator does to the outside. *)
Inductive action : Type :=
| Subprocess (cmd : command)
| RecordHsi (n_lines : Z) (cube_save_dir : string).

(** The environment: what the [n]-th action of the run does when it is a
    subprocess call, and what the in-process hyperspectral capture
    raises, if anything. *)
Record Env : Type := mk_env {
  subprocess_result : nat -> command -> run_result;
  record_hsi_raises : option pyexn
}.

Record State : Type := mk_state {
  actions : list action;           (* oldest first *)
  printed : list string            (* oldest first *)
}.

Definition Orc : Type -> Type := M State.

Definition print (line : string) : Orc unit :=
  modify (fun s => mk_state (actions s) (printed s ++ [line])).

Definition act (a : action) : Orc unit :=
  modify (fun s => mk_state (actions s ++ [a]) (printed s)).

(** [subprocess.run(cmd, capture_output=True, text=True)] *)
Definition subprocess_run (env : Env) (cmd : command) : Orc CompletedProcess :=
  n <- gets (fun s => List.length (actions s)) ;;
  act (Subprocess cmd) ;;
  match subprocess_result env n cmd with
  | Completed p => ret p
  | RunRaises e => raise e
  end.

(** [os.path.join(a, b)] for the relative names the script joins. *)
Definition path_join (a b : string) : string := (a ++ "/" ++ b)%string.

(** *** The constants of the script *)

Definition n_lines : Z := 500.
Definition fps_stereo : Z := 5.

Definition func_path_record : string :=
  "/home/ubuntu/VSCodeProjects/uw-openhsi/uw-openhsi/zed/record_svo.py".
Definition func_path_pose_post : string :=
  "/home/ubuntu/VSCodeProjects/uw-openhsi/uw-openhsi/zed/position_post.py".
Definition func_path_export : string :=
  "/home/ubuntu/VSCodeProjects/uw-openhsi/uw-openhsi/zed/export_svo_images_or_vid.py".
Definition func_mesh_post : string :=
  "/home/ubuntu/VSCodeProjects/uw-openhsi/uw-openhsi/zed/mesh_post.py".

Definition capture_path : string := path_join "captured_data" "black_white_lines".
Definition output_svo_file : string := path_join capture_path "recording.svo2".
Definition output_pose_file : string := path_join capture_path "pose.csv".
Definition output_path_dir : string := path_join capture_path "png_dir".
Definition output_dir_hsi : string := path_join capture_path "hsi_dir".
Definition output_mesh_file : string := path_join capture_path "mesh_file.obj".

(** [time_stop_zed] is [str(time.time() + 20)], a value of the run. *)
Definition command_record (time_stop_zed : string) : command :=
  ["python"; func_path_record; "--output_svo_file"; output_svo_file;
   "--fps"; str_Z fps_stereo; "--time_stop_zed"; time_stop_zed].
Definition command_export : command :=
  ["python"; func_path_export; "--input_svo_file"; output_svo_file;
   "--output_path_dir"; output_path_dir].
Definition command_pose_post : command :=
  ["python"; func_path_pose_post; "--input_svo_file"; output_svo_file;
   "--output_pose_file"; output_pose_file].
Definition command_mesh_post : command :=
  ["python"; func_mesh_post; "--input_svo_file"; output_svo_file;
   "--output_mesh_file"; output_mesh_file].

(** The table of steps to run. *)
Record process_table : Type := mk_table {
  record : bool;
  record_svo_on : bool;
  record_hsi_on : bool;
  pose_post : bool;
  export : bool;
  mesh_post : bool
}.

(** The table as the script has it. *)
Definition process_dict : process_table :=
  mk_table true false true false false false.

(** *** The functions and blocks of the script *)

(** [record_hsi]: the capture itself happens inside the openhsi library. *)
Definition record_hsi (env : Env) (lines : Z) (cube_save_dir : string) : Orc unit :=
  act (RecordHsi lines cube_save_dir) ;;
  match record_hsi_raises env with
  | None => ret tt
  | Some e => raise e
  end.

(** The [if result.returncode == 0: ... else: ...] every block has. *)
Definition report (ok_line fail_line : string) (result : CompletedProcess) : Orc unit :=
  if (returncode result =? 0)%Z
  then print ok_line ;; print (proc_stdout result)
  else print fail_line ;; print (proc_stderr result).

(** [record_svo]; the local variable [result] is unbound when the inner
    handler has caught a [KeyboardInterrupt]. *)
Definition record_svo (env : Env) (svo_file : string) (cmd : command) : Orc unit :=
  print ("######################### RECORDING SVO FILE " ++ svo_file ++
         " #########################")%string ;;
  try_except
    (result <- try_except
                 (r <- subprocess_run env cmd ;; ret (Some r))
                 [ ([KeyboardInterrupt],
                    fun _ => print "Timeout reached. Stopping the command." ;;
                             ret None) ] ;;
     match result with
     | Some r => report "Recording execution successful!"
                        "Recording execution failed." r
     | None =>
         raise (mk_exn UnboundLocalError
                  "cannot access local variable 'result' where it is not associated with a value")
     end)
    [ ([CalledProcessError; NameError],
       fun e => print ("Error occurred while calling record_svo.py: "
                       ++ str_exn e)%string) ].

(** [p = Process(target=f, ...); p.start(); p.join()]: [f] runs in a
    child of the orchestrator; an exception that ends the child does not
    reach the parent. *)
Definition in_child_process (target : Orc unit) : Orc unit :=
  fun s => match target s with
           | (Hang, s') => (Hang, s')
           | (_, s') => (Ok tt, s')
           end.

(** One [try: result = subprocess.run(...) ... except CalledProcessError]
    block. *)
Definition step_block (env : Env) (cmd : command) (ok_line fail_line : string)
  : Orc unit :=
  try_except
    (result <- subprocess_run env cmd ;;
     report ok_line fail_line result)
    [ ([CalledProcessError],
       fun e => print ("Error occurred while calling position_post.py "
                       ++ str_exn e)%string) ].

Definition export_block (env : Env) : Orc unit :=
  step_block env command_export
    "Pose estimation execution successful!" "Pose estimateion execution failed.".

Definition pose_post_block (env : Env) : Orc unit :=
  print ("######################### Pose estimation from SVO FILE "
         ++ output_svo_file ++ " #########################")%string ;;
  step_block env command_pose_post
    "Pose estimation execution successful!" "Pose estimateion execution failed.".

Definition mesh_post_block (env : Env) : Orc unit :=
  step_block env command_mesh_post
    "Mesh estimation execution successful!" "Mesh estimation execution failed.".

(** The part of the script from [## Real time] to its end, for a table
    [d]. *)
Definition steps (d : process_table) (env : Env) (time_stop_zed : string) : Orc unit :=
  when (record d) (
    when (record_hsi_on d) (record_hsi env n_lines output_dir_hsi) ;;
    when (record_svo_on d)
      (in_child_process
         (record_svo env output_svo_file (command_record time_stop_zed)))) ;;
  when (export d) (export_block env) ;;
  when (pose_post d) (pose_post_block env) ;;
  when (mesh_post d) (mesh_post_block env) ;;
  when (mesh_post d) (mesh_post_block env).

Definition initial : State := mk_state [] [].

(** The subprocess commands among the actions, in order. *)
Definition subprocess_calls (s : State) : list command :=
  flat_map (fun a => match a with Subprocess c => [c] | RecordHsi _ _ => [] end)
           (actions s).

Fixpoint command_eqb (c d : command) : bool :=
  match c, d with
  | [], [] => true
  | x :: c', y :: d' => String.eqb x y && command_eqb c' d'
  | _, _ => false
  end.

(** How often [cmd] was passed to [subprocess.run]. *)
Definition times_invoked (cmd : command) (s : State) : nat :=
  List.length (filter (command_eqb cmd) (subprocess_calls s)).

(** The subprocess steps a table asks for, in the order of the script. *)
Definition configured (d : process_table) (time_stop_zed : string) : list command :=
  (if record d && record_svo_on d then [command_record time_stop_zed] else []) ++
  (if export d then [command_export] else []) ++
  (if pose_post d then [command_pose_post] else []) ++
  (if mesh_post d then [command_mesh_post; command_mesh_post] else []).

(** ** Predicates and samples used by the properties *)

(** Every child that exited with a nonzero code had its captured stderr
    printed. *)
Definition reported (env : Env) (s : State) : Prop :=
  forall i c p,
    nth_error (actions s) i = Some (Subprocess c) ->
    subprocess_result env i c = Completed p ->
    returncode p <> 0%Z ->
    In (proc_stderr p) (printed s).

Definition progress (env : Env) (done : list command) (s : State) : Prop :=
  reported env s /\ subprocess_calls s = done.

(** Every call of [subprocess.run] comes back with a completed process,
    whatever its exit code. *)
Definition children_exit (env : Env) : Prop :=
  forall n c, exists p, subprocess_result env n c = Completed p.

(** What a block prints about a completed child. *)
Definition lines (ok_line fail_line : string) (p : CompletedProcess) : list string :=
  if (returncode p =? 0)%Z then [ok_line; proc_stdout p] else [fail_line; proc_stderr p].

(** The exceptional postcondition of code that must return. *)
Definition never : State -> Prop := fun _ => False.

(** An environment in which every child fails with exit code 1. *)
Definition failing_env : Env :=
  mk_env (fun _ _ => Completed (mk_completed 1 "" "Traceback: camera not found")) None.

(** The table with every step switched on. *)
Definition all_steps : process_table := mk_table true true true true true true.

End Orchestrator.

(* ===================================================================== *)
(** * zed/position_post.py *)
(* ===================================================================== *)

Module PositionPost.

Section Floats.
(** Python floats, and [round(x, 3)] on them. *)
Variable float : Type.
Variable round3 : float -> float.

(** What [zed.get_position] fills in: the timestamp in milliseconds,
    the translation [x, y, z] and the orientation [x, y, z, w]. *)
Record Pose : Type := mk_pose {
  timestamp_ms : Z;
  translation : float * float * float;
  orientation : float * float * float * float
}.

(** One [zed.grab(runtime_parameters)]. *)
Inductive grab_result : Type :=
| GrabSuccess (p : Pose)
| GrabFailure.

(** The recording the camera object replays.  Once [grabs] is used up
    every further grab fails (the end of the file is reached). *)
Record Svo : Type := mk_svo {
  open_succeeds : bool;
  tracking_succeeds : bool;
  nb_frames : Z;                  (* get_svo_number_of_frames() *)
  grabs : list grab_result
}.

Inductive cell : Type :=
| CInt (z : Z)
| CFloat (x : float)
| CText (s : string).

(** A pandas data frame with a range index: its column labels and its
    rows in index order. *)
Record DataFrame : Type := mk_frame {
  columns : list string;
  rows : list (list cell)
}.

(** [pd.DataFrame(columns=[...], dtype=object)] *)
Definition pose_columns : list string :=
  ["Timestamp"; "Tx"; "Ty"; "Tz"; "Qx"; "Qy"; "Qz"; "Qw"].

Definition empty_frame : DataFrame := mk_frame pose_columns [].

(** The series [new_data] built from one pose. *)
Definition new_data (p : Pose) : list cell :=
  let '(x, y, z) := translation p in
  let '(ox, oy, oz, ow) := orientation p in
  let tx := round3 x in
  let ty := round3 y in
  let tz := round3 z in
  let qx := round3 ox in
  let qy := round3 oy in
  let qz := round3 oz in
  let qw := round3 ow in
  [CInt (timestamp_ms p); CFloat tx; CFloat ty; CFloat tz;
   CFloat qx; CFloat qy; CFloat qz; CFloat qw].

(** [pd.concat([df, new_data.to_frame().T], ignore_index=True)]; the
    labels of the series are the columns of [df]. *)
Definition concat_row (df : DataFrame) (row : list cell) : DataFrame :=
  mk_frame (columns df) (rows df ++ [row]).

(** The [while i < nb_frames:] loop; [i] advances only on a successful
    grab.  [None]: the loop is still running when the recording has
    nothing more to deliver, and then runs for ever. *)
Fixpoint grab_loop (gs : list grab_result) (i nb : Z) (df : DataFrame)
  : option DataFrame :=
  if (i <? nb)%Z then
    match gs with
    | [] => None
    | GrabSuccess p :: gs' => grab_loop gs' (i + 1)%Z nb (concat_row df (new_data p))
    | GrabFailure :: gs' => grab_loop gs' i nb df
    end
  else Some df.

(** The records of the file [df.to_csv(path)] writes, with the defaults
    [header=True, index=True]: a header whose first field, the label of
    the index, is empty, then one record per row, led by its index. *)
Fixpoint index_rows (i : Z) (rs : list (list cell)) : list (list cell) :=
  match rs with
  | [] => []
  | r :: rs' => (CInt i :: r) :: index_rows (i + 1)%Z rs'
  end.

Definition to_csv (df : DataFrame) : list (list cell) :=
  (CText "" :: map CText (columns df)) :: index_rows 0%Z (rows df).

Inductive result : Type :=
| Exit (code : Z)                         (* exit(code) *)
| Written (csv : list (list cell))        (* the file at output_pose_file *)
| NeverEnds.

(** [main] *)
Definition main (svo : Svo) : result :=
  if negb (open_succeeds svo) then Exit 1
  else if negb (tracking_succeeds svo) then Exit 0
  else
    match grab_loop (grabs svo) 0%Z (nb_frames svo) empty_frame with
    | Some df => Written (to_csv df)
    | None => NeverEnds
    end.

(** The poses of the successful grabs of a list of grabs, in order. *)
Definition successes (gs : list grab_result) : list Pose :=
  flat_map (fun g => match g with GrabSuccess p => [p] | GrabFailure => [] end) gs.

(** The header and the data records of a CSV. *)
Definition csv_header (csv : list (list cell)) : list cell :=
  match csv with h :: _ => h | [] => [] end.
Definition csv_records (csv : list (list cell)) : list (list cell) :=
  match csv with _ :: rs => rs | [] => [] end.
End Floats.

Arguments GrabFailure {float}.
Arguments CInt {float} z.
Arguments CText {float} s.
Arguments CFloat {float} x.
Arguments Exit {float} code.
Arguments Written {float} csv.
Arguments NeverEnds {float}.
Arguments GrabSuccess {float} p.
Arguments csv_header {float} csv.
Arguments csv_records {float} csv.
Arguments successes {float} gs.
Arguments to_csv {float} df.
Arguments mk_pose {float} timestamp_ms translation orientation.
Arguments timestamp_ms {float} p.
Arguments translation {float} p.
Arguments orientation {float} p.
Arguments mk_svo {float} open_succeeds tracking_succeeds nb_frames grabs.
Arguments open_succeeds {float} s.
Arguments tracking_succeeds {float} s.
Arguments nb_frames {float} s.
Arguments grabs {float} s.
Arguments mk_frame {float} columns rows.
Arguments columns {float} d.
Arguments rows {float} d.
Arguments empty_frame {float}.
Arguments new_data {float} round3 p.
Arguments concat_row {float} df row.
Arguments grab_loop {float} round3 gs i nb df.
Arguments index_rows {float} i rs.
Arguments main {float} round3 svo.

(** ** A sample recording *)

(** A recording of two frames whose second grab fails once before it
    succeeds.  The values of the poses play no role in what the sample is
    used for, so its floats carry no information. *)
Definition blank_pose (t : Z) : Pose unit := mk_pose t (tt, tt, tt) (tt, tt, tt, tt).

Definition sample_svo : Svo unit :=
  mk_svo true true 2
         [GrabSuccess (blank_pose 1730714420500); GrabFailure;
          GrabSuccess (blank_pose 1730714420700)].

End PositionPost.

(* ===================================================================== *)
(** * ids/record_frames.py: further predicates and sample worlds *)
(* ===================================================================== *)

Module RecordFramesProps.
Import RecordFrames.

(** The device manager hands out handles it has not handed out before. *)
Definition fresh_handles (w : World) : Prop :=
  Forall (fun e => snd e < next_handle (manager w)) (registry (manager w)).

(** [d] is the last device of [devs] that can be opened. *)
Definition last_openable (devs : list DeviceDescriptor) (d : DeviceDescriptor) : Prop :=
  exists before after,
    devs = before ++ d :: after /\
    dev_openable d = true /\
    Forall (fun x => dev_openable x = false) after.

(** Three cameras, the first two of which can be opened. *)
Definition first_camera : DeviceDescriptor := mk_descriptor "4103216958" "U3-3040CP-A" true.
Definition second_camera : DeviceDescriptor := mk_descriptor "4103216959" "U3-3040CP-B" true.
Definition busy_camera : DeviceDescriptor := mk_descriptor "4103216960" "U3-3040CP-C" false.

Definition three_camera_world : World :=
  with_manager (fun m => mk_manager (registry m) (next_handle m)
                                    [first_camera; second_camera; busy_camera])
               constructed_world.

(** A world whose only camera is in use by another program. *)
Definition busy_camera_world : World :=
  with_manager (fun m => mk_manager (registry m) (next_handle m) [busy_camera])
               constructed_world.

(** A device manager on which another object has two callbacks
    registered. *)
Definition shared_manager_world : World :=
  with_manager (fun m => mk_manager [(CbFound, 5); (CbLost, 7)] 9 (devices m))
               fresh_world.

(** As [stale_world], with the stream stopped and nothing executed on the
    device yet. *)
Definition ready_to_acquire_world : World :=
  with_waits [Finished 0 41; Finished 1 42; WaitRaises UserInterrupt]
    (with_stream (fun s => mk_stream (announced s) (queued s) false
                                     (min_required s) (next_buffer s) [])
       (with_nodemap (fun n => mk_nodemap 100 0 50 "Default" ["UserSetLoad"])
          stale_world)).

(** As [constructed_world], on a system that has no node
    ReconnectEnable. *)
Definition no_reconnect_world : World := with_reconnect_enable None constructed_world.

End RecordFramesProps.

(* ===================================================================== *)
(** * main.py and zed/position_post.py: further sample environments *)
(* ===================================================================== *)

Module OrchestratorProps.
Import Orchestrator.

(** The user presses Ctrl+C while a child runs. *)
Definition interrupting_env : Env :=
  mk_env (fun _ _ => RunRaises (mk_exn KeyboardInterrupt "")) None.

(** [python] cannot be started. *)
Definition missing_python_env : Env :=
  mk_env (fun _ _ => RunRaises (mk_exn OSError "[Errno 2] No such file or directory: 'python'"))
         None.

(** The hyperspectral capture fails; the children would all succeed. *)
Definition hsi_failing_env : Env :=
  mk_env (fun _ _ => Completed (mk_completed 0 "done" ""))
         (Some (mk_exn Exception_ "camera not found")).

(** Only the recording of the stereo camera is switched on. *)
Definition record_svo_only : process_table := mk_table true true false false false false.

(** Only the post-processing steps are switched on. *)
Definition post_only : process_table := mk_table false false false true true true.

End OrchestratorProps.

Module PositionPostProps.
Import PositionPost.

(** A recording that counts three frames and delivers two. *)
Definition short_svo : Svo unit :=
  mk_svo true true 3
         [GrabSuccess (blank_pose 1730714420500); GrabFailure;
          GrabSuccess (blank_pose 1730714420700)].

End PositionPostProps.

(* ===================================================================== *)
(** * main.py: patching the camera settings *)
(* ===================================================================== *)

Module ConfigPatch.

(** The keys of a Python dict as they occur here: the strings [json.load]
    produces, and the integer an index assignment on a dict would add. *)
Inductive key : Type :=
| KStr (s : string)
| KInt (z : Z).

Definition key_eqb (a b : key) : bool :=
  match a, b with
  | KStr s, KStr t => String.eqb s t
  | KInt x, KInt y => Z.eqb x y
  | _, _ => false
  end.

(** What goes wrong in the preamble of the script. *)
Inductive error : Type :=
| KeyError (k : key)
| ListIndexError               (* list assignment index out of range *)
| TypeError.

Section Floats.
(** Python floats. *)
Variable float : Type.

(** What [json.load] returns.  A dict keeps its items in the order in
    which the keys were first set. *)
#[warnings="-register-all"]
Inductive json : Type :=
| JNull
| JBool (b : bool)
| JInt (z : Z)
| JFloat (x : float)
| JStr (s : string)
| JList (l : list json)
| JDict (d : list (key * json)).

Definition dict : Type := list (key * json).

(** [d[k]], when the key is there. *)
Fixpoint getitem (d : dict) (k : key) : option json :=
  match d with
  | [] => None
  | (k', v) :: d' => if key_eqb k' k then Some v else getitem d' k
  end.

(** [d[k] = v]: the value of a key that is there is replaced in place, a
    new key is added at the end. *)
Fixpoint setitem (d : dict) (k : key) (v : json) : dict :=
  match d with
  | [] => [(k, v)]
  | (k', v') :: d' =>
      if key_eqb k' k then (k', v) :: d' else (k', v') :: setitem d' k v
  end.

(** [x[0] = v] on the object [x]. *)
Definition set_index0 (x v : json) : error + json :=
  match x with
  | JList (_ :: rest) => inr (JList (v :: rest))
  | JList [] => inl ListIndexError
  | JDict d => inr (JDict (setitem d (KInt 0) v))
  | _ => inl TypeError
  end.

Definition row_start : Z := 333.
Definition row_width : Z := 550.

(** The statements between [json.load] and [json.dump]; [exposure_ms] is
    the float [1e3/fps_hsi]. *)
Definition patch (exposure_ms : float) (data : json) : error + json :=
  match data with
  | JDict d =>
      let d := setitem d (KStr "pixel_format") (JStr "Mono8") in
      let d := setitem d (KStr "exposure_ms") (JFloat exposure_ms) in
      let d := setitem d (KStr "win_offset") (JList [JInt 0; JInt row_start]) in
      let d := setitem d (KStr "win_resolution") (JList [JInt 1936; JInt row_width]) in
      match getitem d (KStr "resolution") with
      | None => inl (KeyError (KStr "resolution"))
      | Some resolution =>
          match set_index0 resolution (JInt 552) with
          | inl e => inl e
          | inr resolution' => inr (JDict (setitem d (KStr "resolution") resolution'))
          end
      end
  | _ => inl TypeError
  end.

(** The keys the preamble sets. *)
Definition patched_keys : list key :=
  [KStr "pixel_format"; KStr "exposure_ms"; KStr "win_offset"; KStr "win_resolution";
   KStr "resolution"].
End Floats.

Arguments JNull {float}.
Arguments JBool {float} b.
Arguments JInt {float} z.
Arguments JFloat {float} x.
Arguments JStr {float} s.
Arguments JList {float} l.
Arguments JDict {float} d.
Arguments getitem {float} d k.
Arguments setitem {float} d k v.
Arguments set_index0 {float} x v.
Arguments patch {float} exposure_ms data.

(** A settings file as the camera library ships it.  For the examples a
    float is written as its number of microseconds. *)
Definition shipped_settings : json Z :=
  JDict [(KStr "binxy", JList [JInt 1; JInt 1]);
         (KStr "win_offset", JList [JInt 0; JInt 0]);
         (KStr "win_resolution", JList [JInt 1936; JInt 1216]);
         (KStr "exposure_ms", JFloat 10000%Z);
         (KStr "pixel_format", JStr "Mono12");
         (KStr "resolution", JList [JInt 1216; JInt 1936]);
         (KStr "luminance", JInt 10000)].

(** A settings file without the key [resolution]. *)
Definition settings_without_resolution : json Z :=
  JDict [(KStr "exposure_ms", JFloat 10000%Z); (KStr "pixel_format", JStr "Mono12")].

(** [1e3/fps_hsi] with [fps_hsi = 135]. *)
Definition exposure_ms : Z := 7407.

(** The shipped settings after the preamble. *)
Definition patched_settings : json Z :=
  JDict [(KStr "binxy", JList [JInt 1; JInt 1]);
         (KStr "win_offset", JList [JInt 0; JInt 333]);
         (KStr "win_resolution", JList [JInt 1936; JInt 550]);
         (KStr "exposure_ms", JFloat 7407%Z);
         (KStr "pixel_format", JStr "Mono8");
         (KStr "resolution", JList [JInt 552; JInt 1936]);
         (KStr "luminance", JInt 10000)].

End ConfigPatch.

(* ===================================================================== *)
(** * zed/record_svo.py: the recorder of the stereo camera *)
(* ===================================================================== *)

Module RecordSvo.

(** [sl.ERROR_CODE]: success, or any other code with its text. *)
Inductive ERROR_CODE : Type :=
| SUCCESS
| FAILURE (name : string).

Definition is_success (e : ERROR_CODE) : bool :=
  match e with SUCCESS => true | FAILURE _ => false end.

(** [str(code)] *)
Definition str_code (e : ERROR_CODE) : string :=
  match e with SUCCESS => "SUCCESS" | FAILURE name => name end.

(** [str(n)] for a count. *)
Definition str_nat (n : nat) : string := NilZero.string_of_uint (Nat.to_uint n).

Definition LF : string := String (Ascii.ascii_of_nat 10) "".
Definition CR : string := String (Ascii.ascii_of_nat 13) "".

(** [s.endswith(suffix)] *)
Fixpoint endswith (s suffix : string) : bool :=
  String.eqb s suffix ||
  match s with
  | EmptyString => false
  | String _ s' => endswith s' suffix
  end.

(** The camera object [cam]: whether it is open, the file it records to,
    and the number of frames the SDK has written to that file. *)
Record Camera : Type := mk_camera {
  opened : bool;
  recording : option string;
  svo_frames : nat
}.

(** How the script stops before its last statement: [exit(code)] or
    [sys.exit(code)], or a call that the world never answers. *)
Inductive stop : Type :=
| Exit (code : option Z)
| Unserved.

Section Floats.
(** Python floats and [<] on them: the script only compares times. *)
Context {float : Type}.
Variable ltb : float -> float -> bool.

(** The parsed command line. *)
Record Options : Type := mk_options {
  output_svo_file : string;
  fps : Z;
  time_stop_zed : float
}.

(** The process and what is outside of it: the camera, what was printed,
    what [cam.open] and [cam.enable_recording] will answer, the readings
    [time.time()] will give, what the grabs will answer, and the number of
    statements after which SIGINT arrives, if it does. *)
Record World : Type := mk_world {
  cam : Camera;
  stdout : list string;
  open_status : ERROR_CODE;
  enable_status : ERROR_CODE;
  clock : list float;
  grabs : list ERROR_CODE;
  sigint : option nat
}.

Definition with_cam (c : Camera) (w : World) : World :=
  mk_world c (stdout w) (open_status w) (enable_status w) (clock w) (grabs w) (sigint w).
Definition with_stdout (o : list string) (w : World) : World :=
  mk_world (cam w) o (open_status w) (enable_status w) (clock w) (grabs w) (sigint w).
Definition with_clock (c : list float) (w : World) : World :=
  mk_world (cam w) (stdout w) (open_status w) (enable_status w) c (grabs w) (sigint w).
Definition with_grabs (g : list ERROR_CODE) (w : World) : World :=
  mk_world (cam w) (stdout w) (open_status w) (enable_status w) (clock w) g (sigint w).
Definition with_sigint (s : option nat) (w : World) : World :=
  mk_world (cam w) (stdout w) (open_status w) (enable_status w) (clock w) (grabs w) s.

(** A piece of the script: it yields a value or stops the process. *)
Definition Run (A : Type) : Type := World -> (A + stop) * World.

Definition ret {A} (a : A) : Run A := fun w => (inl a, w).

Definition bind {A B} (m : Run A) (k : A -> Run B) : Run B :=
  fun w => match m w with
           | (inl a, w') => k a w'
           | (inr s, w') => (inr s, w')
           end.

Local Notation "x <~ m ;> k" := (bind m (fun x => k))
  (at level 61, m at next level, right associativity).
Local Notation "m ;> k" := (bind m (fun _ => k))
  (at level 61, right associativity).

(** [exit(code)] and [sys.exit(code)] *)
Definition exit_ {A} (code : option Z) : Run A := fun w => (inr (Exit code), w).

(** ** The camera *)

Definition cam_disable_recording : Run unit := fun w =>
  (inl tt, with_cam (mk_camera (opened (cam w)) None (svo_frames (cam w))) w).

Definition cam_close : Run unit := fun w =>
  (inl tt, with_cam (mk_camera false None (svo_frames (cam w))) w).

Definition cam_open : Run ERROR_CODE := fun w =>
  (inl (open_status w),
   if is_success (open_status w)
   then with_cam (mk_camera true (recording (cam w)) (svo_frames (cam w))) w
   else w).

Definition cam_enable_recording (file : string) : Run ERROR_CODE := fun w =>
  (inl (enable_status w),
   if is_success (enable_status w)
   then with_cam (mk_camera (opened (cam w)) (Some file) (svo_frames (cam w))) w
   else w).

(** A grab that succeeds while recording is on adds a frame to the file. *)
Definition cam_grab : Run ERROR_CODE := fun w =>
  match grabs w with
  | [] => (inr Unserved, w)
  | e :: rest =>
      (inl e,
       with_grabs rest
         (match e, recording (cam w) with
          | SUCCESS, Some _ =>
              with_cam (mk_camera (opened (cam w)) (recording (cam w))
                                  (S (svo_frames (cam w)))) w
          | _, _ => w
          end))
  end.

(** [time.time()] *)
Definition time_time : Run float := fun w =>
  match clock w with
  | [] => (inr Unserved, w)
  | t :: rest => (inl t, with_clock rest w)
  end.

(** [print(text, end=ending)] *)
Definition print (text ending : string) : Run unit := fun w =>
  (inl tt, with_stdout (stdout w ++ [(text ++ ending)%string]) w).

(** ** SIGINT *)

(** [handler] *)
Definition handler {A} : Run A :=
  cam_disable_recording ;>
  cam_close ;>
  exit_ (Some 0%Z).

(** The signal is looked for before every statement. *)
Definition poll : Run unit := fun w =>
  match sigint w with
  | None => (inl tt, w)
  | Some (S n) => (inl tt, with_sigint (Some n) w)
  | Some O => handler (with_sigint None w)
  end.

Definition stmt {A} (a : Run A) : Run A := poll ;> a.

(** ** The script *)

(** The [while] loop of [main]; it yields [frames_recorded].  Every turn
    takes a reading of the clock, so [fuel] turns are enough when [fuel]
    exceeds the number of readings. *)
Fixpoint while_loop (fuel : nat) (time_max : float) (frames_recorded : nat) : Run nat :=
  match fuel with
  | O => fun w => (inr Unserved, w)
  | S fuel' =>
      now <~ stmt time_time ;>
      if ltb now time_max then
        err <~ stmt cam_grab ;>
        if is_success err then
          let frames_recorded := S frames_recorded in
          stmt (print ("Frame count: " ++ str_nat frames_recorded) CR) ;>
          while_loop fuel' time_max frames_recorded
        else while_loop fuel' time_max frames_recorded
      else ret frames_recorded
  end.

Definition main_frames (opt : Options) : Run nat :=
  status <~ stmt cam_open ;>
  (if negb (is_success status) then
     stmt (print ("Camera Open " ++ str_code status ++ " Exit program.") LF) ;>
     stmt (exit_ (Some 1%Z))
   else ret tt) ;>
  err <~ stmt (cam_enable_recording (output_svo_file opt)) ;>
  (if negb (is_success err) then
     stmt (print ("Recording ZED :  " ++ str_code err) LF) ;>
     stmt (exit_ (Some 1%Z))
   else ret tt) ;>
  stmt (print "SVO is Recording, use Ctrl-C to stop." LF) ;>
  let frames_recorded := O in
  let time_max := time_stop_zed opt in
  fun w => while_loop (S (List.length (clock w))) time_max frames_recorded w.

(** [main()]; the count of frames is a local variable and is dropped. *)
Definition main (opt : Options) : Run unit :=
  main_frames opt ;> ret tt.

(** The statements under [if __name__ == "__main__"], after the command
    line was parsed. *)
Definition script (opt : Options) : Run unit :=
  (if negb (endswith (output_svo_file opt) ".svo") &&
      negb (endswith (output_svo_file opt) ".svo2") then
     stmt (print ("--output_svo_file parameter should be a .svo file but is not :  "
                  ++ output_svo_file opt ++ " Exit program.") LF) ;>
     stmt (exit_ None)
   else ret tt) ;>
  main opt.

(** The exit status of the process, when it ends. *)
Definition exit_status (r : unit + stop) : option Z :=
  match r with
  | inl tt => Some 0%Z
  | inr (Exit None) => Some 0%Z
  | inr (Exit (Some code)) => Some code
  | inr Unserved => None
  end.

(** The name ends in [.svo] or in [.svo2]. *)
Definition good_name (opt : Options) : Prop :=
  negb (endswith (output_svo_file opt) ".svo") &&
  negb (endswith (output_svo_file opt) ".svo2") = false.

(** Ctrl-C is still to come. *)
Definition pending (w : World) : Prop := exists n, sigint w = Some n.

(** The way the handler leaves the process. *)
Definition interrupted {A} (r : A + stop) (w : World) : Prop :=
  r = inr (Exit (Some 0%Z)) /\ sigint w = None /\
  opened (cam w) = false /\ recording (cam w) = None.

(** Started before Ctrl-C, a piece of the script ends before it or is
    ended by the handler. *)
Definition safe {A} (m : Run A) : Prop :=
  forall w, pending w -> pending (snd (m w)) \/ interrupted (fst (m w)) (snd (m w)).

(** The grabs that succeeded. *)
Definition successes (gs : list ERROR_CODE) : nat :=
  List.length (filter is_success gs).

(** The lines [Frame count: a+1], ..., [Frame count: a+n]. *)
Definition frame_counts (a n : nat) : list string :=
  map (fun i => (("Frame count: " ++ str_nat i) ++ CR)%string) (seq (S a) n).
End Floats.

Arguments Options : clear implicits.
Arguments World : clear implicits.
Arguments Run : clear implicits.

(** ** Sample runs; times are in seconds since the start *)

Definition fresh_camera : Camera := mk_camera false None 0.

Definition sample_options : Options Z := mk_options "dive.svo2" 5 20%Z.

(** Three turns of the loop before the deadline, the second grab fails. *)
Definition sample_world : World Z :=
  mk_world fresh_camera [] SUCCESS SUCCESS [0; 7; 14; 21; 28]%Z
           [SUCCESS; FAILURE "CAMERA NOT DETECTED"; SUCCESS; SUCCESS] None.

(** The same with Ctrl-C before the eighth statement. *)
Definition ctrl_c_world : World Z := with_sigint (Some 7) sample_world.

(** No camera is attached. *)
Definition no_zed_world : World Z :=
  mk_world fresh_camera [] (FAILURE "CAMERA NOT DETECTED") SUCCESS [0; 7]%Z [] None.

(** The file cannot be written. *)
Definition no_file_world : World Z :=
  mk_world fresh_camera [] SUCCESS (FAILURE "SVO RECORDING ERROR") [0; 7]%Z [] None.

Definition bad_name_options : Options Z := mk_options "dive.mp4" 5 20%Z.

End RecordSvo.

(* ===================================================================== *)
(** * Reasoning about Python code: the rules of the Hoare triples *)
(* ===================================================================== *)

Module PyLogic.

Section Triples.
Context {S : Type}.

Lemma hoare_ret {A} (a : A) (P : S -> Prop) (Q : A -> S -> Prop) E :
  (forall s, P s -> Q a s) -> hoare P (ret a) Q E.
Proof. intros H s Hs. simpl. auto. Qed.

Lemma hoare_raise {A} e (P : S -> Prop) (Q : A -> S -> Prop) (E : S -> Prop) :
  (forall s, P s -> E s) -> hoare P (raise e) Q E.
Proof. intros H s Hs. simpl. auto. Qed.

Lemma hoare_bind {A B} (m : M S A) (k : A -> M S B) P Q R E :
  hoare P m Q E ->
  (forall a, hoare (Q a) (k a) R E) ->
  hoare P (bind m k) R E.
Proof.
  intros Hm Hk s Hs. specialize (Hm s Hs). unfold bind.
  destruct (m s) as [[a| e |] s1]; auto.
  apply (Hk a s1 Hm).
Qed.

Lemma hoare_conseq {A} (m : M S A) (P P' : S -> Prop) (Q Q' : A -> S -> Prop) E :
  hoare P' m Q' E ->
  (forall s, P s -> P' s) ->
  (forall a s, Q' a s -> Q a s) ->
  hoare P m Q E.
Proof.
  intros Hm HP HQ s Hs. specialize (Hm s (HP s Hs)).
  destruct (m s) as [[a| e |] s1]; auto.
Qed.

Lemma hoare_gets {A} (f : S -> A) (P : S -> Prop) E :
  hoare P (gets f) (fun a s => P s /\ a = f s) E.
Proof. intros s Hs. simpl. auto. Qed.

Lemma hoare_modify (f : S -> S) (P Q : S -> Prop) E :
  (forall s, P s -> Q (f s)) -> hoare P (modify f) (fun _ => Q) E.
Proof. intros H s Hs. simpl. auto. Qed.

Lemma hoare_when (c : bool) (m : M S unit) (P Q : S -> Prop) E :
  (c = true -> hoare P m (fun _ => Q) E) ->
  (c = false -> forall s, P s -> Q s) ->
  hoare P (when c m) (fun _ => Q) E.
Proof.
  intros Ht Hf. destruct c; simpl.
  - auto.
  - apply hoare_ret. auto.
Qed.

(** The rule for [for x in xs]: an invariant indexed by the elements
    still to come. *)
Lemma hoare_for_each {A} (body : A -> M S unit) (I : list A -> S -> Prop) E :
  (forall x xs, hoare (I (x :: xs)) (body x) (fun _ => I xs) E) ->
  forall xs, hoare (I xs) (for_each xs body) (fun _ => I []) E.
Proof.
  intros Hbody xs. induction xs as [| x xs IH]; simpl.
  - apply hoare_ret. auto.
  - eapply hoare_bind; [apply Hbody | intros []; exact IH].
Qed.

(** A fact that holds in every state of the precondition may be used
    for the whole proof. *)
Lemma hoare_pre_pure {A} (phi : Prop) (m : M S A) (P : S -> Prop) Q E :
  (forall s, P s -> phi) -> (phi -> hoare P m Q E) -> hoare P m Q E.
Proof. intros H1 H2 s Hs. exact (H2 (H1 s Hs) s Hs). Qed.

Lemma hoare_false {A} (m : M S A) (P : S -> Prop) Q E :
  (forall s, ~ P s) -> hoare P m Q E.
Proof. intros H s Hs. destruct (H s Hs). Qed.

(** Reading a triple back at one run. *)
Lemma hoare_ok {A} (m : M S A) P Q E s a s' :
  hoare P m Q E -> P s -> m s = (Ok a, s') -> Q a s'.
Proof. intros H Hs Hr. specialize (H s Hs). rewrite Hr in H. exact H. Qed.

Lemma hoare_total {A} (m : M S A) P Q (E : S -> Prop) s :
  (forall s', ~ E s') ->
  hoare P m Q E -> P s ->
  exists a s', m s = (Ok a, s') /\ Q a s'.
Proof.
  intros HE H Hs. specialize (H s Hs).
  destruct (m s) as [[a| e |] s1]; try (destruct (HE _ H)). eauto.
Qed.
End Triples.

End PyLogic.

(* ===================================================================== *)
(** * ids/record_frames.py: the SDK calls as triples *)
(* ===================================================================== *)

Module RecordFramesFacts.
Import RecordFrames PyLogic.

Lemma with_faults_same w : with_faults (sdk_faults w) w = w.
Proof. destruct w; reflexivity. Qed.

Lemma quiet_rest w fs : quiet w -> rest_of w fs -> Forall (fun f => f = None) fs.
Proof.
  unfold quiet. intros Hq [H | H]; rewrite H in Hq; auto.
  inversion Hq; auto.
Qed.

Lemma hoare_sdk {A} (serve : World -> A * World) (P : World -> Prop) Q E :
  (forall w fs, P w -> rest_of w fs ->
     Q (fst (serve (with_faults fs w))) (snd (serve (with_faults fs w)))) ->
  (forall w r fs, P w -> sdk_faults w = Some r :: fs -> E (with_faults fs w)) ->
  hoare P (sdk serve) Q E.
Proof.
  intros HQ HE w Hw. unfold sdk.
  destruct (sdk_faults w) as [| [r |] fs] eqn:Hf.
  - specialize (HQ w [] Hw (or_introl Hf)).
    rewrite <- Hf, with_faults_same in HQ.
    destruct (serve w); exact HQ.
  - simpl. apply (HE w r fs Hw Hf).
  - specialize (HQ w fs Hw (or_intror Hf)).
    destruct (serve (with_faults fs w)); exact HQ.
Qed.

Lemma hoare_the_stream {A} attr (m : IDS A) (P : World -> Prop) Q (E : World -> Prop) :
  hoare P m Q E ->
  (forall w, P w -> data_stream (cam w) = false -> E w) ->
  hoare P (the_stream attr ;; m) Q E.
Proof.
  intros Hm HE w Hw. specialize (Hm w Hw). specialize (HE w Hw).
  unfold hoare in *.
  cbv beta iota delta [bind the_stream gets ret raise].
  destruct (data_stream (cam w)); auto.
Qed.

Lemma hoare_the_nodemap {A} attr (m : IDS A) (P : World -> Prop) Q (E : World -> Prop) :
  hoare P m Q E ->
  (forall w, P w -> remote_nodemap (cam w) = false -> E w) ->
  hoare P (the_nodemap attr ;; m) Q E.
Proof.
  intros Hm HE w Hw. specialize (Hm w Hw). specialize (HE w Hw).
  unfold hoare in *.
  cbv beta iota delta [bind the_nodemap gets ret raise].
  destruct (remote_nodemap (cam w)); auto.
Qed.

(** *** The guard of the two readings *)

Lemma guard_served strict w fs (f : World -> World) :
  guard strict w -> rest_of w fs ->
  cam (f (with_faults fs w)) = cam w ->
  sdk_faults (f (with_faults fs w)) = fs ->
  guard strict (f (with_faults fs w)).
Proof.
  intros Hg Hr Hc Hf Hs. destruct (Hg Hs) as (Hn & Hd & Hq).
  unfold ready, quiet. rewrite Hc, Hf. repeat split; auto.
  eapply quiet_rest; eauto.
Qed.

Lemma guard_no_fault strict w r fs :
  guard strict w -> sdk_faults w = Some r :: fs -> strict = false.
Proof.
  intros Hg Hf. destruct strict; auto.
  destruct (Hg eq_refl) as (_ & _ & Hq). unfold quiet in Hq.
  rewrite Hf in Hq. inversion Hq; discriminate.
Qed.

Lemma guard_stream strict w : guard strict w -> data_stream (cam w) = false -> strict = false.
Proof.
  intros Hg Hf. destruct strict; auto.
  destruct (Hg eq_refl) as (_ & Hd & _). congruence.
Qed.

Lemma guard_nodemap strict w : guard strict w -> remote_nodemap (cam w) = false -> strict = false.
Proof.
  intros Hg Hf. destruct strict; auto.
  destruct (Hg eq_refl) as (Hd & _ & _). congruence.
Qed.

(** A call on the stream that changes the stream by [f]. *)
Lemma stream_write strict attr (f : DataStream -> DataStream)
    (P Q : World -> Prop) :
  (forall w, guard strict w /\ P w -> forall w', 
      cam w' = cam w -> nodemap w' = nodemap w -> stream w' = f (stream w) ->
      guard strict w' -> Q w') ->
  hoare (fun w => guard strict w /\ P w)
        (the_stream attr ;; sdk_write (with_stream f))
        (fun _ w => guard strict w /\ Q w) (exc strict).
Proof.
  intros H. apply hoare_the_stream.
  - apply hoare_sdk.
    + intros w fs [Hg HP] Hr. simpl.
      assert (Hg' : guard strict (with_stream f (with_faults fs w))).
      { apply (guard_served strict w fs (with_stream f)); auto. }
      split; [exact Hg' |].
      apply (H w (conj Hg HP)); auto.
    + intros w r fs [Hg _] Hf. exact (guard_no_fault _ _ _ _ Hg Hf).
  - intros w [Hg _] Hd. exact (guard_stream _ _ Hg Hd).
Qed.

(** A call on the stream that reads [f] of the world. *)
Lemma stream_read strict {A} attr (f : World -> A) (g : DataStream -> A)
    (P : World -> Prop) :
  (forall w fs, f (with_faults fs w) = g (stream w)) ->
  (forall w w', P w -> cam w' = cam w -> nodemap w' = nodemap w ->
                stream w' = stream w -> P w') ->
  hoare (fun w => guard strict w /\ P w)
        (the_stream attr ;; sdk_read f)
        (fun a w => (guard strict w /\ P w) /\ a = g (stream w)) (exc strict).
Proof.
  intros Hf HP. apply hoare_the_stream.
  - apply hoare_sdk.
    + intros w fs [Hg Hw] Hr. simpl.
      split; [split |].
      * apply (guard_served strict w fs (fun x => x)); auto.
      * apply (HP w); auto.
      * apply Hf.
    + intros w r fs [Hg _] Hfl. exact (guard_no_fault _ _ _ _ Hg Hfl).
  - intros w [Hg _] Hd. exact (guard_stream _ _ Hg Hd).
Qed.

(** A call on the node map that changes it by [f]. *)
Lemma nodemap_write strict attr (f : NodeMap -> NodeMap) (P Q : World -> Prop) :
  (forall w, guard strict w /\ P w -> forall w',
      cam w' = cam w -> nodemap w' = f (nodemap w) -> stream w' = stream w ->
      guard strict w' -> Q w') ->
  hoare (fun w => guard strict w /\ P w)
        (the_nodemap attr ;; sdk_write (with_nodemap f))
        (fun _ w => guard strict w /\ Q w) (exc strict).
Proof.
  intros H. apply hoare_the_nodemap.
  - apply hoare_sdk.
    + intros w fs [Hg HP] Hr. simpl.
      assert (Hg' : guard strict (with_nodemap f (with_faults fs w))).
      { apply (guard_served strict w fs (with_nodemap f)); auto. }
      split; [exact Hg' |].
      apply (H w (conj Hg HP)); auto.
    + intros w r fs [Hg _] Hf. exact (guard_no_fault _ _ _ _ Hg Hf).
  - intros w [Hg _] Hd. exact (guard_nodemap _ _ Hg Hd).
Qed.

Lemma print_keeps strict line (P : World -> Prop) :
  (forall w w', P w -> cam w' = cam w -> nodemap w' = nodemap w ->
                stream w' = stream w -> P w') ->
  hoare (fun w => guard strict w /\ P w) (print line)
        (fun _ w => guard strict w /\ P w) (exc strict).
Proof.
  intros HP. apply hoare_modify. intros w [Hg Hw]. split.
  - intros Hs. apply Hg in Hs. exact Hs.
  - apply (HP w); auto.
Qed.

(** A call on the node map that reads [f] of the world. *)
Lemma nodemap_read strict {A} attr (f : World -> A) (g : NodeMap -> A)
    (P : World -> Prop) :
  (forall w fs, f (with_faults fs w) = g (nodemap w)) ->
  (forall w w', P w -> cam w' = cam w -> nodemap w' = nodemap w ->
                stream w' = stream w -> P w') ->
  hoare (fun w => guard strict w /\ P w)
        (the_nodemap attr ;; sdk_read f)
        (fun a w => (guard strict w /\ P w) /\ a = g (nodemap w)) (exc strict).
Proof.
  intros Hf HP. apply hoare_the_nodemap.
  - apply hoare_sdk.
    + intros w fs [Hg Hw] Hr. simpl.
      split; [split |].
      * apply (guard_served strict w fs (fun x => x)); auto.
      * apply (HP w); auto.
      * apply Hf.
    + intros w r fs [Hg _] Hfl. exact (guard_no_fault _ _ _ _ Hg Hfl).
  - intros w [Hg _] Hd. exact (guard_nodemap _ _ Hg Hd).
Qed.

(** [AllocAndAnnounceBuffer(size)]: a new buffer of that size is added
    at the end of the pool. *)
Lemma stream_alloc strict size (P : World -> Prop) (Q : Buffer -> World -> Prop) :
  (forall w, guard strict w /\ P w -> forall w' b,
      cam w' = cam w -> nodemap w' = nodemap w ->
      buf_size b = size ->
      announced (stream w') = announced (stream w) ++ [b] ->
      grabbing (stream w') = grabbing (stream w) ->
      min_required (stream w') = min_required (stream w) ->
      call_log (stream w') =
        call_log (stream w) ++ [(AllocAndAnnounceBuffer size, grabbing (stream w))] ->
      guard strict w' -> Q b w') ->
  hoare (fun w => guard strict w /\ P w)
        (stream_AllocAndAnnounceBuffer size)
        (fun b w => guard strict w /\ Q b w) (exc strict).
Proof.
  intros H. unfold stream_AllocAndAnnounceBuffer. apply hoare_the_stream.
  - apply hoare_sdk.
    + intros w fs [Hg HP] Hr. cbn [fst snd].
      match goal with |- guard _ (with_stream ?f _) /\ _ =>
        assert (Hg' : guard strict (with_stream f (with_faults fs w)))
      end.
      { match goal with |- guard _ (with_stream ?f _) =>
          apply (guard_served strict w fs (with_stream f)); auto
        end. }
      split; [exact Hg' |].
      apply (H w (conj Hg HP)); auto.
    + intros w r fs [Hg _] Hf. exact (guard_no_fault _ _ _ _ Hg Hf).
  - intros w [Hg _] Hd. exact (guard_stream _ _ Hg Hd).
Qed.

Lemma pool_state_frame ok g p n w w' :
  pool_state ok g p n w -> nodemap w' = nodemap w -> stream w' = stream w ->
  pool_state ok g p n w'.
Proof. unfold pool_state. intros H Hn Hs. rewrite Hn, Hs. exact H. Qed.

Lemma pool_state_weaken (ok ok' : list Buffer -> Prop) g p n w :
  (forall bs, ok bs -> ok' bs) -> pool_state ok g p n w -> pool_state ok' g p n w.
Proof. unfold pool_state. intros H (H1 & H2); split; auto. Qed.

(** ** [revoke_buffers] empties the pool *)

Lemma revoke_buffers_spec strict g p n :
  hoare (recov strict (fun _ => True) g p n) revoke_buffers
        (fun _ => recov strict (fun bs => bs = []) g p n) (exc strict).
Proof.
  unfold recov, revoke_buffers.
  eapply hoare_bind.
  { unfold stream_Flush.
    apply stream_write with (Q := pool_state (fun _ => True) g p n).
    intros w [_ (_ & Hgr & Hp & Hn)] w' _ Hnm Hst _.
    unfold pool_state. rewrite Hnm, Hst. simpl. auto. }
  intros []. eapply hoare_bind.
  { unfold stream_AnnouncedBuffers.
    apply stream_read with (g := announced); [reflexivity |].
    intros w w' Hw _ Hn Hs. eapply pool_state_frame; eauto. }
  intros buffers. cbv beta.
  pose (I := fun (rem : list Buffer) (w : World) =>
               guard strict w /\
               pool_state (fun bs => forall x, In x bs ->
                             exists y, In y rem /\ buf_id y = buf_id x) g p n w).
  eapply hoare_conseq with (P' := I buffers) (Q' := fun _ => I []).
  - apply (hoare_for_each _ I). intros y rem. unfold I, stream_RevokeBuffer.
    apply stream_write. intros w [_ (Hin & Hgr & Hp & Hn)] w' _ Hnm Hst _.
    unfold pool_state. rewrite Hnm, Hst. simpl. repeat split; auto.
    intros x Hx. apply filter_In in Hx. destruct Hx as [Hx Hne].
    destruct (Hin x Hx) as (z & [Hz | Hz] & Hid).
    + subst z. rewrite Hid, Nat.eqb_refl in Hne. discriminate.
    + exists z. auto.
  - intros w [[Hg (_ & Hgr & Hp & Hn)] Hb]. split; auto.
    unfold pool_state. repeat split; auto.
    intros x Hx. exists x. subst buffers. auto.
  - intros _ w [Hg (Hin & Hrest)]. split; auto. split; auto.
    destruct (announced (stream w)) as [| x bs]; auto.
    destruct (Hin x (or_introl eq_refl)) as (y & [] & _).
Qed.

(** ** [alloc_buffers] fills an empty pool with the required number of
       buffers of the payload size *)

Lemma alloc_buffers_spec strict g p n :
  hoare (recov strict (fun bs => bs = []) g p n) alloc_buffers
        (fun _ => recov strict
                    (fun bs => Forall (fun b => buf_size b = p) bs /\
                               List.length bs = n) g p n)
        (exc strict).
Proof.
  unfold recov, alloc_buffers.
  eapply hoare_bind.
  { unfold node_PayloadSize.
    apply nodemap_read with (g := payload_size); [reflexivity |].
    intros w w' Hw _ Hn Hs. eapply pool_state_frame; eauto. }
  intros payload. cbv beta.
  apply hoare_pre_pure with (phi := payload = p).
  { intros w [[_ (_ & _ & Hp & _)] Ha]. congruence. }
  intros ->.
  eapply hoare_bind.
  { eapply hoare_conseq with (P' := fun w => guard strict w /\
                                      pool_state (fun bs => bs = []) g p n w).
    - unfold stream_NumBuffersAnnouncedMinRequired.
      apply stream_read with (g := min_required); [reflexivity |].
      intros w w' Hw _ Hn Hs. eapply pool_state_frame; eauto.
    - intros w [H _]. exact H.
    - intros a w H. exact H. }
  intros count. cbv beta.
  apply hoare_pre_pure with (phi := count = n).
  { intros w [[_ (_ & _ & _ & Hn)] Ha]. congruence. }
  intros ->.
  pose (I := fun (rem : list nat) (w : World) =>
               guard strict w /\
               pool_state (fun bs => Forall (fun b => buf_size b = p) bs /\
                                     List.length bs + List.length rem = n) g p n w).
  eapply hoare_conseq with (P' := I (seq 0 n)) (Q' := fun _ => I []).
  - apply (hoare_for_each _ I). intros i rem. unfold I.
    eapply hoare_bind.
    + apply stream_alloc with
        (Q := fun b w =>
                pool_state (fun bs => Forall (fun b => buf_size b = p) bs /\
                                      List.length bs + List.length rem = n) g p n w).
      intros w [_ ((Hall & Hlen) & Hgr & Hp & Hn)] w' b _ Hnm Hsz Han Hgr' Hmin _ _.
      unfold pool_state. rewrite Hnm, Han, Hgr', Hmin. repeat split; auto.
      * apply Forall_app. split; auto.
      * rewrite length_app. simpl in *. lia.
    + intros b. unfold stream_QueueBuffer. apply stream_write.
      intros w [_ H] w' _ Hnm Hst _.
      unfold pool_state in *. rewrite Hnm, Hst. simpl. exact H.
  - intros w [[Hg (Hnil & Hrest)] _]. split; auto. split; auto.
    rewrite Hnil. simpl. rewrite length_seq. auto.
  - intros _ w [Hg ((Hall & Hlen) & Hrest)]. split; auto. split; auto.
    simpl in Hlen. split; auto. lia.
Qed.

(** ** The recovery procedure on a payload-size mismatch *)

Lemma ensure_on_mismatch strict g p n info :
  hoare (recov strict (fun bs => exists b rest, bs = b :: rest /\ buf_size b <> p) g p n)
        (ensure_compatible_buffers_and_restart_acquisition info)
        (fun _ => recov strict
                    (fun bs => Forall (fun b => buf_size b = p) bs /\
                               List.length bs = n) g p n)
        (exc strict).
Proof.
  unfold recov, ensure_compatible_buffers_and_restart_acquisition.
  eapply hoare_bind.
  { unfold node_PayloadSize.
    apply nodemap_read with (g := payload_size); [reflexivity |].
    intros w w' Hw _ Hn Hs. eapply pool_state_frame; eauto. }
  intros payload. cbv beta.
  apply hoare_pre_pure with (phi := payload = p).
  { intros w [[_ (_ & _ & Hp & _)] Ha]. congruence. }
  intros ->.
  eapply hoare_bind.
  { eapply hoare_conseq with
      (P' := fun w => guard strict w /\
               pool_state (fun bs => exists b rest, bs = b :: rest /\ buf_size b <> p)
                          g p n w).
    - unfold stream_AnnouncedBuffers.
      apply stream_read with (g := announced); [reflexivity |].
      intros w w' Hw _ Hn Hs. eapply pool_state_frame; eauto.
    - intros w [H _]. exact H.
    - intros a w H. exact H. }
  intros buffers. cbv beta.
  apply hoare_pre_pure with (phi := exists b rest, buffers = b :: rest /\ buf_size b <> p).
  { intros w [[_ (Hex & _)] Ha]. subst buffers. exact Hex. }
  intros (b & rest & -> & Hne). simpl first_of.
  eapply hoare_bind.
  { apply hoare_ret with
      (Q := fun a w => (guard strict w /\ pool_state (fun _ => True) g p n w) /\ a = b).
    intros w [[Hg Hw] _]. split; [split |]; auto.
    eapply pool_state_weaken; [| exact Hw]. auto. }
  intros first. cbv beta.
  apply hoare_pre_pure with (phi := first = b).
  { intros w [_ H]. exact H. }
  intros ->.
  assert (Hmis : negb (p =? buf_size b)%Z = true).
  { apply negb_true_iff, Z.eqb_neq. congruence. }
  rewrite Hmis. simpl when at 1.
  eapply hoare_bind with
    (Q := fun _ w => guard strict w /\
            pool_state (fun bs => Forall (fun b => buf_size b = p) bs /\
                                  List.length bs = n) g p n w).
  - (* the reallocation *)
    eapply hoare_bind.
    { eapply hoare_conseq with
        (P' := fun w => guard strict w /\ pool_state (fun _ => True) g p n w).
      - apply print_keeps. intros w w' Hw _ Hn Hs. eapply pool_state_frame; eauto.
      - intros w [H _]. exact H.
      - intros a w H. exact H. }
    intros []. eapply hoare_bind.
    { unfold stream_IsGrabbing.
      apply stream_read with (g := grabbing); [reflexivity |].
      intros w w' Hw _ Hn Hs. eapply pool_state_frame; eauto. }
    intros running. cbv beta.
    apply hoare_pre_pure with (phi := running = g).
    { intros w [[_ (_ & Hg & _)] Ha]. congruence. }
    intros ->.
    eapply hoare_bind with
      (Q := fun _ => recov strict (fun _ => True) false p n).
    { apply hoare_when.
      - intros ->. unfold recov, stream_StopAcquisition.
        eapply hoare_conseq with
          (P' := fun w => guard strict w /\ pool_state (fun _ => True) true p n w).
        + apply stream_write with (Q := pool_state (fun _ => True) false p n).
          intros w [_ (_ & _ & Hp & Hn)] w' _ Hnm Hst _.
          unfold pool_state. rewrite Hnm, Hst. simpl. auto.
        + intros w [H _]. exact H.
        + intros a w H. exact H.
      - intros -> w [H _]. exact H. }
    intros []. eapply hoare_bind.
    { apply revoke_buffers_spec. }
    intros []. eapply hoare_bind.
    { apply alloc_buffers_spec. }
    intros []. apply hoare_when.
    + intros ->. unfold recov, stream_StartAcquisition.
      apply stream_write.
      intros w [_ (Hok & _ & Hp & Hn)] w' _ Hnm Hst _.
      unfold pool_state. rewrite Hnm, Hst. simpl. auto.
    + intros -> w H. exact H.
  - intros []. apply hoare_when.
    + intros _. unfold node_Execute. apply nodemap_write.
      intros w [_ H] w' _ Hnm Hst _.
      unfold pool_state in *. rewrite Hnm, Hst. simpl. exact H.
    + intros _ w H. exact H.
Qed.

(** The callback, on a reconnect that did not fully succeed. *)
Lemma device_reconnected_on_mismatch strict g p n d info :
  IsSuccessful info = false ->
  hoare (recov strict (fun bs => exists b rest, bs = b :: rest /\ buf_size b <> p) g p n)
        (device_reconnected d info)
        (fun _ => recov strict
                    (fun bs => Forall (fun b => buf_size b = p) bs /\
                               List.length bs = n) g p n)
        (exc strict).
Proof.
  intros Hs. unfold device_reconnected. rewrite Hs.
  eapply hoare_bind.
  - unfold recov. apply print_keeps.
    intros w w' Hw _ Hn Hst. eapply pool_state_frame; eauto.
  - intros []. apply ensure_on_mismatch.
Qed.

(** The precondition of the two lemmas above, from the words of the
    specification. *)
Lemma recov_intro strict p1 p2 w :
  p1 <> p2 ->
  payload_size (nodemap w) = p2 ->
  (exists b rest, announced (stream w) = b :: rest /\ buf_size b = p1) ->
  guard strict w ->
  recov strict (fun bs => exists b rest, bs = b :: rest /\ buf_size b <> p2)
        (grabbing (stream w)) p2 (min_required (stream w)) w.
Proof.
  intros Hne Hp (b & rest & Hb & Hsz) Hg. split; auto.
  unfold pool_state. repeat split; auto.
  exists b, rest. split; auto. congruence.
Qed.

(** ** The log of the stream calls *)

Lemma replay_app g evs evs' : replay g (evs ++ evs') = replay (replay g evs) evs'.
Proof.
  revert g. induction evs as [| [op b] evs IH]; intros g; simpl; auto.
Qed.

Lemma truthful_app g evs evs' :
  truthful g (evs ++ evs') <-> truthful g evs /\ truthful (replay g evs) evs'.
Proof.
  revert g. induction evs as [| [op b] evs IH]; intros g; simpl.
  - tauto.
  - rewrite IH. tauto.
Qed.

(** When the flag was set at first and is clear after [evs], one of the
    calls in [evs] stopped the acquisition. *)
Lemma replay_stopped evs :
  replay true evs = false -> exists b, In (StopAcquisition, b) evs.
Proof.
  assert (H : forall g, replay g evs = false ->
                g = false \/ exists b, In (StopAcquisition, b) evs).
  { induction evs as [| [op b] evs IH]; intros g Hr; simpl in *.
    - auto.
    - destruct (IH _ Hr) as [Ha | (b' & Hin)].
      + destruct op; simpl in Ha; try discriminate; auto.
        right. exists b. auto.
      + right. exists b'. auto. }
  intros Hr. destruct (H true Hr) as [Hd | Hex]; [discriminate | exact Hex].
Qed.

Lemma logged_forget log0 g0 now w : logged log0 g0 now w -> logged log0 g0 None w.
Proof.
  intros (evs & H1 & H2 & H3 & H4 & _). exists evs. simpl. auto.
Qed.

Lemma logged_frame log0 g0 now w w' :
  logged log0 g0 now w -> stream w' = stream w -> logged log0 g0 now w'.
Proof. unfold logged. intros H ->. exact H. Qed.

(** A served call [op] on the stream. *)
Lemma logged_call {A} log0 g0 now now' op attr (serve : World -> A * World) :
  (forall w,
      call_log (stream (snd (serve w))) =
        call_log (stream w) ++ [(op, grabbing (stream w))] /\
      grabbing (stream (snd (serve w))) = after op (grabbing (stream w))) ->
  (mutates_pool op = true -> now = Some false) ->
  (forall b, holds now b -> holds now' (after op b)) ->
  hoare (logged log0 g0 now) (the_stream attr ;; sdk serve)
        (fun _ => logged log0 g0 now') (logged log0 g0 None).
Proof.
  intros Hserve Hord Hnow. apply hoare_the_stream.
  - apply hoare_sdk.
    + intros w fs (evs & H1 & H2 & H3 & H4 & H5) _.
      destruct (Hserve (with_faults fs w)) as [Hl Hg]. simpl in Hl, Hg.
      exists (evs ++ [(op, grabbing (stream w))]).
      rewrite Hl, Hg, H1, app_assoc. repeat split.
      * apply Forall_app. split; auto. constructor; auto.
        intros Hm. simpl in *. specialize (Hord Hm). subst now. exact H5.
      * apply truthful_app. split; auto. simpl. auto.
      * rewrite replay_app. simpl. rewrite <- H4. reflexivity.
      * apply Hnow, H5.
    + intros w r fs Hw _. eapply logged_frame; [eapply logged_forget; eauto | reflexivity].
  - intros w Hw _. eapply logged_forget; eauto.
Qed.

(** A served call that leaves the stream as it is. *)
Lemma logged_sdk_keep {A} log0 g0 now (serve : World -> A * World) :
  (forall w, stream (snd (serve w)) = stream w) ->
  hoare (logged log0 g0 now) (sdk serve)
        (fun _ => logged log0 g0 now) (logged log0 g0 None).
Proof.
  intros Hserve. apply hoare_sdk.
  - intros w fs Hw _. eapply logged_frame; [exact Hw |].
    rewrite Hserve. reflexivity.
  - intros w r fs Hw _. eapply logged_frame; [eapply logged_forget; eauto | reflexivity].
Qed.

Lemma logged_stream_keep {A} log0 g0 now attr (serve : World -> A * World) :
  (forall w, stream (snd (serve w)) = stream w) ->
  hoare (logged log0 g0 now) (the_stream attr ;; sdk serve)
        (fun _ => logged log0 g0 now) (logged log0 g0 None).
Proof.
  intros H. apply hoare_the_stream.
  - apply logged_sdk_keep; auto.
  - intros w Hw _. eapply logged_forget; eauto.
Qed.

Lemma logged_nodemap_keep {A} log0 g0 now attr (serve : World -> A * World) :
  (forall w, stream (snd (serve w)) = stream w) ->
  hoare (logged log0 g0 now) (the_nodemap attr ;; sdk serve)
        (fun _ => logged log0 g0 now) (logged log0 g0 None).
Proof.
  intros H. apply hoare_the_nodemap.
  - apply logged_sdk_keep; auto.
  - intros w Hw _. eapply logged_forget; eauto.
Qed.

Lemma logged_print log0 g0 now line :
  hoare (logged log0 g0 now) (print line)
        (fun _ => logged log0 g0 now) (logged log0 g0 None).
Proof.
  apply hoare_modify. intros w Hw. eapply logged_frame; eauto.
Qed.

(** [IsGrabbing()] tells the present flag. *)
Lemma logged_IsGrabbing log0 g0 now :
  hoare (logged log0 g0 now) stream_IsGrabbing
        (fun a => logged log0 g0 (Some a)) (logged log0 g0 None).
Proof.
  unfold stream_IsGrabbing, sdk_read. apply hoare_the_stream.
  - apply hoare_sdk.
    + intros w fs (evs & H1 & H2 & H3 & H4 & H5) _. simpl.
      exists evs. simpl. auto.
    + intros w r fs Hw _. eapply logged_frame; [eapply logged_forget; eauto | reflexivity].
  - intros w Hw _. eapply logged_forget; eauto.
Qed.

Ltac logged_side :=
  first [ solve [intros; simpl; split; reflexivity]
        | solve [simpl; auto]
        | solve [intros; discriminate]
        | solve [intros b Hb; simpl in *; auto] ].

Lemma revoke_buffers_logged log0 g0 :
  hoare (logged log0 g0 (Some false)) revoke_buffers
        (fun _ => logged log0 g0 (Some false)) (logged log0 g0 None).
Proof.
  unfold revoke_buffers. eapply hoare_bind.
  { unfold stream_Flush, sdk_write.
    apply logged_call with (op := Flush) (now' := Some false); logged_side. }
  intros []. eapply hoare_bind.
  { unfold stream_AnnouncedBuffers, sdk_read.
    apply logged_stream_keep. reflexivity. }
  intros buffers.
  apply (hoare_for_each _ (fun _ => logged log0 g0 (Some false))).
  intros b _. unfold stream_RevokeBuffer, sdk_write.
  apply logged_call with (op := RevokeBuffer (buf_id b)) (now' := Some false);
    logged_side.
Qed.

Lemma alloc_buffers_logged log0 g0 :
  hoare (logged log0 g0 (Some false)) alloc_buffers
        (fun _ => logged log0 g0 (Some false)) (logged log0 g0 None).
Proof.
  unfold alloc_buffers. eapply hoare_bind.
  { unfold node_PayloadSize, sdk_read.
    apply logged_nodemap_keep. reflexivity. }
  intros payload. eapply hoare_bind.
  { unfold stream_NumBuffersAnnouncedMinRequired, sdk_read.
    apply logged_stream_keep. reflexivity. }
  intros count.
  apply (hoare_for_each _ (fun _ => logged log0 g0 (Some false))).
  intros i _. eapply hoare_bind.
  - unfold stream_AllocAndAnnounceBuffer.
    apply logged_call with (op := AllocAndAnnounceBuffer payload)
                           (now' := Some false); logged_side.
  - intros b. unfold stream_QueueBuffer, sdk_write.
    apply logged_call with (op := QueueBuffer (buf_id b)) (now' := Some false);
      logged_side.
Qed.

(** However the recovery procedure ends, the calls it made are in order
    and logged truthfully. *)
Lemma ensure_logged log0 g0 info :
  hoare (logged log0 g0 None)
        (ensure_compatible_buffers_and_restart_acquisition info)
        (fun _ => logged log0 g0 None) (logged log0 g0 None).
Proof.
  unfold ensure_compatible_buffers_and_restart_acquisition.
  eapply hoare_bind.
  { unfold node_PayloadSize, sdk_read.
    apply logged_nodemap_keep. reflexivity. }
  intros payload. eapply hoare_bind.
  { unfold stream_AnnouncedBuffers, sdk_read.
    apply logged_stream_keep. reflexivity. }
  intros buffers. eapply hoare_bind with (Q := fun _ => logged log0 g0 None).
  { destruct buffers; simpl.
    - apply hoare_raise. auto.
    - apply hoare_ret. auto. }
  intros first. cbv zeta.
  eapply hoare_bind with (Q := fun _ => logged log0 g0 None).
  - apply hoare_when; [intros _ | auto].
    eapply hoare_bind; [apply logged_print |].
    intros []. eapply hoare_bind; [apply logged_IsGrabbing |].
    intros running.
    eapply hoare_bind with (Q := fun _ => logged log0 g0 (Some false)).
    { apply hoare_when.
      - intros ->. unfold stream_StopAcquisition, sdk_write.
        apply logged_call with (op := StopAcquisition) (now' := Some false);
          logged_side.
      - intros ->. auto. }
    intros []. eapply hoare_bind; [apply revoke_buffers_logged |].
    intros []. eapply hoare_bind; [apply alloc_buffers_logged |].
    intros []. apply hoare_when.
    + intros _. unfold stream_StartAcquisition, sdk_write.
      apply logged_call with (op := StartAcquisition) (now' := None);
        logged_side.
    + intros _ w Hw. eapply logged_forget; eauto.
  - intros []. apply hoare_when; [intros _ | auto].
    unfold node_Execute, sdk_write. apply logged_nodemap_keep. reflexivity.
Qed.

End RecordFramesFacts.

(* ===================================================================== *)
(** * ids/record_frames.py: the properties of the reconnect recovery *)
(* ===================================================================== *)

Module ReconnectSpec.
Import RecordFrames PyLogic RecordFramesFacts.

Lemma exc_true_absurd w : ~ exc true w.
Proof. unfold exc. discriminate. Qed.

Lemma guard_lax w : guard false w.
Proof. unfold guard. discriminate. Qed.

Lemma guard_strict w : ready w -> guard true w.
Proof. unfold guard. auto. Qed.

(** C1.  For payload sizes [p1 <> p2]: when the reconnected callback
    fires with a reconnect that was not successful, while the device
    reports the payload size [p2] and the first announced buffer has the
    size [p1], then once the callback has returned every buffer of the
    pool has the size [p2] and the pool holds as many buffers as the
    stream requires at least.  The callback does return when the device
    is open and the SDK serves every call. *)
Theorem recovery_reallocates_pool (p1 p2 : Z) d info w :
  p1 <> p2 ->
  IsSuccessful info = false ->
  payload_size (nodemap w) = p2 ->
  (exists b rest, announced (stream w) = b :: rest /\ buf_size b = p1) ->
  (forall w', device_reconnected d info w = (Ok tt, w') ->
     Forall (fun b => buf_size b = p2) (announced (stream w')) /\
     List.length (announced (stream w')) = min_required (stream w') /\
     min_required (stream w') = min_required (stream w))
  /\ (ready w -> exists w', device_reconnected d info w = (Ok tt, w')).
Proof.
  intros Hne Hs Hp Hb. split.
  - intros w' Hrun.
    pose proof (device_reconnected_on_mismatch false (grabbing (stream w)) p2
                  (min_required (stream w)) d info Hs) as H.
    pose proof (hoare_ok _ _ _ _ _ _ _ H
                  (recov_intro false p1 p2 w Hne Hp Hb (guard_lax w)) Hrun) as Hq.
    destruct Hq as (_ & (Hall & Hlen) & _ & _ & Hmin).
    rewrite Hmin. auto.
  - intros Hr.
    pose proof (device_reconnected_on_mismatch true (grabbing (stream w)) p2
                  (min_required (stream w)) d info Hs) as H.
    destruct (hoare_total _ _ _ _ w exc_true_absurd H
                (recov_intro true p1 p2 w Hne Hp Hb (guard_strict w Hr)))
      as ([] & w' & Hrun & _).
    exists w'. exact Hrun.
Qed.

Lemma recovery_reallocates_pool_witness :
  (forall w', device_reconnected sample_device partial_failure stale_world = (Ok tt, w') ->
     Forall (fun b => buf_size b = 200%Z) (announced (stream w')) /\
     List.length (announced (stream w')) = min_required (stream w') /\
     min_required (stream w') = min_required (stream stale_world))
  /\ (ready stale_world ->
      exists w', device_reconnected sample_device partial_failure stale_world = (Ok tt, w')).
Proof.
  apply (recovery_reallocates_pool 100 200 sample_device partial_failure stale_world).
  - lia.
  - reflexivity.
  - reflexivity.
  - exists (mk_buffer 0 100), [mk_buffer 1 100; mk_buffer 2 100].
    split; reflexivity.
Defined.

(** C2.  However the recovery procedure ends, every call it made on the
    stream that touches the buffer pool (flush, revoke, allocate, queue)
    met a stream that was not grabbing; and when the stream was grabbing
    at the start, a call that stops the acquisition comes before any
    revoke. *)
Theorem recovery_mutates_pool_only_when_stopped info w :
  exists evs,
    call_log (stream (snd (ensure_compatible_buffers_and_restart_acquisition info w)))
      = call_log (stream w) ++ evs /\
    Forall in_order evs /\
    truthful (grabbing (stream w)) evs /\
    (grabbing (stream w) = true ->
     forall before id b rest, evs = before ++ (RevokeBuffer id, b) :: rest ->
       exists b', In (StopAcquisition, b') before).
Proof.
  pose proof (ensure_logged (call_log (stream w)) (grabbing (stream w)) info w) as H.
  assert (H0 : logged (call_log (stream w)) (grabbing (stream w)) None w).
  { exists []. rewrite app_nil_r. simpl. auto. }
  specialize (H H0).
  assert (Hl : logged (call_log (stream w)) (grabbing (stream w)) None
                 (snd (ensure_compatible_buffers_and_restart_acquisition info w))).
  { destruct (ensure_compatible_buffers_and_restart_acquisition info w)
      as [[a | e |] w']; exact H. }
  destruct Hl as (evs & Hlog & Hord & Htruth & _ & _).
  exists evs. repeat split; auto.
  intros Hg before id b rest Hsplit. subst evs.
  apply Forall_app in Hord. destruct Hord as [_ Hord].
  inversion Hord as [| ev evs' Hev _]; subst.
  apply truthful_app in Htruth. destruct Htruth as [_ Htruth].
  simpl in Htruth. destruct Htruth as [Hb _].
  assert (Hfalse : b = false) by (apply Hev; reflexivity).
  apply replay_stopped. rewrite <- Hg at 1. congruence.
Qed.

(** C3.  On a payload-size mismatch the recovery procedure leaves the
    stream grabbing when it found it grabbing, and stopped when it found
    it stopped; it does come back when the device is open and the SDK
    serves every call. *)
Theorem recovery_preserves_grabbing info w :
  (exists b rest, announced (stream w) = b :: rest /\
                  buf_size b <> payload_size (nodemap w)) ->
  (forall w', ensure_compatible_buffers_and_restart_acquisition info w = (Ok tt, w') ->
     grabbing (stream w') = grabbing (stream w))
  /\ (ready w ->
      exists w', ensure_compatible_buffers_and_restart_acquisition info w = (Ok tt, w')
                 /\ grabbing (stream w') = grabbing (stream w)).
Proof.
  intros Hb.
  assert (Hpre : forall strict, guard strict w ->
            recov strict (fun bs => exists b rest, bs = b :: rest /\
                                      buf_size b <> payload_size (nodemap w))
                  (grabbing (stream w)) (payload_size (nodemap w))
                  (min_required (stream w)) w).
  { intros strict Hg. split; auto. unfold pool_state. auto. }
  split.
  - intros w' Hrun.
    pose proof (hoare_ok _ _ _ _ _ _ _
                  (ensure_on_mismatch false _ _ _ info) (Hpre false (guard_lax w)) Hrun)
      as (_ & _ & Hg & _).
    exact Hg.
  - intros Hr.
    destruct (hoare_total _ _ _ _ w exc_true_absurd
                (ensure_on_mismatch true _ _ _ info) (Hpre true (guard_strict w Hr)))
      as ([] & w' & Hrun & _ & _ & Hg & _).
    exists w'. auto.
Qed.

Lemma recovery_preserves_grabbing_witness :
  (forall w',
      ensure_compatible_buffers_and_restart_acquisition partial_failure stale_world
        = (Ok tt, w') ->
      grabbing (stream w') = grabbing (stream stale_world))
  /\ (ready stale_world ->
      exists w',
        ensure_compatible_buffers_and_restart_acquisition partial_failure stale_world
          = (Ok tt, w')
        /\ grabbing (stream w') = grabbing (stream stale_world)).
Proof.
  apply (recovery_preserves_grabbing partial_failure stale_world).
  exists (mk_buffer 0 100), [mk_buffer 1 100; mk_buffer 2 100].
  split; [reflexivity | simpl; lia].
Defined.

(** C4.  When the reconnect information reports success, the
    reconnected callback only prints its message: stream (buffer pool
    and grabbing flag), object (acquisition flag), node map and
    everything else but the output are as before. *)
Theorem reconnect_success_is_noop d info w :
  IsSuccessful info = true ->
  fst (device_reconnected d info w) = Ok tt /\
  stream (snd (device_reconnected d info w)) = stream w /\
  cam (snd (device_reconnected d info w)) = cam w /\
  nodemap (snd (device_reconnected d info w)) = nodemap w /\
  exists line,
    snd (device_reconnected d info w) = with_stdout (fun out => out ++ [line]) w.
Proof.
  intros Hs. unfold device_reconnected. rewrite Hs.
  repeat (split; [reflexivity |]). eexists. reflexivity.
Qed.

Lemma reconnect_success_is_noop_witness :
  fst (device_reconnected sample_device full_success stale_world) = Ok tt /\
  stream (snd (device_reconnected sample_device full_success stale_world))
    = stream stale_world /\
  cam (snd (device_reconnected sample_device full_success stale_world))
    = cam stale_world /\
  nodemap (snd (device_reconnected sample_device full_success stale_world))
    = nodemap stale_world /\
  exists line,
    snd (device_reconnected sample_device full_success stale_world)
      = with_stdout (fun out => out ++ [line]) stale_world.
Proof.
  apply (reconnect_success_is_noop sample_device full_success stale_world).
  reflexivity.
Defined.

End ReconnectSpec.

(* ===================================================================== *)
(** * ids/record_frames.py: the acquisition loop *)
(* ===================================================================== *)

Module AcquisitionLoopSpec.
Import RecordFrames.

(** The [try] statement of the loop has a handler for everything its
    body can raise. *)
Lemma loop_body_never_raises w e : fst (loop_body w) <> Raise e.
Proof.
  destruct w as [c lib mg re nm st fs ws out].
  cbv beta iota delta [loop_body try_except bind stream_WaitForFinishedBuffer
    stream_QueueBuffer the_stream gets ret raise print modify sdk_write sdk
    cam waits sdk_faults with_waits with_stream with_stdout with_faults].
  destruct (data_stream c) eqn:Hd; simpl.
  - destruct ws as [| [b fid | [cl msg |]] ws]; simpl; try discriminate.
    + destruct fs as [| [[cl msg |] |] fs]; simpl; rewrite ?Hd; simpl;
        try discriminate.
      destruct cl; simpl; discriminate.
    + destruct cl; simpl; discriminate.
  - discriminate.
Qed.

Lemma while_never_raises fuel w e :
  fst (while_acquisition_running fuel w) <> Raise e.
Proof.
  revert w. induction fuel as [| fuel IH]; intros w; simpl.
  - discriminate.
  - cbv beta iota delta [bind gets].
    destruct (acquisition_running (cam w)); [| discriminate].
    pose proof (loop_body_never_raises w) as Hb.
    destruct (loop_body w) as [[[|] | e' |] w'].
    + apply IH.
    + discriminate.
    + destruct (Hb e'). reflexivity.
    + discriminate.
Qed.

Lemma loop_body_wait_raises w r rest :
  data_stream (cam w) = true ->
  waits w = WaitRaises r :: rest ->
  loop_body w =
    match r with
    | SdkError c msg =>
        (Ok Continue,
         with_stdout (fun out => out ++ [("Exception: " ++ msg)%string]) (with_waits rest w))
    | UserInterrupt =>
        (Ok Break,
         with_stdout (fun out => out ++ ["Keyboard interrupt."]) (with_waits rest w))
    end.
Proof.
  intros Hd Hw.
  cbv beta iota delta [loop_body try_except bind stream_WaitForFinishedBuffer
    the_stream gets ret raise].
  rewrite Hd, Hw. destruct r as [[| |] msg |]; reflexivity.
Qed.

(** C5.  While the loop runs, a wait for a finished buffer that raises
    one of the SDK's exceptions is absorbed: the message is printed and
    the loop goes on with its next turn, the acquisition flag still set.
    A wait that raises the interrupt of the user ends the loop.  In no
    case does an exception leave the loop. *)
Theorem wait_exceptions_are_absorbed w r rest :
  acquisition_running (cam w) = true ->
  data_stream (cam w) = true ->
  waits w = WaitRaises r :: rest ->
  match r with
  | SdkError c msg =>
      let w' := with_stdout (fun out => out ++ [("Exception: " ++ msg)%string])
                            (with_waits rest w) in
      loop_body w = (Ok Continue, w') /\
      acquisition_running (cam w') = true /\
      while_acquisition_running (loop_fuel w) w =
        while_acquisition_running (loop_fuel w') w'
  | UserInterrupt =>
      let w' := with_stdout (fun out => out ++ ["Keyboard interrupt."])
                            (with_waits rest w) in
      loop_body w = (Ok Break, w') /\
      while_acquisition_running (loop_fuel w) w = (Ok tt, w')
  end
  /\ (forall fuel e, fst (while_acquisition_running fuel w) <> Raise e).
Proof.
  intros Hr Hd Hw. split; [| intros fuel e; apply while_never_raises].
  pose proof (loop_body_wait_raises w r rest Hd Hw) as Hb.
  unfold loop_fuel. rewrite Hw. simpl List.length.
  cbn [while_acquisition_running].
  destruct r as [c msg |]; cbv zeta.
  - split; [exact Hb |]. split; [exact Hr |].
    unfold bind at 1. unfold gets at 1. cbv beta iota. rewrite Hr.
    unfold bind at 1. rewrite Hb. reflexivity.
  - split; [exact Hb |].
    unfold bind at 1. unfold gets at 1. cbv beta iota. rewrite Hr.
    unfold bind at 1. rewrite Hb. reflexivity.
Qed.

Lemma wait_exceptions_are_absorbed_witness :
  (let w' := with_stdout (fun out => out ++ [("Exception: " ++ "timeout")%string])
                         (with_waits [WaitRaises UserInterrupt] waiting_world) in
   loop_body waiting_world = (Ok Continue, w') /\
   acquisition_running (cam w') = true /\
   while_acquisition_running (loop_fuel waiting_world) waiting_world =
     while_acquisition_running (loop_fuel w') w')
  /\ (forall fuel e, fst (while_acquisition_running fuel waiting_world) <> Raise e).
Proof.
  apply (wait_exceptions_are_absorbed waiting_world (SdkError PkTimeout "timeout")
           [WaitRaises UserInterrupt]); reflexivity.
Defined.

(** On the sample world the timeout is printed and the interrupt that
    follows ends the loop. *)
Example loop_on_waiting_world :
  fst (while_acquisition_running (loop_fuel waiting_world) waiting_world) = Ok tt /\
  stdout (snd (while_acquisition_running (loop_fuel waiting_world) waiting_world))
    = ["Exception: timeout"; "Keyboard interrupt."].
Proof. split; reflexivity. Qed.

End AcquisitionLoopSpec.

(* ===================================================================== *)
(** * ids/record_frames.py: [run] and its cleanup *)
(* ===================================================================== *)

Module RunSpec.
Import RecordFrames PyLogic.

(** ** Invariants that hold however the code ends *)

Section Keeps.
Context {S : Type} (I : S -> Prop).

Lemma keeps_ret {A} (a : A) : keeps I (ret a).
Proof. apply hoare_ret. auto. Qed.

Lemma keeps_raise {A} e : keeps I (raise (A:=A) e).
Proof. apply hoare_raise. auto. Qed.

Lemma keeps_hang {A} : keeps I (hang (A:=A)).
Proof. intros s Hs. exact Hs. Qed.

Lemma keeps_gets {A} (f : S -> A) : keeps I (gets f).
Proof. intros s Hs. exact Hs. Qed.

Lemma keeps_modify (f : S -> S) : (forall s, I s -> I (f s)) -> keeps I (modify f).
Proof. intros H. apply hoare_modify. exact H. Qed.

Lemma keeps_bind {A B} (m : M S A) (k : A -> M S B) :
  keeps I m -> (forall a, keeps I (k a)) -> keeps I (bind m k).
Proof. intros Hm Hk. eapply hoare_bind; [exact Hm | exact Hk]. Qed.

Lemma keeps_when c (m : M S unit) : keeps I m -> keeps I (when c m).
Proof. intros Hm. apply hoare_when; auto. Qed.

Lemma keeps_for_each {A} (xs : list A) (body : A -> M S unit) :
  (forall x, keeps I (body x)) -> keeps I (for_each xs body).
Proof.
  intros Hb. apply (hoare_for_each body (fun _ => I)). intros x _. apply Hb.
Qed.

Lemma keeps_try_except {A} (body : M S A) (cs : list (clause A)) :
  keeps I body ->
  Forall (fun c => forall e, keeps I (snd c e)) cs ->
  keeps I (try_except body cs).
Proof.
  intros Hb Hcs s Hs. specialize (Hb s Hs). unfold try_except.
  destruct (body s) as [[a | e |] s']; auto.
  assert (Hsel : forall h, select cs e = Some h -> keeps I h).
  { clear Hb. induction Hcs as [| [classes h0] cs' Hc _ IH]; simpl; intros h Hh.
    - discriminate.
    - destruct (existsb (isinstance e) classes).
      + inversion Hh; subst. apply Hc.
      + apply IH, Hh. }
  destruct (select cs e) as [h |] eqn:Hh; [| exact Hb].
  apply (Hsel h eq_refl s' Hb).
Qed.

Lemma keeps_try_finally {A} (body : M S A) (fin : M S unit) :
  keeps I body -> keeps I fin -> keeps I (try_finally body fin).
Proof.
  intros Hb Hf s Hs. specialize (Hb s Hs). unfold try_finally.
  destruct (body s) as [[a | e |] s']; auto.
  - specialize (Hf s' Hb). destruct (fin s') as [[[] | e |] s'']; auto.
  - specialize (Hf s' Hb). destruct (fin s') as [[[] | e' |] s'']; auto.
Qed.
End Keeps.

(** ** The body of [run] leaves the callback handles alone *)

Section Handles.
Variable hs : option nat * option nat * option nat * option nat.
Let I := same_handles hs.

Lemma keeps_sdk {A} (serve : World -> A * World) :
  (forall w, handles (cam (snd (serve w))) = handles (cam w)) ->
  keeps I (sdk serve).
Proof.
  intros Hserve w Hw. unfold sdk.
  destruct (sdk_faults w) as [| [r |] fs].
  - specialize (Hserve w). destruct (serve w) as [a w']. simpl in *.
    unfold I, same_handles in *. congruence.
  - exact Hw.
  - specialize (Hserve (with_faults fs w)).
    destruct (serve (with_faults fs w)) as [a w']. simpl in *.
    unfold I, same_handles in *. congruence.
Qed.

Lemma keeps_sdk_read {A} (f : World -> A) : keeps I (sdk_read f).
Proof. apply keeps_sdk. reflexivity. Qed.

Lemma keeps_sdk_write (f : World -> World) :
  (forall w, handles (cam (f w)) = handles (cam w)) -> keeps I (sdk_write f).
Proof. intros H. apply keeps_sdk. exact H. Qed.

Lemma keeps_print line : keeps I (print line).
Proof. apply keeps_modify. intros w Hw. exact Hw. Qed.

Lemma keeps_the_stream attr : keeps I (the_stream attr).
Proof.
  intros w Hw. cbv beta iota delta [the_stream bind gets ret raise].
  destruct (data_stream (cam w)); exact Hw.
Qed.

Lemma keeps_the_nodemap attr : keeps I (the_nodemap attr).
Proof.
  intros w Hw. cbv beta iota delta [the_nodemap bind gets ret raise].
  destruct (remote_nodemap (cam w)); exact Hw.
Qed.

Lemma keeps_wait : keeps I stream_WaitForFinishedBuffer.
Proof.
  unfold stream_WaitForFinishedBuffer. apply keeps_bind.
  - apply keeps_the_stream.
  - intros _ w Hw. destruct (waits w) as [| [b fid | r] ws]; exact Hw.
Qed.

(** One rule after the other, until only calls of the SDK are left. *)
Ltac keeps_step :=
  lazymatch goal with
  | |- keeps _ (ret _) => exact (keeps_ret _ _)
  | |- keeps _ (raise _) => exact (keeps_raise _ _)
  | |- keeps _ hang => exact (keeps_hang _)
  | |- keeps _ (gets _) => exact (keeps_gets _ _)
  | |- keeps _ (print _) => exact (keeps_print _)
  | |- keeps _ (the_stream _) => exact (keeps_the_stream _)
  | |- keeps _ (the_nodemap _) => exact (keeps_the_nodemap _)
  | |- keeps _ stream_WaitForFinishedBuffer => exact keeps_wait
  | |- keeps _ (sdk_read _) => exact (keeps_sdk_read _)
  | |- keeps _ (sdk_write _) => refine (keeps_sdk_write _ _); reflexivity
  | |- keeps _ (sdk _) => refine (keeps_sdk _ _); reflexivity
  | |- keeps _ (modify _) => refine (keeps_modify _ _ _); intros ? Hkeep; exact Hkeep
  | |- keeps _ (when _ _) => refine (keeps_when _ _ _ _)
  | |- keeps _ (for_each _ _) => refine (keeps_for_each _ _ _ _); intros ?
  | |- keeps _ (bind _ _) => refine (keeps_bind _ _ _ _ _); [| intros ?]
  end.

Ltac keeps_all := repeat keeps_step.

Lemma keeps_revoke_buffers : keeps I revoke_buffers.
Proof.
  unfold revoke_buffers, stream_Flush, stream_AnnouncedBuffers, stream_RevokeBuffer.
  keeps_all.
Qed.

Lemma keeps_alloc_buffers : keeps I alloc_buffers.
Proof.
  unfold alloc_buffers, node_PayloadSize, stream_NumBuffersAnnouncedMinRequired,
    stream_AllocAndAnnounceBuffer, stream_QueueBuffer.
  keeps_all.
Qed.

Lemma keeps_loop_body : keeps I loop_body.
Proof.
  unfold loop_body. apply keeps_try_except.
  - unfold stream_QueueBuffer. keeps_all.
  - repeat constructor; intros e; simpl; keeps_all.
Qed.

Lemma keeps_while fuel : keeps I (while_acquisition_running fuel).
Proof.
  induction fuel as [| fuel IH]; simpl.
  - apply keeps_hang.
  - apply keeps_bind; [apply keeps_gets |]. intros running.
    destruct running; [| apply keeps_ret].
    apply keeps_bind; [apply keeps_loop_body |].
    intros [|]; [exact IH | apply keeps_ret].
Qed.

Lemma keeps_run_acquisition_loop : keeps I run_acquisition_loop.
Proof.
  unfold run_acquisition_loop, node_set_TLParamsLocked, stream_StartAcquisition,
    node_Execute, node_WaitUntilDone, stream_StopAcquisition.
  repeat first
    [ (intros w Hw; apply (keeps_while (loop_fuel w) w Hw))
    | keeps_step ].
Qed.

Lemma keeps_open_openable devs device : keeps I (open_openable devs device).
Proof.
  revert device. induction devs as [| dev rest IH]; intros device; simpl.
  - apply keeps_ret.
  - apply keeps_bind; [apply keeps_sdk_read |]. intros openable.
    destruct openable; [| apply IH].
    apply keeps_bind; [apply keeps_sdk_read |]. intros opened. apply IH.
Qed.

Lemma keeps_open_device : keeps I open_device.
Proof.
  unfold open_device.
  apply keeps_bind; [apply keeps_sdk_read |]. intros devs.
  apply keeps_bind; [apply keeps_open_openable |]. intros [d |]; keeps_all.
Qed.

Lemma keeps_enable_reconnect : keeps I enable_reconnect.
Proof.
  unfold enable_reconnect.
  apply keeps_bind; [apply keeps_gets |]. intros [d |]; [| apply keeps_raise].
  apply keeps_bind; [apply keeps_sdk_read |]. intros system_node_map.
  apply keeps_bind; [apply keeps_sdk_read |]. intros has_node.
  destruct has_node; simpl; [| apply keeps_raise].
  apply keeps_bind; [apply keeps_sdk_read |]. intros node.
  apply keeps_bind; [apply keeps_sdk_read |]. intros [| |]; keeps_all.
  destruct a; keeps_all.
Qed.

Lemma keeps_load_defaults : keeps I load_defaults.
Proof.
  unfold load_defaults, node_set_UserSetSelector, node_Execute, node_WaitUntilDone.
  keeps_all.
Qed.

Lemma keeps_manager_Update : keeps I manager_Update.
Proof. unfold manager_Update, device_found. keeps_all. Qed.

Lemma keeps_run_try_body : keeps I run_try_body.
Proof.
  unfold run_try_body, node_set_ExposureTime.
  repeat first
    [ apply keeps_manager_Update | apply keeps_open_device
    | apply keeps_enable_reconnect | apply keeps_load_defaults
    | apply keeps_alloc_buffers | apply keeps_run_acquisition_loop
    | apply keeps_revoke_buffers | keeps_step ].
Qed.

Lemma keeps_run_guarded : keeps I (try_except run_try_body run_handlers).
Proof.
  apply keeps_try_except.
  - apply keeps_run_try_body.
  - repeat constructor; intros e; simpl; keeps_all.
Qed.
End Handles.

(** ** The [finally] block *)

Lemma constructed_handles w :
  constructed w -> exists a b c d, handles (cam w) = (Some a, Some b, Some c, Some d).
Proof.
  intros H. unfold handles.
  pose proof (H CbFound) as H1. pose proof (H CbLost) as H2.
  pose proof (H CbReconnected) as H3. pose proof (H CbDisconnected) as H4.
  simpl in *.
  destruct (device_found_callback_handle (cam w)) as [a |]; [| congruence].
  destruct (device_lost_callback_handle (cam w)) as [b |]; [| congruence].
  destruct (device_reconnected_callback_handle (cam w)) as [c |]; [| congruence].
  destruct (device_disconnected_callback_handle (cam w)) as [d |]; [| congruence].
  exists a, b, c, d. reflexivity.
Qed.

Lemma not_in_after_unregister k h (reg : list (cb_kind * nat)) :
  ~ In (k, h) (filter (fun e => negb (cb_kind_eqb (fst e) k && Nat.eqb (snd e) h)) reg).
Proof.
  intros Hin. apply filter_In in Hin. destruct Hin as [_ Hb]. simpl in Hb.
  rewrite Nat.eqb_refl in Hb. destruct k; discriminate.
Qed.

Lemma not_in_filter {A} (f : A -> bool) x xs : ~ In x xs -> ~ In x (filter f xs).
Proof. intros H Hin. apply filter_In in Hin. tauto. Qed.

Lemma run_finally_cleans w a b c d :
  handles (cam w) = (Some a, Some b, Some c, Some d) ->
  exists w', run_finally w = (Ok tt, w') /\ unregistered w' /\ library_open w' = false.
Proof.
  intros Hh. destruct w as [cm lib mg re nm st fs ws out].
  destruct cm as [run dev rn ds hf hl hr hd]. unfold handles in Hh. simpl in Hh.
  inversion Hh; subst. eexists. split; [reflexivity |]. split; [| reflexivity].
  intros k h Hk. simpl in *. destruct k; simpl in Hk; inversion Hk; subst.
  - do 3 apply not_in_filter. apply not_in_after_unregister.
  - do 2 apply not_in_filter. apply not_in_after_unregister.
  - apply not_in_filter. apply not_in_after_unregister.
  - apply not_in_after_unregister.
Qed.



(** The four ways through [run], on sample worlds. *)
Example run_completes_normally :
  fst (run constructed_world) = Ok None /\
  registry (manager (snd (run constructed_world))) = [] /\
  library_open (snd (run constructed_world)) = false.
Proof. vm_compute. auto. Qed.

Example run_on_aborted_exception :
  fst (run aborting_world) = Ok None /\
  stdout (snd (run aborting_world))
  = ["Found-Device-Callback: Key=1409f4a1b2c3"; "Using Device U3-3040CP"; "Aborted"] /\
  registry (manager (snd (run aborting_world))) = [] /\
  library_open (snd (run aborting_world)) = false.
Proof. vm_compute. auto. Qed.

Example run_on_generic_exception :
  fst (run constructed_no_camera_world) = Ok (Some (-2)%Z) /\
  stdout (snd (run constructed_no_camera_world))
    = ["EXCEPTION: No device found. Exiting Program."] /\
  registry (manager (snd (run constructed_no_camera_world))) = [] /\
  library_open (snd (run constructed_no_camera_world)) = false.
Proof. vm_compute. auto. Qed.

Example run_on_user_interrupt :
  fst (run interrupted_world) = Raise (mk_exn KeyboardInterrupt "") /\
  registry (manager (snd (run interrupted_world))) = [] /\
  library_open (snd (run interrupted_world)) = false.
Proof. vm_compute. auto. Qed.

(** ** What [run] returns *)

Lemma hoare_any {S A} (m : M S A) :
  hoare (fun _ => True) m (fun _ _ => True) (fun _ => True).
Proof. intros s _. destruct (m s) as [[a | e |] s']; exact I. Qed.

Lemma run_try_body_value w v w' : run_try_body w = (Ok v, w') -> v = None.
Proof.
  intros H.
  assert (Hh : hoare (fun _ => True) run_try_body (fun v _ => v = None) (fun _ => True)).
  { unfold run_try_body.
    repeat (eapply hoare_bind; [apply hoare_any | intros ?]).
    apply hoare_ret. auto. }
  exact (hoare_ok _ _ _ _ _ _ _ Hh Logic.I H).
Qed.

(** C7, as the code has it.  On an object whose callbacks were
    registered, [run] returns [-2] exactly when its [try] body raised an
    exception that derives from [Exception] and is not the aborted
    exception of the SDK; it returns [None] when the body completed and
    when it raised the aborted exception; any other exception leaves
    [run]. *)
Theorem run_returns_minus_two w :
  constructed w ->
  fst (run w) =
    match fst (run_try_body w) with
    | Ok _ => Ok None
    | Raise e =>
        if isinstance e AbortedException then Ok None
        else if isinstance e Exception_ then Ok (Some (-2)%Z)
        else Raise e
    | Hang => Hang
    end.
Proof.
  intros Hc. destruct (constructed_handles w Hc) as (a & b & c & d & Hh).
  pose proof (keeps_run_try_body _ w Hh) as Hk.
  unfold run, try_finally, try_except.
  destruct (run_try_body w) as [[v | e |] w1] eqn:Hb; cbn [fst].
  - apply run_try_body_value in Hb. subst v.
    destruct (run_finally_cleans w1 a b c d Hk) as (w2 & Hf & _). rewrite Hf.
    reflexivity.
  - simpl select.
    destruct (isinstance e AbortedException); cbn [orb].
    + cbv beta iota delta [bind print modify ret].
      match goal with |- context [run_finally ?x] =>
        destruct (run_finally_cleans x a b c d Hk) as (w2 & Hf & _); rewrite Hf
      end.
      reflexivity.
    + destruct (isinstance e Exception_); cbn [orb].
      * cbv beta iota delta [bind print modify ret].
        match goal with |- context [run_finally ?x] =>
          destruct (run_finally_cleans x a b c d Hk) as (w2 & Hf & _); rewrite Hf
        end.
        reflexivity.
      * destruct (run_finally_cleans w1 a b c d Hk) as (w2 & Hf & _). rewrite Hf.
        reflexivity.
  - reflexivity.
Qed.

Lemma run_returns_minus_two_witness :
  fst (run constructed_no_camera_world) =
    match fst (run_try_body constructed_no_camera_world) with
    | Ok _ => Ok None
    | Raise e =>
        if isinstance e AbortedException then Ok None
        else if isinstance e Exception_ then Ok (Some (-2)%Z)
        else Raise e
    | Hang => Hang
    end.
Proof.
  apply (run_returns_minus_two constructed_no_camera_world).
  intros k. destruct k; simpl; discriminate.
Defined.

(** C7, as the specification states it, fails: with no camera attached
    the [try] body raises a plain [Exception], [run] returns [-2], the
    script drops that value, and the interpreter exits with 0. *)
Lemma exit_code_is_not_minus_two :
  fst (run_try_body constructed_no_camera_world)
    = Raise (mk_exn Exception_ "No device found. Exiting Program.") /\
  fst (run constructed_no_camera_world) = Ok (Some (-2)%Z) /\
  process_exit no_camera_world = Exits 0 /\
  process_exit no_camera_world <> Exits (-2).
Proof.
  repeat split; try (vm_compute; reflexivity).
  vm_compute. discriminate.
Qed.

End RunSpec.

(* ===================================================================== *)
(** * main.py: the properties of the steps *)
(* ===================================================================== *)

Module OrchestratorSpec.
Import Orchestrator PyLogic.

Lemma subprocess_run_completed env cmd s p :
  subprocess_result env (List.length (actions s)) cmd = Completed p ->
  subprocess_run env cmd s = (Ok p, mk_state (actions s ++ [Subprocess cmd]) (printed s)).
Proof.
  intros H. cbv beta iota delta [subprocess_run bind gets act modify ret raise].
  cbn [actions printed]. rewrite H. reflexivity.
Qed.

Lemma report_run ok_line fail_line p s :
  report ok_line fail_line p s
    = (Ok tt, mk_state (actions s) (printed s ++ lines ok_line fail_line p)).
Proof.
  unfold report, lines.
  destruct (returncode p =? 0)%Z;
    cbv beta iota delta [bind print modify]; cbn [actions printed];
    rewrite <- app_assoc; reflexivity.
Qed.

Lemma step_block_completed env cmd ok_line fail_line s p :
  subprocess_result env (List.length (actions s)) cmd = Completed p ->
  step_block env cmd ok_line fail_line s
    = (Ok tt, mk_state (actions s ++ [Subprocess cmd])
                       (printed s ++ lines ok_line fail_line p)).
Proof.
  intros H. cbv beta iota delta [step_block try_except bind].
  rewrite (subprocess_run_completed env cmd s p H). rewrite report_run. reflexivity.
Qed.

Lemma record_svo_completed env file cmd s p :
  subprocess_result env (List.length (actions s)) cmd = Completed p ->
  exists banner,
    in_child_process (record_svo env file cmd) s
      = (Ok tt, mk_state (actions s ++ [Subprocess cmd])
                         (printed s ++ banner ::
                            lines "Recording execution successful!"
                                  "Recording execution failed." p)).
Proof.
  intros H. eexists.
  cbv beta iota delta [in_child_process record_svo try_except bind print modify ret].
  match goal with |- context [subprocess_run env cmd ?st] =>
    rewrite (subprocess_run_completed env cmd st p H)
  end.
  rewrite report_run. cbn [actions printed]. rewrite <- app_assoc. reflexivity.
Qed.

(** ** The bookkeeping of the blocks *)

Lemma subprocess_calls_app s a :
  subprocess_calls (mk_state (actions s ++ [a]) (printed s))
    = subprocess_calls s ++ match a with Subprocess c => [c] | RecordHsi _ _ => [] end.
Proof.
  unfold subprocess_calls. cbn [actions]. rewrite flat_map_app. simpl.
  rewrite app_nil_r. reflexivity.
Qed.

Lemma progress_after_child env done s cmd p (out : list string) :
  progress env done s ->
  subprocess_result env (List.length (actions s)) cmd = Completed p ->
  (returncode p <> 0%Z -> In (proc_stderr p) out) ->
  progress env (done ++ [cmd])
           (mk_state (actions s ++ [Subprocess cmd]) (printed s ++ out)).
Proof.
  intros [Hrep Hcalls] Hres Hout. split.
  - intros i c q Hnth Hq Hrc. cbn [actions printed] in *.
    apply in_or_app.
    destruct (Nat.lt_ge_cases i (List.length (actions s))) as [Hlt | Hge].
    + rewrite nth_error_app1 in Hnth by exact Hlt.
      left. eapply Hrep; eauto.
    + rewrite nth_error_app2 in Hnth by exact Hge.
      destruct (i - List.length (actions s)) as [| k] eqn:Hk.
      * simpl in Hnth. inversion Hnth; subst c.
        assert (i = List.length (actions s)) by lia. subst i.
        rewrite Hres in Hq. inversion Hq; subst q. right. auto.
      * simpl in Hnth. destruct k; discriminate.
  - unfold subprocess_calls in *. cbn [actions]. rewrite flat_map_app, Hcalls.
    simpl. reflexivity.
Qed.

Lemma lines_report ok_line fail_line p :
  returncode p <> 0%Z -> In (proc_stderr p) (lines ok_line fail_line p).
Proof.
  intros H. unfold lines. apply Z.eqb_neq in H. rewrite H. simpl. auto.
Qed.

Section Blocks.
Variable env : Env.
Hypothesis Hexit : children_exit env.

Lemma step_block_spec cmd ok_line fail_line done :
  hoare (progress env done) (step_block env cmd ok_line fail_line)
        (fun _ => progress env (done ++ [cmd])) never.
Proof.
  intros s Hs. destruct (Hexit (List.length (actions s)) cmd) as [p Hp].
  rewrite (step_block_completed env cmd ok_line fail_line s p Hp).
  apply (progress_after_child env done s cmd p); auto. apply lines_report.
Qed.

Lemma export_block_spec done :
  hoare (progress env done) (export_block env)
        (fun _ => progress env (done ++ [command_export])) never.
Proof. apply step_block_spec. Qed.

Lemma mesh_post_block_spec done :
  hoare (progress env done) (mesh_post_block env)
        (fun _ => progress env (done ++ [command_mesh_post])) never.
Proof. apply step_block_spec. Qed.

Lemma progress_print done line s :
  progress env done s -> progress env done (mk_state (actions s) (printed s ++ [line])).
Proof.
  intros [Hrep Hcalls]. split; [| exact Hcalls].
  intros i c p Hn Hr Hrc. cbn [actions printed] in *.
  apply in_or_app. left. eapply Hrep; eauto.
Qed.

Lemma pose_post_block_spec done :
  hoare (progress env done) (pose_post_block env)
        (fun _ => progress env (done ++ [command_pose_post])) never.
Proof.
  unfold pose_post_block. eapply hoare_bind.
  - apply hoare_modify with (Q := progress env done).
    intros s Hs. apply progress_print. exact Hs.
  - intros []. apply step_block_spec.
Qed.

Lemma record_svo_spec file cmd done :
  hoare (progress env done) (in_child_process (record_svo env file cmd))
        (fun _ => progress env (done ++ [cmd])) never.
Proof.
  intros s Hs. destruct (Hexit (List.length (actions s)) cmd) as [p Hp].
  destruct (record_svo_completed env file cmd s p Hp) as [banner Hrun].
  rewrite Hrun. apply (progress_after_child env done s cmd p); auto.
  intros Hrc. right. apply lines_report. exact Hrc.
Qed.

Lemma record_hsi_spec lines_ dir done :
  record_hsi_raises env = None ->
  hoare (progress env done) (record_hsi env lines_ dir)
        (fun _ => progress env done) never.
Proof.
  intros Hn s [Hrep Hcalls].
  cbv beta iota delta [record_hsi bind act modify]. rewrite Hn. simpl. split.
  - intros i c p Hnth Hr Hrc. cbn [actions printed] in *.
    destruct (Nat.lt_ge_cases i (List.length (actions s))) as [Hlt | Hge].
    + rewrite nth_error_app1 in Hnth by exact Hlt. eapply Hrep; eauto.
    + rewrite nth_error_app2 in Hnth by exact Hge.
      destruct (i - List.length (actions s)) as [| [| k]]; discriminate.
  - unfold subprocess_calls in *. cbn [actions]. rewrite flat_map_app, Hcalls.
    simpl. apply app_nil_r.
Qed.

Lemma skip_spec (P : State -> Prop) : hoare P (ret tt) (fun _ => P) never.
Proof. apply hoare_ret. auto. Qed.

(** One block after the other. *)
Ltac blocks Hhsi :=
  lazymatch goal with
  | |- hoare _ (bind _ _) _ _ =>
      eapply hoare_bind; [blocks Hhsi | intros []; blocks Hhsi]
  | |- hoare _ (ret tt) _ _ => exact (skip_spec _)
  | |- hoare _ (record_hsi _ _ _) _ _ =>
      exact (record_hsi_spec _ _ _ (Hhsi eq_refl))
  | |- hoare _ (in_child_process _) _ _ => exact (record_svo_spec _ _ _)
  | |- hoare _ (export_block _) _ _ => exact (export_block_spec _)
  | |- hoare _ (pose_post_block _) _ _ => exact (pose_post_block_spec _)
  | |- hoare _ (mesh_post_block _) _ _ => exact (mesh_post_block_spec _)
  end.

(** The steps run to their end and call the configured commands, in
    order, each child that failed being reported. *)
Lemma steps_run d t :
  (record d && record_hsi_on d = true -> record_hsi_raises env = None) ->
  hoare (progress env []) (steps d env t)
        (fun _ => progress env (configured d t)) never.
Proof.
  intros Hhsi. destruct d as [r rs rh pp ex mp].
  unfold steps, configured.
  cbn [record record_svo_on record_hsi_on pose_post export mesh_post] in *.
  destruct r, rs, rh, pp, ex, mp; cbn [when andb app] in *; blocks Hhsi.
Qed.

Lemma progress_initial : progress env [] initial.
Proof.
  split; [| reflexivity]. intros i c p Hn. destruct i; discriminate.
Qed.

Lemma steps_from_initial d t :
  (record d && record_hsi_on d = true -> record_hsi_raises env = None) ->
  fst (steps d env t initial) = Ok tt /\
  progress env (configured d t) (snd (steps d env t initial)).
Proof.
  intros Hhsi. pose proof (steps_run d t Hhsi initial progress_initial) as H.
  destruct (steps d env t initial) as [[[] | e |] s]; simpl; try contradiction.
  auto.
Qed.
End Blocks.

(** C8.  Whatever the exit codes of the children are, no exception
    leaves the steps: they run to their end, every configured subprocess
    command is called, in the order of the script, and the captured
    stderr of every child that exited with a nonzero code is printed.
    (The in-process hyperspectral capture, when it is switched on, is
    taken not to raise.) *)
Theorem failed_children_do_not_stop_the_steps d env t :
  children_exit env ->
  (record d && record_hsi_on d = true -> record_hsi_raises env = None) ->
  fst (steps d env t initial) = Ok tt /\
  subprocess_calls (snd (steps d env t initial)) = configured d t /\
  reported env (snd (steps d env t initial)).
Proof.
  intros Hexit Hhsi.
  destruct (steps_from_initial env Hexit d t Hhsi) as (Hok & Hrep & Hcalls).
  auto.
Qed.

Lemma failed_children_do_not_stop_the_steps_witness :
  fst (steps all_steps failing_env "1730714420.5" initial) = Ok tt /\
  subprocess_calls (snd (steps all_steps failing_env "1730714420.5" initial))
    = configured all_steps "1730714420.5" /\
  reported failing_env (snd (steps all_steps failing_env "1730714420.5" initial)).
Proof.
  apply (failed_children_do_not_stop_the_steps all_steps failing_env "1730714420.5").
  - intros n c. eexists. reflexivity.
  - reflexivity.
Defined.

(** With every step on and every child failing, five commands are
    called and each failure is printed. *)
Example all_steps_failing :
  List.length (subprocess_calls (snd (steps all_steps failing_env "0" initial))) = 5 /\
  List.length (filter (String.eqb "Traceback: camera not found")
                 (printed (snd (steps all_steps failing_env "0" initial)))) = 5.
Proof. vm_compute. auto. Qed.

(** The table of the script runs the in-process capture only. *)
Example steps_of_the_script :
  actions (snd (steps process_dict failing_env "0" initial))
    = [RecordHsi 500 "captured_data/black_white_lines/hsi_dir"].
Proof. vm_compute. reflexivity. Qed.

(** C10.  With the mesh step switched on, the mesh command is passed to
    [subprocess.run] exactly twice. *)
Theorem mesh_command_is_invoked_twice d env t :
  mesh_post d = true ->
  children_exit env ->
  (record d && record_hsi_on d = true -> record_hsi_raises env = None) ->
  times_invoked command_mesh_post (snd (steps d env t initial)) = 2.
Proof.
  intros Hmesh Hexit Hhsi.
  destruct (steps_from_initial env Hexit d t Hhsi) as (_ & _ & Hcalls).
  unfold times_invoked. rewrite Hcalls. unfold configured. rewrite Hmesh.
  destruct (record d), (record_svo_on d), (export d), (pose_post d);
    vm_compute; reflexivity.
Qed.

Lemma mesh_command_is_invoked_twice_witness :
  times_invoked command_mesh_post
    (snd (steps all_steps failing_env "1730714420.5" initial)) = 2.
Proof.
  apply (mesh_command_is_invoked_twice all_steps failing_env "1730714420.5").
  - reflexivity.
  - intros n c. eexists. reflexivity.
  - reflexivity.
Defined.

End OrchestratorSpec.

(* ===================================================================== *)
(** * zed/position_post.py: the pose file *)
(* ===================================================================== *)

Module PositionPostSpec.
Import PositionPost.

Section Floats.
Variable float : Type.
Variable round3 : float -> float.

Lemma successes_app (xs ys : list (grab_result float)) :
  successes (xs ++ ys) = successes xs ++ successes ys.
Proof. unfold successes. apply flat_map_app. Qed.

(** When the loop ends it has used a prefix of the grabs, has added
    one row per successful grab of that prefix, in order, and has
    counted [i] up to [nb] by them. *)
Lemma grab_loop_rows gs : forall i nb (df df' : DataFrame float),
  grab_loop round3 gs i nb df = Some df' ->
  exists used rest,
    gs = used ++ rest /\
    columns df' = columns df /\
    rows df' = rows df ++ map (new_data round3) (successes used) /\
    Z.of_nat (List.length (successes used)) = Z.max 0 (nb - i).
Proof.
  induction gs as [| g gs IH]; intros i nb df df' H; simpl in H.
  - destruct (i <? nb)%Z eqn:Hlt; [discriminate |].
    inversion H; subst. exists [], []. simpl. rewrite app_nil_r.
    apply Z.ltb_ge in Hlt. repeat split; auto. lia.
  - destruct (i <? nb)%Z eqn:Hlt.
    + apply Z.ltb_lt in Hlt. destruct g as [p |].
      * destruct (IH _ _ _ _ H) as (used & rest & -> & Hc & Hr & Hn).
        exists (GrabSuccess p :: used), rest. simpl in *.
        repeat split; auto.
        -- rewrite Hr, <- app_assoc. reflexivity.
        -- lia.
      * destruct (IH _ _ _ _ H) as (used & rest & -> & Hc & Hr & Hn).
        exists (GrabFailure :: used), rest. simpl. auto.
    + inversion H; subst. exists [], (g :: gs). simpl. rewrite app_nil_r.
      apply Z.ltb_ge in Hlt. repeat split; auto. lia.
Qed.

(** The loop ends when the recording delivers enough frames. *)
Lemma grab_loop_ends gs : forall i nb (df : DataFrame float),
  (nb - i <= Z.of_nat (List.length (successes gs)))%Z ->
  exists df', grab_loop round3 gs i nb df = Some df'.
Proof.
  induction gs as [| g gs IH]; intros i nb df H; simpl in *.
  - destruct (i <? nb)%Z eqn:Hlt; eauto. apply Z.ltb_lt in Hlt. lia.
  - destruct (i <? nb)%Z eqn:Hlt; eauto. apply Z.ltb_lt in Hlt.
    destruct g as [p |]; apply IH; simpl in H; lia.
Qed.

Lemma index_rows_nth (rs : list (list (cell float))) : forall i j r,
  nth_error rs j = Some r ->
  nth_error (index_rows i rs) j = Some (CInt (i + Z.of_nat j) :: r).
Proof.
  induction rs as [| r0 rs IH]; intros i j r H.
  - destruct j; discriminate.
  - destruct j as [| j]; simpl in *.
    + inversion H; subst. rewrite Z.add_0_r. reflexivity.
    + rewrite (IH (i + 1)%Z j r H). f_equal. f_equal. f_equal. lia.
Qed.

Lemma index_rows_length (rs : list (list (cell float))) : forall i,
  List.length (index_rows i rs) = List.length rs.
Proof. induction rs as [| r0 rs IH]; intros i; simpl; auto. Qed.

End Floats.


End PositionPostSpec.

(* ===================================================================== *)
(** * ids/record_frames.py: further properties of the methods *)
(* ===================================================================== *)

Module RecordFramesExtra.
Import RecordFrames RecordFramesProps PyLogic RecordFramesFacts.

(** ** Callbacks *)

Lemma filter_keeps_all {A} (f : A -> bool) (l : list A) :
  Forall (fun x => f x = true) l -> filter f l = l.
Proof.
  induction 1 as [| x l Hx _ IH]; simpl; [reflexivity |].
  rewrite Hx, IH. reflexivity.
Qed.

Lemma unregister_keeps_older k n (reg : list (cb_kind * nat)) :
  Forall (fun e => snd e < n) reg ->
  filter (fun e => negb (cb_kind_eqb (fst e) k && Nat.eqb (snd e) n)) reg = reg.
Proof.
  intros H. apply filter_keeps_all. eapply Forall_impl; [| exact H].
  intros [k' h] Hlt. simpl in *.
  assert (Hne : Nat.eqb h n = false) by (apply Nat.eqb_neq; lia).
  rewrite Hne, andb_false_r. reflexivity.
Qed.

(** X1.  Registering the four callbacks and unregistering them again
    leaves the registry of the device manager as it was: the callbacks of
    other objects stay registered, in their order. *)
Theorem register_then_unregister_restores_registry w :
  fresh_handles w ->
  fst (unregister_callbacks (snd (register_callbacks w))) = Ok tt /\
  registry (manager (snd (unregister_callbacks (snd (register_callbacks w)))))
    = registry (manager w).
Proof.
  intros Hfresh. destruct w as [cm lib [reg n devs] re nm st fs ws out].
  unfold fresh_handles in Hfresh. simpl in Hfresh.
  split; [reflexivity |].
  unfold register_callbacks, unregister_callbacks.
  cbv beta iota zeta delta [bind register unregister modify the_handle gets ret].
  simpl.
  rewrite <- !app_assoc. simpl app.
  rewrite filter_app, (unregister_keeps_older CbFound n reg Hfresh).
  simpl; rewrite ?Nat.eqb_refl; simpl.
  rewrite filter_app, (unregister_keeps_older CbLost (S n) reg)
    by (eapply Forall_impl; [| exact Hfresh]; simpl; intros; lia).
  simpl; rewrite ?Nat.eqb_refl; simpl.
  rewrite filter_app, (unregister_keeps_older CbReconnected (S (S n)) reg)
    by (eapply Forall_impl; [| exact Hfresh]; simpl; intros; lia).
  simpl; rewrite ?Nat.eqb_refl; simpl.
  rewrite filter_app, (unregister_keeps_older CbDisconnected (S (S (S n))) reg)
    by (eapply Forall_impl; [| exact Hfresh]; simpl; intros; lia).
  simpl; rewrite ?Nat.eqb_refl; simpl.
  apply app_nil_r.
Qed.

Lemma register_then_unregister_restores_registry_witness :
  fst (unregister_callbacks (snd (register_callbacks shared_manager_world))) = Ok tt /\
  registry (manager (snd (unregister_callbacks (snd (register_callbacks shared_manager_world)))))
    = registry (manager shared_manager_world).
Proof.
  apply (register_then_unregister_restores_registry shared_manager_world).
  unfold fresh_handles. simpl. repeat constructor; simpl; lia.
Defined.

(** ** Calls that are served *)

Lemma bind_ok {S A B} (m : M S A) (k : A -> M S B) s a s1 :
  m s = (Ok a, s1) -> bind m k s = k a s1.
Proof. intros H. unfold bind. rewrite H. reflexivity. Qed.

Lemma bind_raise {S A B} (m : M S A) (k : A -> M S B) s e s1 :
  m s = (Raise e, s1) -> bind m k s = (Raise e, s1).
Proof. intros H. unfold bind. rewrite H. reflexivity. Qed.

Lemma quiet_with_faults w fs : quiet w -> rest_of w fs -> quiet (with_faults fs w).
Proof. intros Hq Hr. exact (quiet_rest w fs Hq Hr). Qed.

(** With no fault to come, an SDK call is served, and no fault is to come
    after it. *)
Lemma sdk_quiet {A} (serve : World -> A * World) w :
  quiet w ->
  exists fs, quiet (with_faults fs w) /\
             sdk serve w = (Ok (fst (serve (with_faults fs w))),
                            snd (serve (with_faults fs w))).
Proof.
  intros Hq. unfold sdk. destruct (sdk_faults w) as [| [r |] fs] eqn:Hf.
  - exists []. split.
    + apply quiet_with_faults; [exact Hq | left; exact Hf].
    + rewrite <- Hf, with_faults_same. destruct (serve w); reflexivity.
  - unfold quiet in Hq. rewrite Hf in Hq. inversion Hq; discriminate.
  - exists fs. split.
    + apply quiet_with_faults; [exact Hq | right; exact Hf].
    + destruct (serve (with_faults fs w)); reflexivity.
Qed.

(** ** [open_device] *)

Lemma open_openable_quiet devs : forall device w,
  quiet w ->
  exists fs, quiet (with_faults fs w) /\
    open_openable devs device w
      = (Ok (fold_left (fun acc d => if dev_openable d then Some d else acc) devs device),
         with_faults fs w).
Proof.
  induction devs as [| dev rest IH]; intros device w Hq; simpl.
  - exists (sdk_faults w). rewrite with_faults_same. auto.
  - destruct (sdk_quiet (fun w0 => (dev_openable dev, w0)) w Hq) as (fs1 & Hq1 & E1).
    unfold sdk_read at 1. rewrite (bind_ok _ _ _ _ _ E1). cbn [fst snd].
    destruct (dev_openable dev).
    + destruct (sdk_quiet (fun w0 => (dev, w0)) _ Hq1) as (fs2 & Hq2 & E2).
      unfold sdk_read at 1. rewrite (bind_ok _ _ _ _ _ E2). cbn [fst snd].
      destruct (IH (Some dev) _ Hq2) as (fs3 & Hq3 & E3).
      exists fs3. split; [exact Hq3 | exact E3].
    + destruct (IH device _ Hq1) as (fs3 & Hq3 & E3).
      exists fs3. split; [exact Hq3 | exact E3].
Qed.

Lemma pick_none devs :
  Forall (fun x => dev_openable x = false) devs ->
  forall acc,
    fold_left (fun acc d => if dev_openable d then Some d else acc) devs acc = acc.
Proof.
  induction 1 as [| d devs Hd _ IH]; intros acc; simpl; [reflexivity |].
  rewrite Hd. apply IH.
Qed.

Lemma pick_last devs d :
  last_openable devs d ->
  forall acc,
    fold_left (fun acc d => if dev_openable d then Some d else acc) devs acc = Some d.
Proof.
  intros (before & after & -> & Hd & Hafter) acc.
  rewrite fold_left_app. simpl. rewrite Hd. apply pick_none. exact Hafter.
Qed.

Lemma open_device_none_run w :
  quiet w ->
  Forall (fun d => dev_openable d = false) (devices (manager w)) ->
  exists fs,
    open_device w = (Raise (mk_exn Exception_ "No device found. Exiting Program."),
                     with_faults fs w).
Proof.
  intros Hq Hnone. unfold open_device.
  destruct (sdk_quiet (fun w0 => (devices (manager w0), w0)) w Hq) as (fs1 & Hq1 & E1).
  unfold sdk_read at 1. rewrite (bind_ok _ _ _ _ _ E1). cbn [fst snd].
  change (devices (manager (with_faults fs1 w))) with (devices (manager w)).
  destruct (open_openable_quiet (devices (manager w)) None _ Hq1)
    as (fs2 & Hq2 & E2).
  rewrite (bind_ok _ _ _ _ _ E2).
  rewrite (pick_none _ Hnone None). exists fs2. reflexivity.
Qed.

(** X2.  When the SDK serves every call and none of the devices can be
    opened, [open_device] raises the exception "No device found. Exiting
    Program." and leaves the object, the node map and the stream as they
    were. *)
Theorem open_device_without_openable_device w :
  quiet w ->
  Forall (fun d => dev_openable d = false) (devices (manager w)) ->
  fst (open_device w) = Raise (mk_exn Exception_ "No device found. Exiting Program.") /\
  cam (snd (open_device w)) = cam w /\
  stream (snd (open_device w)) = stream w /\
  nodemap (snd (open_device w)) = nodemap w.
Proof.
  intros Hq Hnone. destruct (open_device_none_run w Hq Hnone) as (fs & E).
  rewrite E. repeat split; reflexivity.
Qed.

Lemma open_device_without_openable_device_witness :
  fst (open_device busy_camera_world)
    = Raise (mk_exn Exception_ "No device found. Exiting Program.") /\
  cam (snd (open_device busy_camera_world)) = cam busy_camera_world /\
  stream (snd (open_device busy_camera_world)) = stream busy_camera_world /\
  nodemap (snd (open_device busy_camera_world)) = nodemap busy_camera_world.
Proof.
  apply (open_device_without_openable_device busy_camera_world).
  - unfold quiet. simpl. constructor.
  - simpl. repeat constructor.
Defined.

Lemma open_device_last_run w d :
  quiet w ->
  last_openable (devices (manager w)) d ->
  exists w', open_device w = (Ok tt, w') /\
             (device (cam w') = Some d /\
              remote_nodemap (cam w') = true /\
              data_stream (cam w') = true) /\
             quiet w' /\ reconnect_enable w' = reconnect_enable w.
Proof.
  intros Hq Hlast. unfold open_device.
  destruct (sdk_quiet (fun w0 => (devices (manager w0), w0)) w Hq) as (fs1 & Hq1 & E1).
  unfold sdk_read at 1. rewrite (bind_ok _ _ _ _ _ E1). cbn [fst snd].
  change (devices (manager (with_faults fs1 w))) with (devices (manager w)).
  destruct (open_openable_quiet (devices (manager w)) None _ Hq1)
    as (fs2 & Hq2 & E2).
  rewrite (bind_ok _ _ _ _ _ E2).
  rewrite (pick_last _ d Hlast None).
  rewrite (bind_ok _ _ _ tt (with_cam (set_device (Some d)) (with_faults fs2 (with_faults fs1 w))))
    by reflexivity.
  match goal with |- context [sdk_read ?f] =>
    destruct (sdk_quiet (fun w0 => (f w0, w0))
                (with_cam (set_device (Some d)) (with_faults fs2 (with_faults fs1 w))) Hq2)
      as (fs3 & Hq3 & E3)
  end.
  unfold sdk_read at 1. rewrite (bind_ok _ _ _ _ _ E3). cbn [fst snd].
  match goal with |- context [bind (print ?l) ?k ?x] =>
    rewrite (bind_ok (print l) k x tt (with_stdout (fun out => out ++ [l]) x)) by reflexivity
  end.
  match goal with |- context [bind (sdk_write ?f) ?k ?x] =>
    destruct (sdk_quiet (fun w0 => (tt, f w0)) x Hq3) as (fs4 & Hq4 & E4)
  end.
  unfold sdk_write at 1. rewrite (bind_ok _ _ _ _ _ E4). cbn [fst snd].
  match goal with |- context [sdk_write ?f ?x] =>
    destruct (sdk_quiet (fun w0 => (tt, f w0)) x Hq4) as (fs5 & Hq5 & E5)
  end.
  unfold sdk_write. rewrite E5. eexists. split; [reflexivity |].
  split; [repeat split; reflexivity |]. split; [exact Hq5 | reflexivity].
Qed.

(** X3.  When the SDK serves every call, [open_device] ends with the last
    device of the list that can be opened as the device of the object (not
    the first one), with its node map and its data stream set. *)
Theorem open_device_uses_the_last_openable_device w d :
  quiet w ->
  last_openable (devices (manager w)) d ->
  fst (open_device w) = Ok tt /\
  device (cam (snd (open_device w))) = Some d /\
  remote_nodemap (cam (snd (open_device w))) = true /\
  data_stream (cam (snd (open_device w))) = true.
Proof.
  intros Hq Hlast. destruct (open_device_last_run w d Hq Hlast) as (w' & E & H & _).
  rewrite E. split; [reflexivity | exact H].
Qed.

Lemma open_device_uses_the_last_openable_device_witness :
  fst (open_device three_camera_world) = Ok tt /\
  device (cam (snd (open_device three_camera_world))) = Some second_camera /\
  remote_nodemap (cam (snd (open_device three_camera_world))) = true /\
  data_stream (cam (snd (open_device three_camera_world))) = true.
Proof.
  apply (open_device_uses_the_last_openable_device three_camera_world second_camera).
  - unfold quiet. simpl. constructor.
  - exists [first_camera], [busy_camera]. simpl. repeat constructor.
Defined.

(** ** Calls on the stream and on the node map, in both readings *)

Lemma stream_call strict {A} attr (serve : World -> A * World)
    (P : World -> Prop) (Q : A -> World -> Prop) :
  (forall w, cam (snd (serve w)) = cam w /\
             sdk_faults (snd (serve w)) = sdk_faults w) ->
  (forall w fs, P w ->
     Q (fst (serve (with_faults fs w))) (snd (serve (with_faults fs w)))) ->
  hoare (fun w => guard strict w /\ P w) (the_stream attr ;; sdk serve)
        (fun a w => guard strict w /\ Q a w) (exc strict).
Proof.
  intros Hserve HQ. apply hoare_the_stream.
  - apply hoare_sdk.
    + intros w fs [Hg HP] Hr. split; [| apply HQ; exact HP].
      destruct (Hserve (with_faults fs w)) as [Hc Hf].
      apply (guard_served strict w fs (fun x => snd (serve x))); auto.
    + intros w r fs [Hg _] Hf. exact (guard_no_fault _ _ _ _ Hg Hf).
  - intros w [Hg _] Hd. exact (guard_stream _ _ Hg Hd).
Qed.

Lemma nodemap_call strict {A} attr (serve : World -> A * World)
    (P : World -> Prop) (Q : A -> World -> Prop) :
  (forall w, cam (snd (serve w)) = cam w /\
             sdk_faults (snd (serve w)) = sdk_faults w) ->
  (forall w fs, P w ->
     Q (fst (serve (with_faults fs w))) (snd (serve (with_faults fs w)))) ->
  hoare (fun w => guard strict w /\ P w) (the_nodemap attr ;; sdk serve)
        (fun a w => guard strict w /\ Q a w) (exc strict).
Proof.
  intros Hserve HQ. apply hoare_the_nodemap.
  - apply hoare_sdk.
    + intros w fs [Hg HP] Hr. split; [| apply HQ; exact HP].
      destruct (Hserve (with_faults fs w)) as [Hc Hf].
      apply (guard_served strict w fs (fun x => snd (serve x))); auto.
    + intros w r fs [Hg _] Hf. exact (guard_no_fault _ _ _ _ Hg Hf).
  - intros w [Hg _] Hd. exact (guard_nodemap _ _ Hg Hd).
Qed.

Lemma print_call strict line (P Q : World -> Prop) :
  (forall w, P w -> Q (with_stdout (fun out => out ++ [line]) w)) ->
  hoare (fun w => guard strict w /\ P w) (print line)
        (fun _ w => guard strict w /\ Q w) (exc strict).
Proof.
  intros H. apply hoare_modify. intros w [Hg HP]. split; [| apply H; exact HP].
  intros Hs. exact (Hg Hs).
Qed.

(** ** [enable_reconnect] *)

Lemma enable_reconnect_post :
  hoare (fun _ => True) enable_reconnect
        (fun _ w => exists status, reconnect_enable w = Some (status, true))
        (fun _ => True).
Proof.
  unfold enable_reconnect.
  eapply hoare_bind; [apply RunSpec.hoare_any |]. intros [d |];
    [| apply hoare_raise; auto].
  eapply hoare_bind; [apply RunSpec.hoare_any |]. intros system_node_map.
  eapply hoare_bind; [apply RunSpec.hoare_any |]. intros has_node.
  destruct (negb has_node); [apply hoare_raise; auto |].
  eapply hoare_bind; [apply RunSpec.hoare_any |]. intros node.
  eapply hoare_bind; [apply RunSpec.hoare_any |]. intros [| |].
  - unfold sdk_write. apply hoare_sdk; [| auto].
    intros w fs _ _. exists ReadWrite. reflexivity.
  - eapply hoare_bind with
      (Q := fun v w => v = match reconnect_enable w with
                           | Some (_, x) => x
                           | None => false
                           end).
    + unfold sdk_read. apply hoare_sdk; [| auto]. intros w fs _ _. reflexivity.
    + intros [|].
      * apply hoare_ret. intros w Hv.
        destruct (reconnect_enable w) as [[status v] |]; [| discriminate].
        exists status. congruence.
      * apply hoare_raise. auto.
  - apply hoare_raise. auto.
Qed.

(** X4.  Whenever [enable_reconnect] returns, the node ReconnectEnable of
    the system exists and holds the value true. *)
Theorem enable_reconnect_returns_only_when_enabled w w' :
  enable_reconnect w = (Ok tt, w') ->
  exists status, reconnect_enable w' = Some (status, true).
Proof.
  intros H. exact (hoare_ok _ _ _ _ _ _ _ enable_reconnect_post Logic.I H).
Qed.

Lemma enable_reconnect_returns_only_when_enabled_witness :
  exists status,
    reconnect_enable (snd (enable_reconnect stale_world)) = Some (status, true).
Proof.
  apply (enable_reconnect_returns_only_when_enabled stale_world
           (snd (enable_reconnect stale_world))).
  reflexivity.
Defined.

(** ** The loop *)

Lemma loop_body_result w c w1 :
  loop_body w = (Ok c, w1) ->
  cam w1 = cam w /\ nodemap w1 = nodemap w /\
  announced (stream w1) = announced (stream w) /\
  grabbing (stream w1) = grabbing (stream w) /\
  (c = Break -> exists out, stdout w1 = out ++ ["Keyboard interrupt."]).
Proof.
  destruct w as [cm lib mg re nm st fs ws out].
  cbv beta iota delta [loop_body try_except bind stream_WaitForFinishedBuffer
    stream_QueueBuffer the_stream gets ret raise print modify sdk_write sdk
    cam waits sdk_faults with_waits with_stream with_stdout with_faults].
  destruct (data_stream cm) eqn:Hd; simpl.
  - destruct ws as [| [b fid | [cl msg |]] ws]; simpl; try discriminate.
    + destruct fs as [| [[cl msg |] |] fs]; simpl; rewrite ?Hd; simpl.
      * intros H; inversion H; subst. repeat split; auto. discriminate.
      * destruct cl; simpl; intros H; inversion H; subst;
          repeat split; auto; discriminate.
      * intros H; inversion H; subst. repeat split; auto.
        intros _. eexists. reflexivity.
      * intros H; inversion H; subst. repeat split; auto. discriminate.
    + destruct cl; simpl; intros H; inversion H; subst;
        repeat split; auto; discriminate.
    + intros H; inversion H; subst. repeat split; auto.
      intros _. eexists. reflexivity.
  - intros H; inversion H; subst. repeat split; auto. discriminate.
Qed.

Lemma while_result fuel : forall w w',
  acquisition_running (cam w) = true ->
  while_acquisition_running fuel w = (Ok tt, w') ->
  cam w' = cam w /\ nodemap w' = nodemap w /\
  announced (stream w') = announced (stream w) /\
  grabbing (stream w') = grabbing (stream w) /\
  exists out, stdout w' = out ++ ["Keyboard interrupt."].
Proof.
  induction fuel as [| fuel IH]; intros w w' Hrun H; simpl in H.
  - discriminate.
  - cbv beta iota delta [bind gets] in H. rewrite Hrun in H.
    destruct (loop_body w) as [[c | e |] w1] eqn:Hb; try discriminate.
    destruct (loop_body_result w c w1 Hb) as (Hc & Hn & Ha & Hg & Hk).
    destruct c.
    + assert (Hrun1 : acquisition_running (cam w1) = true) by (rewrite Hc; exact Hrun).
      destruct (IH w1 w' Hrun1 H) as (Hc' & Hn' & Ha' & Hg' & Hk').
      repeat split; try congruence; try exact Hk'.
    + inversion H; subst. repeat split; auto.
Qed.

(** X5.  The loop of [run_acquisition_loop], entered with the acquisition
    flag set, comes to an end only by the interrupt of the user: when it
    returns, "Keyboard interrupt." is the last line printed, and the
    acquisition flag is still set, since nothing clears it. *)
Theorem loop_ends_only_by_interrupt fuel w w' :
  acquisition_running (cam w) = true ->
  while_acquisition_running fuel w = (Ok tt, w') ->
  acquisition_running (cam w') = true /\
  exists out, stdout w' = out ++ ["Keyboard interrupt."].
Proof.
  intros Hrun H.
  destruct (while_result fuel w w' Hrun H) as (Hc & _ & _ & _ & Hk).
  split; [rewrite Hc; exact Hrun | exact Hk].
Qed.

Lemma loop_ends_only_by_interrupt_witness :
  acquisition_running
    (cam (snd (while_acquisition_running (loop_fuel waiting_world) waiting_world))) = true /\
  exists out,
    stdout (snd (while_acquisition_running (loop_fuel waiting_world) waiting_world))
      = out ++ ["Keyboard interrupt."].
Proof.
  apply (loop_ends_only_by_interrupt (loop_fuel waiting_world) waiting_world
           (snd (while_acquisition_running (loop_fuel waiting_world) waiting_world)));
    reflexivity.
Defined.

(** ** [revoke_buffers] and [alloc_buffers] on any pool *)

Ltac served := intros; split; reflexivity.

Lemma revoke_buffers_empties strict g nm :
  hoare (fun w => guard strict w /\ (grabbing (stream w) = g /\ nodemap w = nm))
        revoke_buffers
        (fun _ w => guard strict w /\
                    (announced (stream w) = [] /\ queued (stream w) = [] /\
                     grabbing (stream w) = g /\ nodemap w = nm))
        (exc strict).
Proof.
  unfold revoke_buffers. eapply hoare_bind.
  { unfold stream_Flush, sdk_write.
    apply stream_call with
      (Q := fun _ w => queued (stream w) = [] /\ grabbing (stream w) = g /\ nodemap w = nm);
      [served |].
    intros w fs [Hg Hn]. simpl. auto. }
  intros []. eapply hoare_bind.
  { unfold stream_AnnouncedBuffers, sdk_read.
    apply stream_call with
      (Q := fun bs w => (queued (stream w) = [] /\ grabbing (stream w) = g /\ nodemap w = nm)
                        /\ bs = announced (stream w));
      [served |].
    intros w fs H. simpl. auto. }
  intros buffers.
  pose (I := fun (rem : list Buffer) (w : World) =>
               guard strict w /\
               ((forall x, In x (announced (stream w)) ->
                           exists y, In y rem /\ buf_id y = buf_id x) /\
                queued (stream w) = [] /\ grabbing (stream w) = g /\ nodemap w = nm)).
  eapply hoare_conseq with (P' := I buffers) (Q' := fun _ => I []).
  - apply (hoare_for_each _ I). intros y rem. unfold I, stream_RevokeBuffer, sdk_write.
    apply stream_call; [served |].
    intros w fs (Hin & Hq & Hg & Hn). simpl. rewrite Hq. simpl.
    repeat split; auto.
    intros x Hx. apply filter_In in Hx. destruct Hx as [Hx Hne].
    destruct (Hin x Hx) as (z & [Hz | Hz] & Hid).
    + subst z. rewrite Hid, Nat.eqb_refl in Hne. discriminate.
    + exists z. auto.
  - intros w [Hg [H Hb]]. split; [exact Hg |]. split; [| exact H].
    intros x Hx. exists x. subst buffers. auto.
  - intros [] w [Hg (Hin & Hrest)]. split; [exact Hg |]. split; [| exact Hrest].
    destruct (announced (stream w)) as [| x bs]; auto.
    destruct (Hin x (or_introl eq_refl)) as (y & [] & _).
Qed.

(** X6.  [revoke_buffers] empties the pool whatever it held: when it
    returns, no buffer is announced and none is queued, and the grabbing
    flag and the node map are as before.  It does return when the device
    is open and the SDK serves every call. *)
Theorem revoke_buffers_leaves_no_buffer w :
  (forall w', revoke_buffers w = (Ok tt, w') ->
     announced (stream w') = [] /\ queued (stream w') = [] /\
     grabbing (stream w') = grabbing (stream w) /\ nodemap w' = nodemap w)
  /\ (ready w -> exists w', revoke_buffers w = (Ok tt, w')).
Proof.
  split.
  - intros w' H.
    exact (proj2 (hoare_ok _ _ _ _ _ _ _
                    (revoke_buffers_empties false (grabbing (stream w)) (nodemap w))
                    (conj (ReconnectSpec.guard_lax w) (conj eq_refl eq_refl)) H)).
  - intros Hr.
    destruct (hoare_total _ _ _ _ w ReconnectSpec.exc_true_absurd
                (revoke_buffers_empties true (grabbing (stream w)) (nodemap w))
                (conj (ReconnectSpec.guard_strict w Hr) (conj eq_refl eq_refl)))
      as ([] & w' & H & _).
    exists w'. exact H.
Qed.

Lemma alloc_buffers_appends strict a0 q0 nb p n g :
  hoare (fun w => guard strict w /\
                  (announced (stream w) = a0 /\ queued (stream w) = q0 /\
                   next_buffer (stream w) = nb /\ payload_size (nodemap w) = p /\
                   min_required (stream w) = n /\ grabbing (stream w) = g))
        alloc_buffers
        (fun _ w => guard strict w /\
                    (announced (stream w)
                       = a0 ++ map (fun i => mk_buffer (nb + i) p) (seq 0 n) /\
                     queued (stream w) = q0 ++ seq nb n /\
                     next_buffer (stream w) = nb + n /\
                     grabbing (stream w) = g))
        (exc strict).
Proof.
  unfold alloc_buffers. eapply hoare_bind.
  { unfold node_PayloadSize, sdk_read.
    apply nodemap_call with
      (Q := fun v w => (announced (stream w) = a0 /\ queued (stream w) = q0 /\
                        next_buffer (stream w) = nb /\ payload_size (nodemap w) = p /\
                        min_required (stream w) = n /\ grabbing (stream w) = g) /\ v = p);
      [served |].
    intros w fs H. simpl. split; [exact H | tauto]. }
  intros payload. cbv beta.
  apply hoare_pre_pure with (phi := payload = p); [intros w [_ [_ H]]; exact H |].
  intros ->. eapply hoare_bind.
  { unfold stream_NumBuffersAnnouncedMinRequired, sdk_read.
    eapply hoare_conseq with
      (P' := fun w => guard strict w /\
               (announced (stream w) = a0 /\ queued (stream w) = q0 /\
                next_buffer (stream w) = nb /\ payload_size (nodemap w) = p /\
                min_required (stream w) = n /\ grabbing (stream w) = g)).
    - apply stream_call with
        (Q := fun v w => (announced (stream w) = a0 /\ queued (stream w) = q0 /\
                          next_buffer (stream w) = nb /\ payload_size (nodemap w) = p /\
                          min_required (stream w) = n /\ grabbing (stream w) = g) /\ v = n);
        [served |].
      intros w fs H. simpl. split; [exact H | tauto].
    - intros w [Hg [H _]]. auto.
    - intros a w H. exact H. }
  intros count. cbv beta.
  apply hoare_pre_pure with (phi := count = n); [intros w [_ [_ H]]; exact H |].
  intros ->.
  pose (I := fun (rem : list nat) (w : World) =>
               guard strict w /\
               exists k, k + List.length rem = n /\
                 announced (stream w)
                   = a0 ++ map (fun i => mk_buffer (nb + i) p) (seq 0 k) /\
                 queued (stream w) = q0 ++ seq nb k /\
                 next_buffer (stream w) = nb + k /\
                 grabbing (stream w) = g).
  eapply hoare_conseq with (P' := I (seq 0 n)) (Q' := fun _ => I []).
  - apply (hoare_for_each _ I). intros i rem. unfold I.
    eapply hoare_bind.
    + unfold stream_AllocAndAnnounceBuffer.
      apply hoare_conseq with
        (P' := fun w => guard strict w /\
                 exists k, k + List.length (i :: rem) = n /\
                   announced (stream w)
                     = a0 ++ map (fun i => mk_buffer (nb + i) p) (seq 0 k) /\
                   queued (stream w) = q0 ++ seq nb k /\
                   next_buffer (stream w) = nb + k /\
                   grabbing (stream w) = g)
        (Q' := fun b w => guard strict w /\
                 exists k, S k + List.length rem = n /\
                   announced (stream w)
                     = a0 ++ map (fun i => mk_buffer (nb + i) p) (seq 0 (S k)) /\
                   queued (stream w) = q0 ++ seq nb k /\
                   next_buffer (stream w) = nb + S k /\
                   grabbing (stream w) = g /\ buf_id b = nb + k); [| auto | intros b w H; exact H].
      apply stream_call; [served |].
      intros w fs (k & Hk & Ha & Hq & Hn & Hg). exists k.
      rewrite seq_S, map_app. simpl in *.
      rewrite Ha, Hn, Hq, Hg. repeat split; auto.
      * lia.
      * rewrite app_assoc. reflexivity.
    + intros b. unfold stream_QueueBuffer, sdk_write.
      apply stream_call; [served |].
      intros w fs (k & Hk & Ha & Hq & Hn & Hg & Hb). exists (S k).
      rewrite (seq_S k nb). simpl.
      rewrite Ha, Hq, Hn, Hg, Hb. repeat split; auto.
      rewrite app_assoc. reflexivity.
  - intros w [Hg [(Ha & Hq & Hn & _ & _ & Hgr) _]]. split; [exact Hg |].
    exists 0. rewrite length_seq. simpl. rewrite !app_nil_r, Nat.add_0_r. auto.
  - intros [] w [Hg (k & Hk & Ha & Hq & Hn & Hgr)]. split; [exact Hg |].
    simpl in Hk. rewrite Nat.add_0_r in Hk. subst k. auto.
Qed.

(** X7.  [alloc_buffers] does not look at the pool it finds: when it
    returns, the pool is the old one followed by as many new buffers as
    the stream requires at least, each of the payload size of the device
    and with the next free identifiers, and the new buffers are queued
    behind the old queue, in the same order.  It does return when the
    device is open and the SDK serves every call. *)
Theorem alloc_buffers_appends_to_the_pool w :
  (forall w', alloc_buffers w = (Ok tt, w') ->
     announced (stream w')
       = announced (stream w) ++
         map (fun i => mk_buffer (next_buffer (stream w) + i) (payload_size (nodemap w)))
             (seq 0 (min_required (stream w))) /\
     queued (stream w')
       = queued (stream w) ++ seq (next_buffer (stream w)) (min_required (stream w)))
  /\ (ready w -> exists w', alloc_buffers w = (Ok tt, w')).
Proof.
  split.
  - intros w' H.
    pose proof (hoare_ok _ _ _ _ _ _ _
                  (alloc_buffers_appends false _ _ _ _ _ _)
                  (conj (ReconnectSpec.guard_lax w)
                        (conj eq_refl (conj eq_refl (conj eq_refl
                           (conj eq_refl (conj eq_refl eq_refl)))))) H)
      as [_ (Ha & Hq & _)].
    auto.
  - intros Hr.
    destruct (hoare_total _ _ _ _ w ReconnectSpec.exc_true_absurd
                (alloc_buffers_appends true _ _ _ _ _ _)
                (conj (ReconnectSpec.guard_strict w Hr)
                      (conj eq_refl (conj eq_refl (conj eq_refl
                         (conj eq_refl (conj eq_refl eq_refl)))))))
      as ([] & w' & H & _).
    exists w'. exact H.
Qed.

(** ** [run_acquisition_loop] as a whole *)

Lemma hoare_point {S A} (m : M S A) (P : S -> Prop) Q E :
  (forall s0, P s0 -> hoare (fun s => s = s0) m Q E) -> hoare P m Q E.
Proof. intros H s Hs. exact (H s Hs s eq_refl). Qed.

Lemma run_acquisition_loop_post ex an :
  hoare (fun w => guard false w /\
                  (executed (nodemap w) = ex /\ announced (stream w) = an))
        run_acquisition_loop
        (fun _ w => guard false w /\
                    (executed (nodemap w) = ex ++ ["AcquisitionStart"; "AcquisitionStop"] /\
                     announced (stream w) = an /\
                     tl_params_locked (nodemap w) = 0%Z /\
                     grabbing (stream w) = false /\
                     acquisition_running (cam w) = true /\
                     exists out,
                       stdout w = out ++ ["Keyboard interrupt."; "Stopping acquisition..."]))
        (exc false).
Proof.
  unfold run_acquisition_loop.
  eapply hoare_bind.
  { unfold node_set_TLParamsLocked, sdk_write.
    apply nodemap_call with
      (Q := fun _ w => executed (nodemap w) = ex /\ announced (stream w) = an);
      [served |].
    intros w fs H. exact H. }
  intros []. eapply hoare_bind.
  { unfold stream_StartAcquisition, sdk_write.
    apply stream_call with
      (Q := fun _ w => executed (nodemap w) = ex /\ announced (stream w) = an);
      [served |].
    intros w fs H. exact H. }
  intros []. eapply hoare_bind.
  { unfold node_Execute, sdk_write.
    apply nodemap_call with
      (Q := fun _ w => executed (nodemap w) = ex ++ ["AcquisitionStart"] /\
                       announced (stream w) = an);
      [served |].
    intros w fs [H1 H2]. simpl. rewrite H1. auto. }
  intros []. eapply hoare_bind.
  { unfold node_WaitUntilDone, sdk_write.
    apply nodemap_call with
      (Q := fun _ w => executed (nodemap w) = ex ++ ["AcquisitionStart"] /\
                       announced (stream w) = an);
      [served |].
    intros w fs H. exact H. }
  intros []. eapply hoare_bind.
  { apply hoare_modify with
      (Q := fun w => guard false w /\
              (executed (nodemap w) = ex ++ ["AcquisitionStart"] /\
               announced (stream w) = an /\ acquisition_running (cam w) = true)).
    intros w [_ [H1 H2]]. split; [apply ReconnectSpec.guard_lax |]. simpl. auto. }
  intros []. eapply hoare_bind.
  { apply print_call with
      (Q := fun w => executed (nodemap w) = ex ++ ["AcquisitionStart"] /\
              announced (stream w) = an /\ acquisition_running (cam w) = true).
    intros w H. exact H. }
  intros []. eapply hoare_bind.
  { apply print_call with
      (Q := fun w => executed (nodemap w) = ex ++ ["AcquisitionStart"] /\
              announced (stream w) = an /\ acquisition_running (cam w) = true).
    intros w H. exact H. }
  intros []. eapply hoare_bind with
    (Q := fun _ w => guard false w /\
            (executed (nodemap w) = ex ++ ["AcquisitionStart"] /\
             announced (stream w) = an /\ acquisition_running (cam w) = true /\
             exists out, stdout w = out ++ ["Keyboard interrupt."])).
  { intros w [_ (He & Ha & Hr)].
    destruct (while_acquisition_running (loop_fuel w) w) as [[[] | e |] w'] eqn:Hw;
      try reflexivity.
    destruct (while_result _ w w' Hr Hw) as (Hc & Hn & Han & _ & Hk).
    split; [apply ReconnectSpec.guard_lax |].
    rewrite Hn, Han, Hc. auto. }
  intros []. eapply hoare_bind.
  { apply print_call with
      (Q := fun w => executed (nodemap w) = ex ++ ["AcquisitionStart"] /\
              announced (stream w) = an /\ acquisition_running (cam w) = true /\
              exists out,
                stdout w = out ++ ["Keyboard interrupt."; "Stopping acquisition..."]).
    intros w (He & Ha & Hr & out & Ho). simpl. repeat split; auto.
    exists out. rewrite Ho, <- app_assoc. reflexivity. }
  intros []. eapply hoare_bind.
  { unfold node_Execute, sdk_write.
    apply nodemap_call with
      (Q := fun _ w =>
              executed (nodemap w) = ex ++ ["AcquisitionStart"; "AcquisitionStop"] /\
              announced (stream w) = an /\ acquisition_running (cam w) = true /\
              exists out,
                stdout w = out ++ ["Keyboard interrupt."; "Stopping acquisition..."]);
      [served |].
    intros w fs (He & Ha & Hr & Ho). simpl. rewrite He, <- app_assoc. auto. }
  intros []. eapply hoare_bind.
  { unfold node_WaitUntilDone, sdk_write.
    apply nodemap_call with
      (Q := fun _ w =>
              executed (nodemap w) = ex ++ ["AcquisitionStart"; "AcquisitionStop"] /\
              announced (stream w) = an /\ acquisition_running (cam w) = true /\
              exists out,
                stdout w = out ++ ["Keyboard interrupt."; "Stopping acquisition..."]);
      [served |].
    intros w fs H. exact H. }
  intros []. eapply hoare_bind.
  { unfold stream_StopAcquisition, sdk_write.
    apply stream_call with
      (Q := fun _ w =>
              executed (nodemap w) = ex ++ ["AcquisitionStart"; "AcquisitionStop"] /\
              announced (stream w) = an /\ acquisition_running (cam w) = true /\
              (exists out,
                 stdout w = out ++ ["Keyboard interrupt."; "Stopping acquisition..."]) /\
              grabbing (stream w) = false);
      [served |].
    intros w fs (He & Ha & Hr & Ho). simpl. auto. }
  intros []. unfold node_set_TLParamsLocked, sdk_write.
  apply nodemap_call; [served |].
  intros w fs (He & Ha & Hr & Ho & Hg). simpl.
  repeat (split; [solve [auto] |]). exact Ho.
Qed.

(** X8.  When [run_acquisition_loop] returns, the user has interrupted
    it, the stream is stopped, the parameters of the transport layer are
    unlocked again (TLParamsLocked is 0), AcquisitionStart and then
    AcquisitionStop are the commands it executed on the device, the same
    buffers are announced as before, and the acquisition flag of the
    object is still set. *)
Theorem run_acquisition_loop_on_return w w' :
  run_acquisition_loop w = (Ok tt, w') ->
  executed (nodemap w') = executed (nodemap w) ++ ["AcquisitionStart"; "AcquisitionStop"] /\
  announced (stream w') = announced (stream w) /\
  tl_params_locked (nodemap w') = 0%Z /\
  grabbing (stream w') = false /\
  acquisition_running (cam w') = true /\
  exists out, stdout w' = out ++ ["Keyboard interrupt."; "Stopping acquisition..."].
Proof.
  intros H.
  exact (proj2 (hoare_ok _ _ _ _ _ _ _
                  (run_acquisition_loop_post (executed (nodemap w)) (announced (stream w)))
                  (conj (ReconnectSpec.guard_lax w) (conj eq_refl eq_refl)) H)).
Qed.

Lemma run_acquisition_loop_on_return_witness :
  let w' := snd (run_acquisition_loop ready_to_acquire_world) in
  executed (nodemap w')
    = executed (nodemap ready_to_acquire_world) ++ ["AcquisitionStart"; "AcquisitionStop"] /\
  announced (stream w') = announced (stream ready_to_acquire_world) /\
  tl_params_locked (nodemap w') = 0%Z /\
  grabbing (stream w') = false /\
  acquisition_running (cam w') = true /\
  exists out, stdout w' = out ++ ["Keyboard interrupt."; "Stopping acquisition..."].
Proof.
  apply (run_acquisition_loop_on_return ready_to_acquire_world
           (snd (run_acquisition_loop ready_to_acquire_world))).
  vm_compute. reflexivity.
Defined.

(** ** [run] after a body that completed *)

Lemma lax_any {A} (m : IDS A) (P : World -> Prop) :
  hoare P m (fun _ w => guard false w /\ True) (exc false).
Proof.
  intros w _. destruct (m w) as [[a | e |] w']; try reflexivity.
  split; [apply ReconnectSpec.guard_lax | exact Logic.I].
Qed.

Lemma run_try_body_post :
  hoare (fun _ => True) run_try_body
        (fun _ w => announced (stream w) = [] /\ queued (stream w) = [] /\
                    grabbing (stream w) = false /\
                    tl_params_locked (nodemap w) = 0%Z)
        (exc false).
Proof.
  unfold run_try_body.
  do 6 (eapply hoare_bind; [apply lax_any | intros ?]).
  eapply hoare_bind with
    (Q := fun _ w => guard false w /\
            (grabbing (stream w) = false /\ tl_params_locked (nodemap w) = 0%Z)).
  { apply hoare_point. intros w0 _.
    eapply hoare_conseq.
    - apply (run_acquisition_loop_post (executed (nodemap w0)) (announced (stream w0))).
    - intros w ->. split; [apply ReconnectSpec.guard_lax | auto].
    - intros [] w [Hg (_ & _ & Htl & Hgr & _)]. auto. }
  intros []. eapply hoare_bind with
    (Q := fun _ w => announced (stream w) = [] /\ queued (stream w) = [] /\
                     grabbing (stream w) = false /\ tl_params_locked (nodemap w) = 0%Z).
  { apply hoare_point. intros w0 [_ [Hgr Htl]].
    eapply hoare_conseq.
    - apply (revoke_buffers_empties false false (nodemap w0)).
    - intros w ->. split; [apply ReconnectSpec.guard_lax | auto].
    - intros [] w [_ (Ha & Hq & Hg & Hn)]. rewrite Hn. auto. }
  intros []. apply hoare_ret. auto.
Qed.

Lemma run_finally_frame w :
  stream (snd (run_finally w)) = stream w /\ nodemap (snd (run_finally w)) = nodemap w.
Proof.
  destruct w as [cm lib mg re nm st fs ws out].
  destruct cm as [run dev rn ds [hf |] [hl |] [hr |] [hd |]]; split; reflexivity.
Qed.

(** X9.  When the [try] body of [run] completes, [run] leaves the stream
    stopped, with no buffer announced and none queued, and the parameters
    of the transport layer unlocked. *)
Theorem run_leaves_no_buffer_after_completion w v :
  fst (run_try_body w) = Ok v ->
  announced (stream (snd (run w))) = [] /\
  queued (stream (snd (run w))) = [] /\
  grabbing (stream (snd (run w))) = false /\
  tl_params_locked (nodemap (snd (run w))) = 0%Z.
Proof.
  intros Hb. pose proof (run_try_body_post w Logic.I) as Hpost.
  unfold run, try_finally, try_except.
  destruct (run_try_body w) as [[v' | e |] w1]; simpl in Hb; try discriminate.
  destruct (run_finally_frame w1) as [Hs Hn].
  destruct (run_finally w1) as [[[] | e |] w2]; simpl in *; rewrite Hs, Hn; exact Hpost.
Qed.

Lemma run_leaves_no_buffer_after_completion_witness :
  announced (stream (snd (run constructed_world))) = [] /\
  queued (stream (snd (run constructed_world))) = [] /\
  grabbing (stream (snd (run constructed_world))) = false /\
  tl_params_locked (nodemap (snd (run constructed_world))) = 0%Z.
Proof.
  apply (run_leaves_no_buffer_after_completion constructed_world None).
  vm_compute. reflexivity.
Defined.



(** ** A system without ReconnectEnable *)

Lemma for_each_found devs : forall w,
  exists lines, for_each devs device_found w = (Ok tt, with_stdout (fun out => out ++ lines) w).
Proof.
  induction devs as [| d devs IH]; intros w; simpl.
  - exists []. unfold ret. f_equal. destruct w. simpl. unfold with_stdout. simpl.
    rewrite app_nil_r. reflexivity.
  - unfold bind at 1, device_found at 1, print, modify.
    destruct (IH (with_stdout (fun out => out ++ [("Found-Device-Callback: Key=" ++ dev_key d)%string]) w))
      as (lines & E).
    rewrite E. eexists. f_equal. unfold with_stdout. simpl.
    rewrite <- app_assoc. reflexivity.
Qed.

Lemma manager_Update_quiet w :
  quiet w ->
  exists w', manager_Update w = (Ok tt, w') /\ quiet w' /\
             manager w' = manager w /\ reconnect_enable w' = reconnect_enable w.
Proof.
  intros Hq. unfold manager_Update.
  destruct (sdk_quiet (fun w0 => (devices (manager w0), w0)) w Hq) as (fs1 & Hq1 & E1).
  unfold sdk_read. rewrite (bind_ok _ _ _ _ _ E1). cbn [fst snd].
  cbv beta iota delta [bind gets].
  destruct (existsb (fun e => cb_kind_eqb (fst e) CbFound) (registry (manager (with_faults fs1 w)))).
  - cbn [when].
    match goal with |- context [for_each ?l device_found ?x] =>
      destruct (for_each_found l x) as (lines & E)
    end.
    rewrite E. eexists. split; [reflexivity |]. repeat split; auto.
  - simpl. eexists. split; [reflexivity |]. repeat split; auto.
Qed.

Lemma enable_reconnect_without_node w d :
  quiet w ->
  device (cam w) = Some d ->
  reconnect_enable w = None ->
  exists fs,
    enable_reconnect w
      = (Raise (mk_exn SystemExit "No ReconnectEnable Node found!"), with_faults fs w).
Proof.
  intros Hq Hd Hn. unfold enable_reconnect.
  cbv beta iota delta [bind gets]. rewrite Hd.
  destruct (sdk_quiet (fun w0 => (reconnect_enable w0, w0)) w Hq) as (fs1 & Hq1 & E1).
  unfold sdk_read at 1. rewrite E1. cbn [fst snd].
  change (reconnect_enable (with_faults fs1 w)) with (reconnect_enable w). rewrite Hn.
  destruct (sdk_quiet (fun w0 => (false, w0)) _ Hq1) as (fs2 & Hq2 & E2).
  unfold sdk_read at 1. rewrite E2. cbn [fst snd negb].
  exists fs2. reflexivity.
Qed.

(** X11.  On a system that has no node ReconnectEnable, with a device
    that can be opened and an SDK that serves every call, [run] does not
    return: the [SystemExit] that [enable_reconnect] raises is caught by
    neither handler and leaves [run], so that the interpreter ends with
    status 1. *)
Theorem run_without_reconnect_node_exits w d :
  constructed w ->
  quiet w ->
  last_openable (devices (manager w)) d ->
  reconnect_enable w = None ->
  fst (run w) = Raise (mk_exn SystemExit "No ReconnectEnable Node found!") /\
  exit_of (fst (run w)) = Exits 1.
Proof.
  intros Hc Hq Hlast Hnone.
  destruct (RunSpec.constructed_handles w Hc) as (a & b & c & h & Hh).
  pose proof (RunSpec.keeps_run_try_body _ w Hh) as Hk.
  assert (Hbody : exists w3,
            run_try_body w
              = (Raise (mk_exn SystemExit "No ReconnectEnable Node found!"), w3)).
  { unfold run_try_body.
    destruct (manager_Update_quiet w Hq) as (w1 & E1 & Hq1 & Hm1 & Hr1).
    rewrite (bind_ok _ _ _ _ _ E1).
    assert (Hlast1 : last_openable (devices (manager w1)) d) by (rewrite Hm1; exact Hlast).
    destruct (open_device_last_run w1 d Hq1 Hlast1) as (w2 & E2 & (Hd2 & _) & Hq2 & Hr2).
    rewrite (bind_ok _ _ _ _ _ E2).
    assert (Hn2 : reconnect_enable w2 = None) by congruence.
    destruct (enable_reconnect_without_node w2 d Hq2 Hd2 Hn2) as (fs & E3).
    rewrite (bind_raise _ _ _ _ _ E3). eexists. reflexivity. }
  destruct Hbody as (w3 & Hbody).
  assert (Hrun : fst (run w) = Raise (mk_exn SystemExit "No ReconnectEnable Node found!")).
  { unfold run, try_finally, try_except. rewrite Hbody in *. simpl select.
    destruct (RunSpec.run_finally_cleans w3 a b c h Hk) as (w4 & Hf & _).
    rewrite Hf. reflexivity. }
  split; [exact Hrun |]. rewrite Hrun. reflexivity.
Qed.

Lemma run_without_reconnect_node_exits_witness :
  fst (run no_reconnect_world) = Raise (mk_exn SystemExit "No ReconnectEnable Node found!") /\
  exit_of (fst (run no_reconnect_world)) = Exits 1.
Proof.
  apply (run_without_reconnect_node_exits no_reconnect_world sample_device).
  - intros k. destruct k; simpl; discriminate.
  - unfold quiet. simpl. constructor.
  - exists [], []. simpl. repeat constructor.
  - reflexivity.
Defined.

End RecordFramesExtra.

(* ===================================================================== *)
(** * main.py: further properties of the steps *)
(* ===================================================================== *)

Module OrchestratorExtra.
Import Orchestrator OrchestratorProps PyLogic OrchestratorSpec.

(** X12.  When the in-process hyperspectral capture raises, the exception
    leaves the steps at once: no subprocess is started, whatever the rest
    of the table says. *)
Theorem failed_capture_stops_all_steps d env t e :
  record d = true ->
  record_hsi_on d = true ->
  record_hsi_raises env = Some e ->
  fst (steps d env t initial) = Raise e /\
  subprocess_calls (snd (steps d env t initial)) = [].
Proof.
  intros Hr Hh He. destruct d as [r rs rh pp ex mp]. simpl in Hr, Hh. subst r rh.
  unfold steps. cbn [record record_svo_on record_hsi_on pose_post export mesh_post when].
  cbv beta iota delta [bind record_hsi act modify]. rewrite He.
  split; reflexivity.
Qed.

Lemma failed_capture_stops_all_steps_witness :
  fst (steps all_steps hsi_failing_env "0" initial)
    = Raise (mk_exn Exception_ "camera not found") /\
  subprocess_calls (snd (steps all_steps hsi_failing_env "0" initial)) = [].
Proof.
  apply (failed_capture_stops_all_steps all_steps hsi_failing_env "0"); reflexivity.
Defined.

(** Whatever [subprocess.run] does, [record_svo] run in its own process
    hands nothing but a return to the orchestrator. *)
Lemma record_svo_in_child_returns env file cmd s :
  fst (in_child_process (record_svo env file cmd) s) = Ok tt.
Proof.
  unfold in_child_process.
  assert (H : forall s0, fst (record_svo env file cmd s0) <> Hang).
  { intros s0.
    cbv beta iota delta [record_svo try_except bind print modify ret raise
                         subprocess_run gets act].
    cbn [actions printed].
    destruct (subprocess_result env _ cmd) as [p | e].
    - unfold report. destruct (returncode p =? 0)%Z;
        cbv beta iota delta [bind print modify]; discriminate.
    - simpl select. destruct (isinstance e KeyboardInterrupt); cbn [orb].
      + simpl. discriminate.
      + simpl select.
        destruct (isinstance e CalledProcessError || (isinstance e NameError || false));
          simpl; discriminate. }
  specialize (H s). destruct (record_svo env file cmd s) as [[[] | e |] s'];
    simpl in *; congruence.
Qed.



(** X14.  When the user interrupts [subprocess.run] inside [record_svo],
    the function prints "Timeout reached. Stopping the command.", then
    fails on the variable [result], which was never bound, catches that
    error itself, prints it, and returns: neither success nor failure of
    the recording is reported. *)
Theorem record_svo_on_interrupt env file cmd s e :
  subprocess_result env (List.length (actions s)) cmd = RunRaises e ->
  isinstance e KeyboardInterrupt = true ->
  exists banner msg,
    record_svo env file cmd s
      = (Ok tt,
         mk_state (actions s ++ [Subprocess cmd])
                  (printed s ++
                   [banner; "Timeout reached. Stopping the command.";
                    ("Error occurred while calling record_svo.py: " ++ msg)%string])).
Proof.
  intros Hres Hk. do 2 eexists.
  cbv beta iota delta [record_svo try_except bind print modify ret raise
                       subprocess_run gets act].
  cbn [actions printed]. rewrite Hres. simpl select. rewrite Hk. cbn [orb].
  simpl. rewrite <- !app_assoc. reflexivity.
Qed.

Lemma record_svo_on_interrupt_witness :
  exists banner msg,
    record_svo interrupting_env output_svo_file (command_record "0") initial
      = (Ok tt,
         mk_state (actions initial ++ [Subprocess (command_record "0")])
                  (printed initial ++
                   [banner; "Timeout reached. Stopping the command.";
                    ("Error occurred while calling record_svo.py: " ++ msg)%string])).
Proof.
  apply (record_svo_on_interrupt interrupting_env output_svo_file (command_record "0")
           initial (mk_exn KeyboardInterrupt "")); reflexivity.
Defined.



End OrchestratorExtra.

(* ===================================================================== *)
(** * zed/position_post.py: when the step never ends *)
(* ===================================================================== *)

Module PositionPostExtra.
Import PositionPost PositionPostProps PositionPostSpec.

Section Floats.
Variable float : Type.
Variable round3 : float -> float.

Lemma grab_loop_starves gs : forall i nb (df : DataFrame float),
  (Z.of_nat (List.length (successes gs)) < nb - i)%Z ->
  grab_loop round3 gs i nb df = None.
Proof.
  induction gs as [| g gs IH]; intros i nb df H; simpl in *.
  - destruct (i <? nb)%Z eqn:Hlt; [reflexivity |]. apply Z.ltb_ge in Hlt. lia.
  - destruct (i <? nb)%Z eqn:Hlt; [| apply Z.ltb_ge in Hlt; lia].
    destruct g as [p |]; apply IH; simpl in H; lia.
Qed.

(** X16.  Once camera and tracking have started, the step never ends, and
    writes no file, exactly when the recording delivers fewer frames with
    success than it counts: the loop counts successful grabs only and
    goes on grabbing after the end of the recording. *)
Theorem pose_step_never_ends_iff (svo : Svo float) :
  open_succeeds svo = true ->
  tracking_succeeds svo = true ->
  (main round3 svo = NeverEnds <->
   (Z.of_nat (List.length (successes (grabs svo))) < nb_frames svo)%Z).
Proof.
  intros Ho Ht. unfold main. rewrite Ho, Ht. simpl. split.
  - intros H.
    destruct (Z.lt_ge_cases (Z.of_nat (List.length (successes (grabs svo)))) (nb_frames svo))
      as [Hlt | Hge]; [exact Hlt |].
    destruct (grab_loop_ends float round3 (grabs svo) 0 (nb_frames svo) empty_frame)
      as [df Hdf]; [lia |].
    rewrite Hdf in H. discriminate.
  - intros Hlt. rewrite (grab_loop_starves (grabs svo) 0 (nb_frames svo) empty_frame);
      [reflexivity | lia].
Qed.
End Floats.

Lemma pose_step_never_ends_iff_witness :
  main (fun x : unit => x) short_svo = NeverEnds <->
  (Z.of_nat (List.length (successes (grabs short_svo))) < nb_frames short_svo)%Z.
Proof.
  apply (pose_step_never_ends_iff unit (fun x => x) short_svo); reflexivity.
Defined.

End PositionPostExtra.

(* ===================================================================== *)
(** * main.py: the properties of the patch of the settings *)
(* ===================================================================== *)

Module ConfigPatchSpec.
Import ConfigPatch.

Lemma key_eqb_eq a b : key_eqb a b = true <-> a = b.
Proof.
  destruct a as [s | x], b as [t | y]; simpl; split; intros H;
    try discriminate; try (inversion H; subst).
  - apply String.eqb_eq in H. congruence.
  - apply String.eqb_refl.
  - apply Z.eqb_eq in H. congruence.
  - apply Z.eqb_refl.
Qed.

Lemma key_eqb_refl a : key_eqb a a = true.
Proof. apply key_eqb_eq. reflexivity. Qed.

Lemma key_eqb_neq a b : a <> b -> key_eqb a b = false.
Proof.
  intros H. destruct (key_eqb a b) eqn:E; [| reflexivity].
  apply key_eqb_eq in E. contradiction.
Qed.

Section Floats.
Variable float : Type.

Lemma getitem_setitem_same (d : dict float) k v : getitem (setitem d k v) k = Some v.
Proof.
  induction d as [| [k' v'] d IH]; simpl.
  - rewrite key_eqb_refl. reflexivity.
  - destruct (key_eqb k' k) eqn:E; simpl; rewrite E; auto.
Qed.

Lemma getitem_setitem_other (d : dict float) k k' v :
  k <> k' -> getitem (setitem d k v) k' = getitem d k'.
Proof.
  intros Hne. induction d as [| [k0 v0] d IH]; simpl.
  - rewrite (key_eqb_neq k k' Hne). reflexivity.
  - destruct (key_eqb k0 k) eqn:E; simpl.
    + apply key_eqb_eq in E. subst k0. rewrite (key_eqb_neq k k' Hne). reflexivity.
    + destruct (key_eqb k0 k'); auto.
Qed.

Lemma setitem_present (d : dict float) k v : getitem d k = Some v -> setitem d k v = d.
Proof.
  induction d as [| [k0 v0] d IH]; simpl; intros H.
  - discriminate.
  - destruct (key_eqb k0 k) eqn:E.
    + inversion H; subst. reflexivity.
    + rewrite (IH H). reflexivity.
Qed.

Lemma setitem_keys (d : dict float) k v :
  exists extra, map fst (setitem d k v) = map fst d ++ extra.
Proof.
  induction d as [| [k0 v0] d IH]; simpl.
  - exists [k]. reflexivity.
  - destruct (key_eqb k0 k); simpl.
    + exists []. rewrite app_nil_r. reflexivity.
    + destruct IH as [extra IH]. exists extra. rewrite IH. reflexivity.
Qed.

(** The dict after the four plain assignments. *)
Lemma four_other (d : dict float) (e : float) k :
  ~ In k patched_keys \/ k = KStr "resolution" ->
  getitem
    (setitem
       (setitem
          (setitem (setitem d (KStr "pixel_format") (JStr "Mono8"))
                   (KStr "exposure_ms") (JFloat e))
          (KStr "win_offset") (JList [JInt 0; JInt row_start]))
       (KStr "win_resolution") (JList [JInt 1936; JInt row_width])) k
  = getitem d k.
Proof.
  intros H.
  assert (Hne : KStr "pixel_format" <> k /\ KStr "exposure_ms" <> k /\
                KStr "win_offset" <> k /\ KStr "win_resolution" <> k).
  { destruct H as [H | ->].
    - unfold patched_keys in H. simpl in H. repeat split; intros E; apply H; auto 10.
    - repeat split; discriminate. }
  destruct Hne as (H1 & H2 & H3 & H4).
  rewrite !getitem_setitem_other; auto.
Qed.

(** What a successful patch is. *)
Lemma patch_inr (e : float) data data' :
  patch e data = inr data' ->
  exists d r r',
    data = JDict d /\
    getitem d (KStr "resolution") = Some r /\
    set_index0 r (JInt 552) = inr r' /\
    data' = JDict
              (setitem
                 (setitem
                    (setitem
                       (setitem (setitem d (KStr "pixel_format") (JStr "Mono8"))
                                (KStr "exposure_ms") (JFloat e))
                       (KStr "win_offset") (JList [JInt 0; JInt row_start]))
                    (KStr "win_resolution") (JList [JInt 1936; JInt row_width]))
                 (KStr "resolution") r').
Proof.
  intros H. destruct data as [| b | z | x | s | l | d]; simpl in H; try discriminate.
  cbv zeta in H. rewrite (four_other d e (KStr "resolution")) in H by auto.
  destruct (getitem d (KStr "resolution")) as [r |] eqn:Hr; [| discriminate].
  destruct (set_index0 r (JInt 552)) as [err | r'] eqn:Hs; [discriminate |].
  inversion H; subst. exists d, r, r'. auto.
Qed.

(** X17.  A patch that succeeds keeps every item it does not set: a key
    other than the five patched ones has the value it had, and the keys
    that were in the file keep their places, new ones being added behind
    them. *)
Theorem patch_keeps_the_other_settings (e : float) data data' :
  patch e data = inr data' ->
  exists d d',
    data = JDict d /\ data' = JDict d' /\
    (forall k, ~ In k patched_keys -> getitem d' k = getitem d k) /\
    exists extra, map fst d' = map fst d ++ extra.
Proof.
  intros H. destruct (patch_inr e data data' H) as (d & r & r' & -> & Hr & Hs & ->).
  eexists. eexists. split; [reflexivity |]. split; [reflexivity |]. split.
  - intros k Hk.
    rewrite getitem_setitem_other.
    + apply four_other. auto.
    + intros E. apply Hk. subst k. unfold patched_keys. simpl. auto 10.
  - destruct (setitem_keys d (KStr "pixel_format") (JStr "Mono8")) as [x1 E1].
    destruct (setitem_keys (setitem d (KStr "pixel_format") (JStr "Mono8"))
                (KStr "exposure_ms") (JFloat e)) as [x2 E2].
    match goal with |- context [setitem ?d0 (KStr "win_offset") ?v] =>
      destruct (setitem_keys d0 (KStr "win_offset") v) as [x3 E3]
    end.
    match goal with |- context [setitem ?d0 (KStr "win_resolution") ?v] =>
      destruct (setitem_keys d0 (KStr "win_resolution") v) as [x4 E4]
    end.
    match goal with |- context [setitem ?d0 (KStr "resolution") ?v] =>
      destruct (setitem_keys d0 (KStr "resolution") v) as [x5 E5]
    end.
    exists (x1 ++ x2 ++ x3 ++ x4 ++ x5).
    rewrite E5, E4, E3, E2, E1, <- !app_assoc. reflexivity.
Qed.

Lemma patch_values (e : float) data data' :
  patch e data = inr data' ->
  exists d d' r r',
    data = JDict d /\ data' = JDict d' /\
    getitem d' (KStr "pixel_format") = Some (JStr "Mono8") /\
    getitem d' (KStr "exposure_ms") = Some (JFloat e) /\
    getitem d' (KStr "win_offset") = Some (JList [JInt 0; JInt 333]) /\
    getitem d' (KStr "win_resolution") = Some (JList [JInt 1936; JInt 550]) /\
    getitem d (KStr "resolution") = Some r /\
    set_index0 r (JInt 552) = inr r' /\
    getitem d' (KStr "resolution") = Some r'.
Proof.
  intros H. destruct (patch_inr e data data' H) as (d & r & r' & -> & Hr & Hs & ->).
  eexists. eexists. exists r, r'. split; [reflexivity |]. split; [reflexivity |].
  repeat split; auto;
    repeat first [ rewrite getitem_setitem_same; reflexivity
                 | rewrite getitem_setitem_other by discriminate ].
Qed.

(** X18.  After a patch that succeeds the four plain settings have the
    values of the script, and [resolution] is what it was with its first
    element (or, for a dict, its item 0) set to 552. *)
Theorem patch_sets_the_five_settings (e : float) data data' :
  patch e data = inr data' ->
  exists d d' r r',
    data = JDict d /\ data' = JDict d' /\
    getitem d' (KStr "pixel_format") = Some (JStr "Mono8") /\
    getitem d' (KStr "exposure_ms") = Some (JFloat e) /\
    getitem d' (KStr "win_offset") = Some (JList [JInt 0; JInt 333]) /\
    getitem d' (KStr "win_resolution") = Some (JList [JInt 1936; JInt 550]) /\
    getitem d (KStr "resolution") = Some r /\
    set_index0 r (JInt 552) = inr r' /\
    getitem d' (KStr "resolution") = Some r'.
Proof. exact (patch_values e data data'). Qed.

(** X19.  The patch of a dict succeeds exactly when the file has a key
    [resolution] whose value is a list that is not empty, or a dict; when
    the key is missing a [KeyError] for it is raised, and on an empty list
    the index error of the list assignment. *)
Theorem patch_fails_without_a_resolution (e : float) (d : dict float) :
  ((exists data', patch e (JDict d) = inr data') <->
   (exists x rest, getitem d (KStr "resolution") = Some (JList (x :: rest))) \/
   (exists items, getitem d (KStr "resolution") = Some (JDict items))) /\
  (getitem d (KStr "resolution") = None ->
   patch e (JDict d) = inl (KeyError (KStr "resolution"))) /\
  (getitem d (KStr "resolution") = Some (JList []) ->
   patch e (JDict d) = inl ListIndexError).
Proof.
  split; [| split].
  - split.
    + intros [data' H]. destruct (patch_inr e _ _ H) as (d0 & r & r' & E & Hr & Hs & _).
      inversion E; subst d0. clear E.
      destruct r as [| b | z | x | s | [| x rest] | items]; simpl in Hs; try discriminate.
      * left. eauto.
      * right. eauto.
    + intros [(x & rest & H) | (items & H)]; simpl; cbv zeta;
        rewrite (four_other d e (KStr "resolution")) by auto; rewrite H; simpl; eauto.
  - intros H. simpl. cbv zeta.
    rewrite (four_other d e (KStr "resolution")) by auto. rewrite H. reflexivity.
  - intros H. simpl. cbv zeta.
    rewrite (four_other d e (KStr "resolution")) by auto. rewrite H. reflexivity.
Qed.

Lemma set_index0_twice (r r' v : json float) :
  set_index0 r v = inr r' -> set_index0 r' v = inr r'.
Proof.
  destruct r as [| b | z | x | s | [| x rest] | items]; simpl; intros H;
    try discriminate; inversion H; subst; simpl.
  - reflexivity.
  - rewrite (setitem_present (setitem items (KInt 0) v) (KInt 0) v).
    + reflexivity.
    + apply getitem_setitem_same.
Qed.

(** X20.  Patching is idempotent on the data: the statements applied to
    the data they produced (with the same exposure) succeed and change
    nothing. *)
Theorem patch_twice (e : float) data data' :
  patch e data = inr data' -> patch e data' = inr data'.
Proof.
  intros H. destruct (patch_values e data data' H)
    as (d & d' & r & r' & _ & -> & H1 & H2 & H3 & H4 & _ & Hs & H5).
  unfold patch, row_start, row_width. cbv zeta.
  rewrite (setitem_present d' _ _ H1), (setitem_present d' _ _ H2),
          (setitem_present d' _ _ H3), (setitem_present d' _ _ H4).
  rewrite H5, (set_index0_twice r r' _ Hs). rewrite (setitem_present d' _ _ H5).
  reflexivity.
Qed.
End Floats.

Lemma patch_keeps_the_other_settings_witness :
  patch exposure_ms shipped_settings = inr patched_settings /\
  exists d d',
    shipped_settings = JDict d /\ patched_settings = JDict d' /\
    (forall k, ~ In k patched_keys -> getitem d' k = getitem d k) /\
    exists extra, map fst d' = map fst d ++ extra.
Proof.
  split; [reflexivity |].
  apply (patch_keeps_the_other_settings Z exposure_ms). reflexivity.
Defined.

Lemma patch_sets_the_five_settings_witness :
  patch exposure_ms shipped_settings = inr patched_settings /\
  exists d d' r r',
    shipped_settings = JDict d /\ patched_settings = JDict d' /\
    getitem d' (KStr "pixel_format") = Some (JStr "Mono8") /\
    getitem d' (KStr "exposure_ms") = Some (JFloat exposure_ms) /\
    getitem d' (KStr "win_offset") = Some (JList [JInt 0; JInt 333]) /\
    getitem d' (KStr "win_resolution") = Some (JList [JInt 1936; JInt 550]) /\
    getitem d (KStr "resolution") = Some r /\
    set_index0 r (JInt 552) = inr r' /\
    getitem d' (KStr "resolution") = Some r'.
Proof.
  split; [reflexivity |].
  apply (patch_sets_the_five_settings Z exposure_ms). reflexivity.
Defined.

Lemma patch_fails_without_a_resolution_witness :
  patch exposure_ms settings_without_resolution = inl (KeyError (KStr "resolution")).
Proof.
  apply (proj1 (proj2 (patch_fails_without_a_resolution Z exposure_ms
                         [(KStr "exposure_ms", JFloat 10000%Z);
                          (KStr "pixel_format", JStr "Mono12")]))).
  reflexivity.
Defined.

Lemma patch_twice_witness :
  patch exposure_ms shipped_settings = inr patched_settings /\
  patch exposure_ms patched_settings = inr patched_settings.
Proof.
  split; [reflexivity |].
  apply (patch_twice Z exposure_ms shipped_settings). reflexivity.
Defined.

End ConfigPatchSpec.

(* ===================================================================== *)
(** * zed/record_svo.py: how the recorder ends *)
(* ===================================================================== *)

Module RecordSvoSpec.
Import RecordSvo.

Section Floats.
Context {float : Type}.
Variable ltb : float -> float -> bool.

Lemma stmt_quiet {A} (a : Run float A) (w : World float) :
  sigint w = None -> stmt a w = a w.
Proof.
  intros H. unfold stmt, bind, poll. rewrite H. reflexivity.
Qed.

(** X21.  With an output file that ends neither in [.svo] nor in [.svo2]
    the script ends with exit status 0, the status of a recording that
    went well, whether Ctrl-C arrives or not; the camera is not opened, no
    time is read and no frame is grabbed. *)
Theorem bad_file_name_exits_with_status_zero (opt : Options float) (w : World float) :
  endswith (output_svo_file opt) ".svo" = false ->
  endswith (output_svo_file opt) ".svo2" = false ->
  exit_status (fst (script ltb opt w)) = Some 0%Z /\
  clock (snd (script ltb opt w)) = clock w /\
  grabs (snd (script ltb opt w)) = grabs w /\
  svo_frames (cam (snd (script ltb opt w))) = svo_frames (cam w) /\
  (opened (cam (snd (script ltb opt w))) = true -> opened (cam w) = true).
Proof.
  intros H1 H2. unfold script. rewrite H1, H2.
  cbn [negb andb]. unfold bind at 1.
  unfold stmt, bind, poll, print, exit_, handler, cam_disable_recording, cam_close.
  destruct (sigint w) as [[| [| n]] |] eqn:Hs; cbn; rewrite ?Hs; cbn; repeat split; auto;
    discriminate.
Qed.

(** The script with a good name is [main]. *)
Lemma script_good_name (opt : Options float) (w : World float) :
  good_name opt -> script ltb opt w = main ltb opt w.
Proof.
  unfold good_name, script. intros ->. reflexivity.
Qed.

(** X22.  When the camera cannot be opened and Ctrl-C does not arrive, the
    script prints the code and ends with exit status 1; the camera object
    is as before, recording was not asked for and nothing was grabbed. *)
Theorem failed_open_exits_with_status_one (opt : Options float) (w : World float) name :
  good_name opt ->
  sigint w = None ->
  open_status w = FAILURE name ->
  script ltb opt w =
    (inr (Exit (Some 1%Z)),
     with_stdout (stdout w ++ [(("Camera Open " ++ name ++ " Exit program.") ++ LF)%string]) w).
Proof.
  intros Hn Hs Ho. rewrite (script_good_name opt w Hn).
  unfold main, main_frames. unfold bind at 1 2.
  rewrite (stmt_quiet cam_open w Hs). unfold cam_open. rewrite Ho. cbn [is_success negb].
  unfold bind at 1 2. rewrite stmt_quiet by exact Hs.
  unfold print at 1. rewrite stmt_quiet by exact Hs.
  unfold exit_. reflexivity.
Qed.

Lemma failed_recording_run (opt : Options float) (w : World float) name :
  good_name opt ->
  sigint w = None ->
  open_status w = SUCCESS ->
  enable_status w = FAILURE name ->
  script ltb opt w =
    (inr (Exit (Some 1%Z)),
     with_stdout (stdout w ++ [(("Recording ZED :  " ++ name) ++ LF)%string])
       (with_cam (mk_camera true (recording (cam w)) (svo_frames (cam w))) w)).
Proof.
  intros Hn Hs Ho He. rewrite (script_good_name opt w Hn).
  unfold main, main_frames. unfold bind at 1 2.
  rewrite (stmt_quiet cam_open w Hs). unfold cam_open. rewrite Ho. cbn [is_success negb].
  unfold bind at 1. unfold ret at 1. unfold bind at 1.
  rewrite stmt_quiet by exact Hs.
  unfold cam_enable_recording. cbn [enable_status with_cam]. rewrite He.
  cbn [is_success negb].
  unfold bind at 1 2. rewrite stmt_quiet by exact Hs.
  unfold print at 1. rewrite stmt_quiet by exact Hs.
  reflexivity.
Qed.

(** X23.  When the camera opens but the recording cannot be enabled (and
    Ctrl-C does not arrive), the script ends with exit status 1 and the
    camera is left open: it is not closed on this path. *)
Theorem failed_recording_leaves_the_camera_open
  (opt : Options float) (w : World float) name :
  good_name opt ->
  sigint w = None ->
  open_status w = SUCCESS ->
  enable_status w = FAILURE name ->
  fst (script ltb opt w) = inr (Exit (Some 1%Z)) /\
  opened (cam (snd (script ltb opt w))) = true /\
  recording (cam (snd (script ltb opt w))) = recording (cam w) /\
  grabs (snd (script ltb opt w)) = grabs w /\
  stdout (snd (script ltb opt w)) =
    stdout w ++ [(("Recording ZED :  " ++ name) ++ LF)%string].
Proof.
  intros Hn Hs Ho He. rewrite (failed_recording_run opt w name Hn Hs Ho He).
  repeat split.
Qed.

(** ** The loop up to the deadline *)

Lemma successes_cons g gs :
  successes (g :: gs) = (if is_success g then 1 else 0) + successes gs.
Proof. unfold successes. simpl. destruct (is_success g); reflexivity. Qed.

Lemma frame_counts_cons a n :
  frame_counts a (S n) =
  (("Frame count: " ++ str_nat (S a)) ++ CR)%string :: frame_counts (S a) n.
Proof. reflexivity. Qed.

Lemma while_loop_to_the_deadline (tmax t : float) after before :
  ltb t tmax = false ->
  Forall (fun x => ltb x tmax = true) before ->
  forall fuel frames (w : World float),
    sigint w = None ->
    clock w = before ++ t :: after ->
    List.length before <= List.length (grabs w) ->
    List.length before < fuel ->
    exists w',
      while_loop ltb fuel tmax frames w
      = (inl (frames + successes (firstn (List.length before) (grabs w))), w') /\
      sigint w' = None /\
      clock w' = after /\
      grabs w' = skipn (List.length before) (grabs w) /\
      opened (cam w') = opened (cam w) /\
      recording (cam w') = recording (cam w) /\
      svo_frames (cam w') =
        svo_frames (cam w) +
        match recording (cam w) with
        | Some _ => successes (firstn (List.length before) (grabs w))
        | None => 0
        end /\
      stdout w' =
        stdout w ++
        frame_counts frames (successes (firstn (List.length before) (grabs w))).
Proof.
  intros Ht Hb. induction Hb as [| b bs Hlt Hbs IH]; intros fuel frames w Hs Hc Hg Hf.
  - destruct fuel as [| fuel]; [simpl in Hf; lia |].
    exists (with_clock after w). simpl in Hc. split.
    + cbn [while_loop]. unfold bind at 1. rewrite (stmt_quiet time_time w Hs).
      unfold time_time. rewrite Hc, Ht. unfold ret. simpl.
      change (successes []) with 0. rewrite Nat.add_0_r. reflexivity.
    + simpl. change (successes []) with 0. change (frame_counts frames 0) with (@nil string).
      rewrite app_nil_r.
      destruct (recording (cam w)); rewrite ?Nat.add_0_r; auto 10.
  - destruct fuel as [| fuel]; [simpl in Hf; lia |].
    destruct w as [[op rec fr] out os es cl gr si].
    cbn [sigint clock grabs cam stdout opened recording svo_frames] in *.
    subst si cl. destruct gr as [| g gs]; [simpl in Hg; lia |].
    cbn [List.length] in Hg, Hf.
    cbn [while_loop]. unfold bind at 1. rewrite stmt_quiet by reflexivity.
    unfold time_time at 1. cbn [clock app with_clock]. rewrite Hlt.
    unfold bind at 1. rewrite stmt_quiet by reflexivity.
    unfold cam_grab at 1.
    cbn [grabs cam stdout open_status enable_status clock sigint with_clock with_grabs
         with_cam opened recording svo_frames].
    cbn [List.length firstn skipn]. rewrite successes_cons.
    destruct g as [| name]; cbn [is_success].
    + unfold bind at 1.
      rewrite stmt_quiet by (destruct rec; reflexivity).
      unfold print at 1.
      match goal with |- context [while_loop ltb fuel tmax (S frames) ?w0] =>
        destruct (IH fuel (S frames) w0) as (w' & Hrun & Hs' & Hc' & Hg' & Ho' & Hr' & Hf' & Hp')
      end.
      * destruct rec; reflexivity.
      * destruct rec; reflexivity.
      * destruct rec; simpl; lia.
      * lia.
      * exists w'. rewrite Hrun.
        destruct rec as [file |];
          cbn [grabs cam stdout with_stdout with_grabs with_cam with_clock opened recording
               svo_frames] in Hg', Ho', Hr', Hf', Hp' |- *;
          (split; [f_equal; f_equal; lia |]);
          (split; [exact Hs' |]); (split; [exact Hc' |]); (split; [exact Hg' |]);
          (split; [exact Ho' |]); (split; [exact Hr' |]);
          (split; [rewrite Hf'; lia |]);
          rewrite Hp'; cbn [Nat.add]; rewrite frame_counts_cons, <- app_assoc; reflexivity.
    + match goal with |- context [while_loop ltb fuel tmax frames ?w0] =>
        destruct (IH fuel frames w0) as (w' & Hrun & Hs' & Hc' & Hg' & Ho' & Hr' & Hf' & Hp')
      end.
      * reflexivity.
      * reflexivity.
      * simpl. lia.
      * lia.
      * exists w'. rewrite Hrun.
        cbn [grabs cam stdout with_stdout with_grabs with_cam with_clock opened recording
             svo_frames Nat.add] in Hg', Ho', Hr', Hf', Hp' |- *.
        repeat (split; [first [reflexivity | assumption] |]). exact Hp'.
Qed.

Lemma main_frames_to_the_deadline (opt : Options float) (w : World float) before t after :
  sigint w = None ->
  open_status w = SUCCESS ->
  enable_status w = SUCCESS ->
  clock w = before ++ t :: after ->
  Forall (fun x => ltb x (time_stop_zed opt) = true) before ->
  ltb t (time_stop_zed opt) = false ->
  List.length before <= List.length (grabs w) ->
  exists w',
    main_frames ltb opt w
    = (inl (successes (firstn (List.length before) (grabs w))), w') /\
    opened (cam w') = true /\
    recording (cam w') = Some (output_svo_file opt) /\
    svo_frames (cam w') =
      svo_frames (cam w) + successes (firstn (List.length before) (grabs w)) /\
    stdout w' =
      stdout w ++
      ("SVO is Recording, use Ctrl-C to stop." ++ LF)%string ::
      frame_counts 0 (successes (firstn (List.length before) (grabs w))) /\
    clock w' = after /\
    grabs w' = skipn (List.length before) (grabs w).
Proof.
  intros Hs Ho He Hc Hb Ht Hg.
  destruct w as [[op rec fr] out os es cl gr si].
  cbn [sigint clock grabs cam stdout opened recording svo_frames open_status enable_status]
    in *.
  subst si os es cl.
  unfold main_frames. unfold bind at 1. rewrite stmt_quiet by reflexivity.
  unfold cam_open at 1.
  cbn [open_status is_success negb with_cam cam stdout enable_status clock grabs sigint
       opened recording svo_frames].
  unfold bind at 1. unfold ret at 1. unfold bind at 1. rewrite stmt_quiet by reflexivity.
  unfold cam_enable_recording at 1.
  cbn [open_status is_success negb with_cam cam stdout enable_status clock grabs sigint
       opened recording svo_frames].
  unfold bind at 1. unfold ret at 1. unfold bind at 1. rewrite stmt_quiet by reflexivity.
  unfold print at 1.
  cbn [open_status with_stdout cam stdout enable_status clock grabs sigint].
  match goal with |- context [while_loop ltb ?fuel ?tmax 0 ?w0] =>
    destruct (while_loop_to_the_deadline tmax t after before Ht Hb fuel 0 w0)
      as (w' & Hrun & Hs' & Hc' & Hg' & Ho' & Hr' & Hf' & Hp')
  end.
  - reflexivity.
  - reflexivity.
  - exact Hg.
  - simpl. rewrite length_app. simpl. lia.
  - exists w'. rewrite Hrun.
    cbn [grabs cam stdout opened recording svo_frames Nat.add with_cam with_stdout]
      in Hg', Ho', Hr', Hf', Hp' |- *.
    rewrite Hp', <- app_assoc. auto 10.
Qed.

(** X24.  When camera and recording start and Ctrl-C does not arrive, the
    script ends with exit status 0 at the first reading of the clock that
    is not before [time_stop_zed].  [frames_recorded] is then the number of
    grabs that succeeded in the turns before, each of which added a frame
    to the file and printed its count; the recording is not disabled and
    the camera is not closed. *)
Theorem deadline_ends_the_recording_without_closing
  (opt : Options float) (w : World float) before t after :
  good_name opt ->
  sigint w = None ->
  open_status w = SUCCESS ->
  enable_status w = SUCCESS ->
  clock w = before ++ t :: after ->
  Forall (fun x => ltb x (time_stop_zed opt) = true) before ->
  ltb t (time_stop_zed opt) = false ->
  List.length before <= List.length (grabs w) ->
  fst (main_frames ltb opt w) = inl (successes (firstn (List.length before) (grabs w))) /\
  exit_status (fst (script ltb opt w)) = Some 0%Z /\
  opened (cam (snd (script ltb opt w))) = true /\
  recording (cam (snd (script ltb opt w))) = Some (output_svo_file opt) /\
  svo_frames (cam (snd (script ltb opt w))) =
    svo_frames (cam w) + successes (firstn (List.length before) (grabs w)) /\
  stdout (snd (script ltb opt w)) =
    stdout w ++
    ("SVO is Recording, use Ctrl-C to stop." ++ LF)%string ::
    frame_counts 0 (successes (firstn (List.length before) (grabs w))) /\
  clock (snd (script ltb opt w)) = after.
Proof.
  intros Hn Hs Ho He Hc Hb Ht Hg.
  destruct (main_frames_to_the_deadline opt w before t after Hs Ho He Hc Hb Ht Hg)
    as (w' & Hrun & Ho' & Hr' & Hf' & Hp' & Hc' & _).
  rewrite (script_good_name opt w Hn). unfold main, bind. rewrite Hrun.
  unfold ret. cbn [fst snd exit_status]. auto 10.
Qed.

(** ** Ctrl-C *)

Lemma safe_ret {A} (a : A) : safe (ret (float:=float) a).
Proof. intros w Hp. left. exact Hp. Qed.

Lemma safe_bind {A B} (m : Run float A) (k : A -> Run float B) :
  safe m -> (forall a, safe (k a)) -> safe (bind m k).
Proof.
  intros Hm Hk w Hp. specialize (Hm w Hp). unfold bind.
  destruct (m w) as [[a | s] w1] eqn:E; cbn [fst snd] in Hm.
  - destruct Hm as [Hm | (Hm & _)]; [| discriminate Hm].
    exact (Hk a w1 Hm).
  - cbn [fst snd]. destruct Hm as [Hm | (Hm & H1 & H2 & H3)].
    + left. exact Hm.
    + right. inversion Hm; subst. repeat split; assumption.
Qed.

Lemma safe_stmt {A} (a : Run float A) :
  (forall w, sigint (snd (a w)) = sigint w) -> safe (stmt a).
Proof.
  intros Ha w [n Hn]. unfold stmt, bind, poll. rewrite Hn.
  destruct n as [| n].
  - right. repeat split.
  - left. destruct (a (with_sigint (Some n) w)) as [[x | s] w1] eqn:E;
      cbn [fst snd]; exists n;
      (replace w1 with (snd (a (with_sigint (Some n) w))) by (rewrite E; reflexivity));
      rewrite Ha; reflexivity.
Qed.

Lemma safe_while_loop fuel tmax frames : safe (while_loop ltb fuel tmax frames).
Proof.
  revert frames. induction fuel as [| fuel IH]; intros frames.
  - intros w Hp. left. exact Hp.
  - cbn [while_loop]. apply safe_bind.
    + apply safe_stmt. intros w. unfold time_time. destruct (clock w); reflexivity.
    + intros now. destruct (ltb now tmax); [| apply safe_ret].
      apply safe_bind.
      * apply safe_stmt. intros w. unfold cam_grab.
        destruct (grabs w) as [| [| name] rest]; [reflexivity | | reflexivity].
        destruct (recording (cam w)); reflexivity.
      * intros err. destruct (is_success err); [| apply IH].
        apply safe_bind; [apply safe_stmt; intros w; reflexivity | intros _; apply IH].
Qed.

Lemma safe_script (opt : Options float) : safe (script ltb opt).
Proof.
  unfold script. apply safe_bind.
  - destruct (_ && _); [| apply safe_ret].
    apply safe_bind; [| intros _]; apply safe_stmt; intros w; reflexivity.
  - intros _. unfold main. apply safe_bind; [| intros n; apply safe_ret].
    unfold main_frames. apply safe_bind.
    + apply safe_stmt. intros w. unfold cam_open.
      destruct (is_success (open_status w)); reflexivity.
    + intros status. apply safe_bind.
      * destruct (negb (is_success status)); [| apply safe_ret].
        apply safe_bind; [| intros _]; apply safe_stmt; intros w; reflexivity.
      * intros _. apply safe_bind.
        -- apply safe_stmt. intros w. unfold cam_enable_recording.
           destruct (is_success (enable_status w)); reflexivity.
        -- intros err. apply safe_bind.
           ++ destruct (negb (is_success err)); [| apply safe_ret].
              apply safe_bind; [| intros _]; apply safe_stmt; intros w; reflexivity.
           ++ intros _. apply safe_bind.
              ** apply safe_stmt. intros w. reflexivity.
              ** intros _ w Hp. apply safe_while_loop. exact Hp.
Qed.

(** X25.  Ctrl-C ends the recorder cleanly wherever it arrives: if the
    signal came while the script ran, the process ended with exit status
    0, with the recording disabled and the camera closed. *)
Theorem ctrl_c_closes_the_camera (opt : Options float) (w : World float) n :
  sigint w = Some n ->
  sigint (snd (script ltb opt w)) = None ->
  fst (script ltb opt w) = inr (Exit (Some 0%Z)) /\
  opened (cam (snd (script ltb opt w))) = false /\
  recording (cam (snd (script ltb opt w))) = None.
Proof.
  intros Hn Hend.
  destruct (safe_script opt w (ex_intro _ n Hn)) as [[n' Hp] | (H1 & _ & H2 & H3)].
  - rewrite Hend in Hp. discriminate Hp.
  - auto.
Qed.

End Floats.

Lemma bad_file_name_exits_with_status_zero_witness :
  exit_status (fst (script Z.ltb bad_name_options ctrl_c_world)) = Some 0%Z /\
  clock (snd (script Z.ltb bad_name_options ctrl_c_world)) = clock ctrl_c_world /\
  grabs (snd (script Z.ltb bad_name_options ctrl_c_world)) = grabs ctrl_c_world /\
  svo_frames (cam (snd (script Z.ltb bad_name_options ctrl_c_world)))
  = svo_frames (cam ctrl_c_world) /\
  (opened (cam (snd (script Z.ltb bad_name_options ctrl_c_world))) = true ->
   opened (cam ctrl_c_world) = true).
Proof.
  apply (bad_file_name_exits_with_status_zero Z.ltb bad_name_options ctrl_c_world);
    reflexivity.
Defined.

Lemma failed_open_exits_with_status_one_witness :
  script Z.ltb sample_options no_zed_world =
    (inr (Exit (Some 1%Z)),
     with_stdout [(("Camera Open " ++ "CAMERA NOT DETECTED" ++ " Exit program.") ++ LF)%string]
                 no_zed_world).
Proof.
  apply (failed_open_exits_with_status_one Z.ltb sample_options no_zed_world
           "CAMERA NOT DETECTED"); reflexivity.
Defined.

Lemma failed_recording_leaves_the_camera_open_witness :
  fst (script Z.ltb sample_options no_file_world) = inr (Exit (Some 1%Z)) /\
  opened (cam (snd (script Z.ltb sample_options no_file_world))) = true /\
  recording (cam (snd (script Z.ltb sample_options no_file_world))) = None /\
  grabs (snd (script Z.ltb sample_options no_file_world)) = [] /\
  stdout (snd (script Z.ltb sample_options no_file_world)) =
    [(("Recording ZED :  " ++ "SVO RECORDING ERROR") ++ LF)%string].
Proof.
  apply (failed_recording_leaves_the_camera_open Z.ltb sample_options no_file_world
           "SVO RECORDING ERROR"); reflexivity.
Defined.

Lemma deadline_ends_the_recording_without_closing_witness :
  fst (main_frames Z.ltb sample_options sample_world) = inl 2 /\
  exit_status (fst (script Z.ltb sample_options sample_world)) = Some 0%Z /\
  opened (cam (snd (script Z.ltb sample_options sample_world))) = true /\
  recording (cam (snd (script Z.ltb sample_options sample_world))) = Some "dive.svo2" /\
  svo_frames (cam (snd (script Z.ltb sample_options sample_world))) = 2 /\
  stdout (snd (script Z.ltb sample_options sample_world)) =
    [("SVO is Recording, use Ctrl-C to stop." ++ LF)%string;
     ("Frame count: 1" ++ CR)%string; ("Frame count: 2" ++ CR)%string] /\
  clock (snd (script Z.ltb sample_options sample_world)) = [28%Z].
Proof.
  apply (deadline_ends_the_recording_without_closing Z.ltb sample_options sample_world
           [0; 7; 14]%Z 21%Z [28%Z]);
    first [reflexivity | repeat constructor | simpl; lia].
Defined.

Lemma ctrl_c_closes_the_camera_witness :
  fst (script Z.ltb sample_options ctrl_c_world) = inr (Exit (Some 0%Z)) /\
  opened (cam (snd (script Z.ltb sample_options ctrl_c_world))) = false /\
  recording (cam (snd (script Z.ltb sample_options ctrl_c_world))) = None.
Proof.
  apply (ctrl_c_closes_the_camera Z.ltb sample_options ctrl_c_world 7); reflexivity.
Defined.

End RecordSvoSpec.
